(** * Moving Memories: the workflow store, the provider clients and the
      step orchestrators, embedded in Rocq.

    The development follows the TypeScript sources:
    - [Js]               the string primitives of the host language the code uses
    - [memoryStore]      store/memoryStore.ts (state, mutators, predicates)
    - [Prog], [run]      asynchronous code as a small free monad over the
                         effects the sources perform, run against an
                         arbitrary environment
    - [imageProcessing], [GeminiService], [ReplicateService], [VeoService]
    - [UploadComponent], [EnhanceComponent], [GenerateComponent]
    - [ApiKeyModal], [App]   the key form and the part of the page around
                             it, as functions on the page's state

    Conventions.  A nullable or optional value is an [option]; a JS number
    that is always an integer (sizes, counters, timestamps) is an [N] or a
    [Z]; the store's progress is a [Js.Number] (NaN, an infinity, or a
    finite value, which is a rational: no rounding); the percentages the
    components compute themselves from finite values are rationals [Q];
    [console.*] calls are left out, they have no effect on the program.  A string is a sequence of one-byte code units. *)

From Stdlib Require Import String Ascii List Bool ZArith NArith QArith Qminmax Lia Lqa.
From Stdlib Require Import DecimalString.
Import ListNotations.

Local Open Scope list_scope.
Local Open Scope string_scope.

(* ================================================================== *)
(** * Host-language string primitives *)
(* ================================================================== *)

Module Js.

(** The double quote and the line feed, as one-character strings. *)
Definition dquote : string := String (ascii_of_nat 34) EmptyString.
Definition squote : string := String (ascii_of_nat 39) EmptyString.
Definition lf : string := String (ascii_of_nat 10) EmptyString.

(** Truthiness: [!!s] for a string, [!!x] for a nullable string, and for
    a nullable object. *)
Definition nonEmpty (s : string) : bool :=
  match s with EmptyString => false | String _ _ => true end.

Definition truthy (s : option string) : bool :=
  match s with Some s => nonEmpty s | None => false end.

Definition isSome {A} (x : option A) : bool :=
  match x with Some _ => true | None => false end.

(** [a || b] on strings, and on an optional string with a string default. *)
Definition orElse (a : option string) (b : string) : string :=
  if truthy a then match a with Some s => s | None => b end else b.

(** A template literal prints [undefined] for a missing value. *)
Definition show (s : option string) : string :=
  match s with Some s => s | None => "undefined" end.

(** [s.startsWith(p)] *)
Definition startsWith (s p : string) : bool := String.prefix p s.

(** [s.includes(sub)] *)
Fixpoint includes (s sub : string) : bool :=
  String.prefix sub s ||
  match s with
  | EmptyString => false
  | String _ t => includes t sub
  end.

Fixpoint drop (n : nat) (s : string) : string :=
  match n, s with
  | O, _ => s
  | S _, EmptyString => EmptyString
  | S m, String _ t => drop m t
  end.

(** The characters before the first [c] (all of [s] when there is none). *)
Fixpoint takeUntil (c : ascii) (s : string) : string :=
  match s with
  | EmptyString => EmptyString
  | String d t => if Ascii.eqb d c then EmptyString else String d (takeUntil c t)
  end.

(** What follows the first [c]; [None] when [c] does not occur. *)
Fixpoint afterFirst (c : ascii) (s : string) : option string :=
  match s with
  | EmptyString => None
  | String d t => if Ascii.eqb d c then Some t else afterFirst c t
  end.

(** [s.split(',')[1]] *)
Definition splitComma1 (s : string) : option string :=
  match afterFirst "," s with
  | None => None
  | Some r => Some (takeUntil "," r)
  end.

(** White space of [String.prototype.trim] among one-byte code units. *)
Definition isWhite (c : ascii) : bool :=
  let n := nat_of_ascii c in
  ((9 <=? n) && (n <=? 13) || (n =? 32) || (n =? 160))%nat.

Fixpoint trimStart (s : string) : string :=
  match s with
  | EmptyString => EmptyString
  | String c t => if isWhite c then trimStart t else s
  end.

Fixpoint trimEnd (s : string) : string :=
  match s with
  | EmptyString => EmptyString
  | String c t =>
      match trimEnd t with
      | EmptyString => if isWhite c then EmptyString else String c EmptyString
      | t' => String c t'
      end
  end.

Definition trim (s : string) : string := trimEnd (trimStart s).

(** ASCII lower-casing, for the [i] flag of a regular expression. *)
Definition lowerChar (c : ascii) : ascii :=
  let n := nat_of_ascii c in
  if ((65 <=? n) && (n <=? 90))%nat then ascii_of_nat (n + 32) else c.

Fixpoint lower (s : string) : string :=
  match s with
  | EmptyString => EmptyString
  | String c t => String (lowerChar c) (lower t)
  end.

Definition prefixCI (p s : string) : bool :=
  String.prefix (lower p) (lower s).

(** Group 1 of [s.match(/^data:([^;]+);base64,/i)].  The class [[^;]+] is
    greedy and must be followed by [;], so it can only be the whole run
    up to the first [;]. *)
Definition matchDataBase64 (s : string) : option string :=
  if prefixCI "data:" s then
    let rest := drop 5 s in
    let mime := takeUntil ";" rest in
    if nonEmpty mime && prefixCI ";base64," (drop (String.length mime) rest)
    then Some mime else None
  else None.

(** Group 1 of [s.match(/data:([^;]+)/)]: the leftmost [data:] that is
    followed by a character other than [;], and the run up to the next
    [;] or the end. *)
Fixpoint matchData (s : string) : option string :=
  match s with
  | EmptyString => None
  | String _ t =>
      let mime := takeUntil ";" (drop 5 s) in
      if String.prefix "data:" s && nonEmpty mime then Some mime
      else matchData t
  end.

Definition isQuote (c : ascii) : bool :=
  let n := nat_of_ascii c in ((n =? 34) || (n =? 39))%nat.

Definition dropLeadingQuote (s : string) : string :=
  match s with
  | String c t => if isQuote c then t else s
  | EmptyString => EmptyString
  end.

Fixpoint dropTrailingQuote (s : string) : string :=
  match s with
  | EmptyString => EmptyString
  | String c EmptyString => if isQuote c then EmptyString else s
  | String c t => String c (dropTrailingQuote t)
  end.

(** [s.replace(/^["']|["']$/g, '')] *)
Definition stripQuotes (s : string) : string :=
  dropTrailingQuote (dropLeadingQuote s).

Definition isLf (c : ascii) : bool := (nat_of_ascii c =? 10)%nat.

(** [s.replace(/\n+/g, ' ')]: a line feed followed by another one is
    dropped, the last of a run becomes the space. *)
Fixpoint joinLines (s : string) : string :=
  match s with
  | EmptyString => EmptyString
  | String c t =>
      if isLf c then
        match t with
        | String d _ => if isLf d then joinLines t else String " " (joinLines t)
        | EmptyString => " "
        end
      else String c (joinLines t)
  end.

Definition hexDigit (n : nat) : ascii :=
  if (n <? 10)%nat then ascii_of_nat (48 + n) else ascii_of_nat (55 + n).

Definition hexDigitLower (n : nat) : ascii :=
  if (n <? 10)%nat then ascii_of_nat (48 + n) else ascii_of_nat (87 + n).

(** Characters [encodeURIComponent] leaves alone. *)
Definition isUnreserved (c : ascii) : bool :=
  let n := nat_of_ascii c in
  ((48 <=? n) && (n <=? 57) || (65 <=? n) && (n <=? 90) || (97 <=? n) && (n <=? 122)
   || (n =? 45) || (n =? 95) || (n =? 46) || (n =? 33) || (n =? 126)
   || (n =? 42) || (n =? 39) || (n =? 40) || (n =? 41))%nat.

(** [encodeURIComponent(s)], the string being the bytes of its UTF-8 form. *)
Fixpoint encodeURIComponent (s : string) : string :=
  match s with
  | EmptyString => EmptyString
  | String c t =>
      if isUnreserved c then String c (encodeURIComponent t)
      else
        let n := nat_of_ascii c in
        String "%" (String (hexDigit (n / 16)) (String (hexDigit (n mod 16))
          (encodeURIComponent t)))
  end.

(** The body of a JSON string literal, as [JSON.stringify] escapes it. *)
Fixpoint jsonEscape (s : string) : string :=
  match s with
  | EmptyString => EmptyString
  | String c t =>
      let n := nat_of_ascii c in
      let rest := jsonEscape t in
      if (n =? 34)%nat then String "\" (String c rest)
      else if (n =? 92)%nat then String "\" (String "\" rest)
      else if (n =? 8)%nat then String "\" (String "b" rest)
      else if (n =? 12)%nat then String "\" (String "f" rest)
      else if (n =? 10)%nat then String "\" (String "n" rest)
      else if (n =? 13)%nat then String "\" (String "r" rest)
      else if (n =? 9)%nat then String "\" (String "t" rest)
      else if (n <? 32)%nat then
        String "\" (String "u" (String "0" (String "0"
          (String (hexDigitLower (n / 16)) (String (hexDigitLower (n mod 16)) rest)))))
      else String c rest
  end.

Definition jsonString (s : string) : string := dquote ++ jsonEscape s ++ dquote.

(** A number in a template literal (integers only). *)
Definition showZ (z : Z) : string := NilZero.string_of_int (Z.to_int z).

(** A number, as far as [Math.min] and [Math.max] tell numbers apart:
    [NaN], an infinity, or a finite value, a rational here. *)
Inductive Number : Type :=
| NaN
| NegInfinity
| Infinity
| Finite (q : Q).

(** [Math.min(a, b)]: [NaN] as soon as one argument is. *)
Definition Math_min (a b : Number) : Number :=
  match a, b with
  | NaN, _ => NaN
  | _, NaN => NaN
  | NegInfinity, _ => NegInfinity
  | _, NegInfinity => NegInfinity
  | Infinity, x => x
  | x, Infinity => x
  | Finite x, Finite y => Finite (Qmin x y)
  end.

(** [Math.max(a, b)] *)
Definition Math_max (a b : Number) : Number :=
  match a, b with
  | NaN, _ => NaN
  | _, NaN => NaN
  | Infinity, _ => Infinity
  | _, Infinity => Infinity
  | NegInfinity, x => x
  | x, NegInfinity => x
  | Finite x, Finite y => Finite (Qmax x y)
  end.

End Js.

(** A numeric literal, and any finite value, is a number. *)
Coercion Js.Finite : Q >-> Js.Number.

(* ================================================================== *)
(** * types/index.ts *)
(* ================================================================== *)

Inductive ProcessingStep : Type :=
| upload | enhance | prompt | generate | complete.

(** The part of a browser [File] the code looks at. *)
Record File : Type := mkFile {
  file_name : string;
  file_type : string;
  file_size : N
}.

Record MemoryState : Type := mkMemoryState {
  currentStep : ProcessingStep;
  originalImage : option File;
  originalImageUrl : option string;
  originalImageDataUrl : option string;
  enhancedImageUrl : option string;
  enhancedImageCaption : option string;
  videoUrl : option string;
  userNote : string;
  motionPrompt : string;
  isProcessing : bool;
  progress : Js.Number;
  error : option string;
  apiKey : option string;
  processingStartTime : option Z;
  estimatedTimeRemaining : option Q
}.

(* ================================================================== *)
(** * store/memoryStore.ts: the pure part *)
(* ================================================================== *)

Module memoryStore.

Definition initialState : MemoryState := {|
  currentStep := upload;
  originalImage := None;
  originalImageUrl := None;
  originalImageDataUrl := None;
  enhancedImageUrl := None;
  enhancedImageCaption := None;
  videoUrl := None;
  userNote := "";
  motionPrompt := "";
  isProcessing := false;
  progress := 0;
  error := None;
  apiKey := None;
  processingStartTime := None;
  estimatedTimeRemaining := None
|}.

(** One [key: value] entry of the object handed to zustand's [set]. *)
Inductive Entry : Type :=
| currentStep_ (v : ProcessingStep)
| originalImage_ (v : option File)
| originalImageUrl_ (v : option string)
| originalImageDataUrl_ (v : option string)
| enhancedImageUrl_ (v : option string)
| enhancedImageCaption_ (v : option string)
| videoUrl_ (v : option string)
| userNote_ (v : string)
| motionPrompt_ (v : string)
| isProcessing_ (v : bool)
| progress_ (v : Js.Number)
| error_ (v : option string)
| apiKey_ (v : option string)
| processingStartTime_ (v : option Z)
| estimatedTimeRemaining_ (v : option Q).

Definition assign (s : MemoryState) (e : Entry) : MemoryState :=
  let '(mkMemoryState a b c d e0 f g h i j k l m n o) := s in
  match e with
  | currentStep_ v => mkMemoryState v b c d e0 f g h i j k l m n o
  | originalImage_ v => mkMemoryState a v c d e0 f g h i j k l m n o
  | originalImageUrl_ v => mkMemoryState a b v d e0 f g h i j k l m n o
  | originalImageDataUrl_ v => mkMemoryState a b c v e0 f g h i j k l m n o
  | enhancedImageUrl_ v => mkMemoryState a b c d v f g h i j k l m n o
  | enhancedImageCaption_ v => mkMemoryState a b c d e0 v g h i j k l m n o
  | videoUrl_ v => mkMemoryState a b c d e0 f v h i j k l m n o
  | userNote_ v => mkMemoryState a b c d e0 f g v i j k l m n o
  | motionPrompt_ v => mkMemoryState a b c d e0 f g h v j k l m n o
  | isProcessing_ v => mkMemoryState a b c d e0 f g h i v k l m n o
  | progress_ v => mkMemoryState a b c d e0 f g h i j v l m n o
  | error_ v => mkMemoryState a b c d e0 f g h i j k v m n o
  | apiKey_ v => mkMemoryState a b c d e0 f g h i j k l v n o
  | processingStartTime_ v => mkMemoryState a b c d e0 f g h i j k l m v o
  | estimatedTimeRemaining_ v => mkMemoryState a b c d e0 f g h i j k l m n v
  end.

(** [set({ ... })]: one shallow merge of the object into the state. *)
Definition set (partial : list Entry) (s : MemoryState) : MemoryState :=
  fold_left assign partial s.

(** [{ ...s }]: every field of [s] as an entry. *)
Definition spread (s : MemoryState) : list Entry :=
  [ currentStep_ (currentStep s);
    originalImage_ (originalImage s);
    originalImageUrl_ (originalImageUrl s);
    originalImageDataUrl_ (originalImageDataUrl s);
    enhancedImageUrl_ (enhancedImageUrl s);
    enhancedImageCaption_ (enhancedImageCaption s);
    videoUrl_ (videoUrl s);
    userNote_ (userNote s);
    motionPrompt_ (motionPrompt s);
    isProcessing_ (isProcessing s);
    progress_ (progress s);
    error_ (error s);
    apiKey_ (apiKey s);
    processingStartTime_ (processingStartTime s);
    estimatedTimeRemaining_ (estimatedTimeRemaining s) ].

Definition setCurrentStep (step : ProcessingStep) : MemoryState -> MemoryState :=
  set [ currentStep_ step; error_ None ].

Definition setOriginalImage (file : File) (url : string) : MemoryState -> MemoryState :=
  set [ originalImage_ (Some file);
        originalImageUrl_ (Some url);
        originalImageDataUrl_ (Some url);
        enhancedImageUrl_ None;
        enhancedImageCaption_ None;
        videoUrl_ None;
        motionPrompt_ "";
        userNote_ "";
        error_ None;
        currentStep_ enhance ].

(** [caption || null] *)
Definition setEnhancedImage (url : string) (caption : option string)
  : MemoryState -> MemoryState :=
  set [ enhancedImageUrl_ (Some url);
        enhancedImageCaption_ (if Js.truthy caption then caption else None);
        currentStep_ generate ].

Definition setVideoUrl (url : string) : MemoryState -> MemoryState :=
  set [ videoUrl_ (Some url);
        currentStep_ complete;
        isProcessing_ false;
        progress_ 100 ].

Definition setUserNote (note : string) : MemoryState -> MemoryState :=
  set [ userNote_ note ].

Definition setMotionPrompt (p : string) : MemoryState -> MemoryState :=
  set [ motionPrompt_ p ].

Definition setProcessing (b : bool) : MemoryState -> MemoryState :=
  set [ isProcessing_ b ].

(** [Math.max(0, Math.min(100, progress))] *)
Definition setProgress (p : Js.Number) : MemoryState -> MemoryState :=
  set [ progress_ (Js.Math_max 0 (Js.Math_min 100 p)) ].

Definition setError (e : option string) : MemoryState -> MemoryState :=
  set [ error_ e; isProcessing_ false ].

Definition setApiKey (key : string) : MemoryState -> MemoryState :=
  set [ apiKey_ (Some (Js.trim key)) ].

Definition clearApiKey : MemoryState -> MemoryState :=
  set [ apiKey_ None ].

(** [now] is the value of [Date.now()]. *)
Definition startProcessing (now : Z) : MemoryState -> MemoryState :=
  set [ isProcessing_ true;
        processingStartTime_ (Some now);
        error_ None;
        progress_ 0 ].

Definition completeProcessing : MemoryState -> MemoryState :=
  set [ isProcessing_ false;
        processingStartTime_ None;
        estimatedTimeRemaining_ None;
        progress_ 100 ].

Definition setEstimatedTime (seconds : Q) : MemoryState -> MemoryState :=
  set [ estimatedTimeRemaining_ (Some seconds) ].

(** [url?.startsWith('blob:')] *)
Definition isBlobUrl (url : option string) : bool :=
  match url with
  | Some u => Js.startsWith u "blob:"
  | None => false
  end.

(** The [set] of [resetWorkflow]; [state] is the result of [get()]. *)
Definition resetWorkflowSet (state : MemoryState) : MemoryState -> MemoryState :=
  set (spread initialState ++ [ apiKey_ (apiKey state) ])%list.

Definition clearMediaSet : MemoryState -> MemoryState :=
  set [ originalImage_ None;
        originalImageUrl_ None;
        enhancedImageUrl_ None;
        videoUrl_ None;
        currentStep_ upload;
        progress_ 0;
        error_ None ].

(** The mutators as data, for statements about every sequence of them. *)
Inductive Action : Type :=
| SetCurrentStep (step : ProcessingStep)
| SetOriginalImage (file : File) (url : string)
| SetEnhancedImage (url : string) (caption : option string)
| SetVideoUrl (url : string)
| SetUserNote (note : string)
| SetMotionPrompt (p : string)
| SetProcessing (b : bool)
| SetProgress (p : Js.Number)
| SetError (e : option string)
| SetApiKey (key : string)
| ClearApiKey
| StartProcessing (now : Z)
| CompleteProcessing
| SetEstimatedTime (seconds : Q)
| ResetWorkflow
| ClearMedia.

Definition act (s : MemoryState) (a : Action) : MemoryState :=
  match a with
  | SetCurrentStep step => setCurrentStep step s
  | SetOriginalImage file url => setOriginalImage file url s
  | SetEnhancedImage url caption => setEnhancedImage url caption s
  | SetVideoUrl url => setVideoUrl url s
  | SetUserNote note => setUserNote note s
  | SetMotionPrompt p => setMotionPrompt p s
  | SetProcessing b => setProcessing b s
  | SetProgress p => setProgress p s
  | SetError e => setError e s
  | SetApiKey key => setApiKey key s
  | ClearApiKey => clearApiKey s
  | StartProcessing now => startProcessing now s
  | CompleteProcessing => completeProcessing s
  | SetEstimatedTime seconds => setEstimatedTime seconds s
  | ResetWorkflow => resetWorkflowSet s s
  | ClearMedia => clearMediaSet s
  end.

Definition canProceedToStep (step : ProcessingStep) (state : MemoryState) : bool :=
  match step with
  | upload => true
  | enhance => Js.isSome (originalImage state)
  | prompt => Js.truthy (enhancedImageUrl state)
  | generate => Js.nonEmpty (motionPrompt state)
  | complete => Js.truthy (videoUrl state)
  end.

Definition stepValues (step : ProcessingStep) : Z :=
  match step with
  | upload => 0
  | enhance => 25
  | prompt => 50
  | generate => 75
  | complete => 100
  end.

(** [stepValues[state.currentStep] || 0] *)
Definition getStepProgress (state : MemoryState) : Z :=
  stepValues (currentStep state).

Definition getNextStep (step : ProcessingStep) : option ProcessingStep :=
  match step with
  | upload => Some enhance
  | enhance => Some prompt
  | prompt => Some generate
  | generate => Some complete
  | complete => None
  end.

End memoryStore.

(* ================================================================== *)
(** * Values exchanged with the browser and the providers *)
(* ================================================================== *)

(** A thrown value: an [Error] with its message, or anything else with the
    text [String(value)] gives for it. *)
Inductive JsError : Type :=
| ErrorObj (message : string)
| Thrown (text : string).

(** [error instanceof Error ? error.message : String(error)] *)
Definition messageOf (e : JsError) : string :=
  match e with ErrorObj m => m | Thrown t => t end.

Record Blob : Type := mkBlob {
  blob_type : string;
  blob_bytes : string
}.

(** The part of a [fetch] response the code reads; [J] is the shape the
    code expects of the parsed body. *)
Record Response (J : Type) : Type := mkResponse {
  ok : bool;
  status : Z;
  text : string;
  json : JsError + J
}.
Arguments mkResponse {J}.
Arguments ok {J}.
Arguments status {J}.
Arguments text {J}.
Arguments json {J}.

Record BlobResponse : Type := mkBlobResponse {
  blob_ok : bool;
  blob_status : Z;
  blob : Blob
}.

(** Gemini [generateContent]. *)
Record InlineData : Type := mkInlineData {
  mimeType : string;
  data : string
}.

Record CandidatePart : Type := mkPart {
  part_text : option string;
  part_inlineData : option InlineData
}.

(** [response.candidates?.[0]?.content?.parts] *)
Definition GenerateContentResponse : Type := option (list CandidatePart).

Inductive RequestPart : Type :=
| TextPart (t : string)
| InlinePart (mime : string) (base64 : option string).

Inductive Contents : Type :=
| Parts (ps : list RequestPart)            (* contents: [ part, part ] *)
| Turn (ps : list RequestPart)             (* contents: [ { parts: [...] } ] *)
| Texts (ts : list string).                (* contents: [ 'a', 'b' ] *)

(** VEO long-running operation. *)
Record Operation : Type := mkOperation {
  op_name : string;
  done : bool;
  (** [response?.generatedVideos?.[0]?.video], and its [uri] *)
  video : option (option string)
}.

Record VeoInstance : Type := mkVeoInstance {
  veo_prompt : string;
  bytesBase64Encoded : option string;
  veo_mimeType : string
}.

(** Replicate. *)
Record SeedanceInput : Type := mkSeedanceInput {
  sd_prompt : string;
  duration : Z;
  resolution : string;
  aspect_ratio : string;
  image : option string;
  fps : Z;
  camera_fixed : bool
}.

Record NanoBananaInput : Type := mkNanoBananaInput {
  nb_prompt : string;
  image_input : list string;
  output_format : string
}.

(** [result.output] of a prediction, as far as the code tells cases apart. *)
Inductive ReplicateOutput : Type :=
| OutMissing
| OutString (s : string)
| OutArray (l : list string).

Record ImageProcessingOptions : Type := mkOptions {
  maxSizeMB : Z;
  maxWidthOrHeight : Z;
  useWebWorker : bool;
  fileType : option string;
  quality : option Q
}.

(** What a timer does when it fires. *)
Inductive TimerAction : Type :=
| AdvanceTo (step : ProcessingStep)        (* () => setCurrentStep(step) *)
| CallStartGeneration                       (* () => startGeneration() *)
| GentleProgressTick (startTime : Z)
| EnhanceProgressTick.

(* ================================================================== *)
(** * Effects, programs and their runs *)
(* ================================================================== *)

(** Requests the code makes to its surroundings; the index is the type of
    the answer. *)
Inductive Ext : Type -> Type :=
| localStorage_getItem (key : string) : Ext (option string)
| Date_now : Ext Z
| setTimeout (cb : TimerAction) (ms : Z) : Ext Z
| clearTimeout (id : Z) : Ext unit
| setInterval (cb : TimerAction) (ms : Z) : Ext Z
| clearInterval (id : Z) : Ext unit
| sleep (ms : Z) : Ext unit
| URL_createObjectURL (b : Blob) : Ext string
| URL_revokeObjectURL (url : string) : Ext unit
| fetchUrl (url : string) : Ext (JsError + BlobResponse)
| readBlobAsDataURL (b : Blob) : Ext (JsError + string)
| readFileAsDataURL (f : File) : Ext (JsError + option string)
| imageCompression (f : File) (opts : ImageProcessingOptions) : Ext (JsError + File)
| gemini_generateContent (model : string) (contents : Contents)
    : Ext (JsError + GenerateContentResponse)
| veo_predictLongRunning (key : string) (instances : list VeoInstance)
    : Ext (JsError + Response Operation)
| veo_getOperation (name : string) (key : string)
    : Ext (JsError + Response Operation)
| replicate_seedance (token : string) (input : SeedanceInput)
    : Ext (JsError + Response (option string))
| replicate_nanoBanana (token : string) (input : NanoBananaInput)
    : Ext (JsError + Response ReplicateOutput).

(** Mutable cells: the singletons' fields, the components' React state and
    refs, the store, and the [let prompt] of [startGeneration]. *)
Inductive Cell : Type -> Type :=
| theStore : Cell MemoryState
| veo_apiKey : Cell (option string)
| gemini_ai : Cell bool
| replicate_apiToken : Cell (option string)
| gen_isGenerating : Cell bool
| gen_generateError : Cell (option string)
| gen_progress : Cell Q
| gen_statusMessage : Cell string
| gen_timerRef : Cell (option Z)
| gen_generationStarted : Cell bool
| gen_prompt : Cell string
| enh_isEnhancing : Cell bool
| enh_enhanceError : Cell (option string)
| enh_userNote : Cell string
| enh_enhanceProgress : Cell Q
| enh_imageLoaded : Cell bool
| enh_enhancementStarted : Cell bool
| enh_autoAdvanceTimer : Cell (option Z)
| enh_hasEnhanced : Cell bool
| upl_isProcessing : Cell bool
| upl_uploadError : Cell (option string).

Inductive Prog (A : Type) : Type :=
| Ret (a : A)
| Throw (e : JsError)
| Call {X : Type} (e : Ext X) (k : X -> Prog A)
| Get {X : Type} (c : Cell X) (k : X -> Prog A)
| Put {X : Type} (c : Cell X) (v : X) (k : Prog A).
Arguments Ret {A}.
Arguments Throw {A}.
Arguments Call {A X}.
Arguments Get {A X}.
Arguments Put {A X}.

Fixpoint bind {A B : Type} (p : Prog A) (f : A -> Prog B) : Prog B :=
  match p with
  | Ret a => f a
  | Throw e => Throw e
  | Call e k => Call e (fun x => bind (k x) f)
  | Get c k => Get c (fun x => bind (k x) f)
  | Put c v k => Put c v (bind k f)
  end.

(** [try { p } catch (e) { h e }] *)
Fixpoint tryCatch {A : Type} (p : Prog A) (h : JsError -> Prog A) : Prog A :=
  match p with
  | Ret a => Ret a
  | Throw e => h e
  | Call e k => Call e (fun x => tryCatch (k x) h)
  | Get c k => Get c (fun x => tryCatch (k x) h)
  | Put c v k => Put c v (tryCatch k h)
  end.

(** [try { p } finally { f }] *)
Fixpoint tryFinally {A : Type} (p : Prog A) (f : Prog unit) : Prog A :=
  match p with
  | Ret a => bind f (fun _ => Ret a)
  | Throw e => bind f (fun _ => Throw e)
  | Call e k => Call e (fun x => tryFinally (k x) f)
  | Get c k => Get c (fun x => tryFinally (k x) f)
  | Put c v k => Put c v (tryFinally k f)
  end.

Declare Scope prog_scope.
Delimit Scope prog_scope with prog.
Notation "x <- p ;; q" := (bind p (fun x => q))
  (at level 100, p at next level, right associativity) : prog_scope.
Notation "p ;; q" := (bind p (fun _ => q))
  (at level 100, right associativity) : prog_scope.
Local Open Scope prog_scope.

Definition call {X : Type} (e : Ext X) : Prog X := Call e Ret.
Definition get {X : Type} (c : Cell X) : Prog X := Get c Ret.
Definition put {X : Type} (c : Cell X) (v : X) : Prog unit := Put c v (Ret tt).

(** [await] of a request that may reject. *)
Definition await {X : Type} (e : Ext (JsError + X)) : Prog X :=
  Call e (fun r => match r with inl err => Throw err | inr x => Ret x end).

(** [await response.json()] *)
Definition parsed {J : Type} (r : Response J) : Prog J :=
  match json r with inl err => Throw err | inr j => Ret j end.

Definition when (b : bool) (p : Prog unit) : Prog unit :=
  if b then p else Ret tt.

(** A store action: [useMemoryStore]'s mutators all go through [set]. *)
Definition dispatch (f : MemoryState -> MemoryState) : Prog unit :=
  s <- get theStore ;; put theStore (f s).

(** What a run leaves behind: the requests with their answers and the
    writes, oldest first. *)
Inductive Ev : Type :=
| Called {X : Type} (e : Ext X) (x : X)
| Wrote {X : Type} (c : Cell X) (v : X).

(** The surroundings: any answer to any request, possibly depending on
    everything that happened so far. *)
Definition Env : Type := forall X : Type, list Ev -> Ext X -> X.

(** Whether two cells are the same one; then a value of one is a value of
    the other. *)
Definition sameCell {X Y : Type} (c : Cell X) (d : Cell Y) : option (X -> Y) :=
  match c in Cell X, d in Cell Y return option (X -> Y) with
  | theStore, theStore => Some (fun x => x)
  | veo_apiKey, veo_apiKey => Some (fun x => x)
  | gemini_ai, gemini_ai => Some (fun x => x)
  | replicate_apiToken, replicate_apiToken => Some (fun x => x)
  | gen_isGenerating, gen_isGenerating => Some (fun x => x)
  | gen_generateError, gen_generateError => Some (fun x => x)
  | gen_progress, gen_progress => Some (fun x => x)
  | gen_statusMessage, gen_statusMessage => Some (fun x => x)
  | gen_timerRef, gen_timerRef => Some (fun x => x)
  | gen_generationStarted, gen_generationStarted => Some (fun x => x)
  | gen_prompt, gen_prompt => Some (fun x => x)
  | enh_isEnhancing, enh_isEnhancing => Some (fun x => x)
  | enh_enhanceError, enh_enhanceError => Some (fun x => x)
  | enh_userNote, enh_userNote => Some (fun x => x)
  | enh_enhanceProgress, enh_enhanceProgress => Some (fun x => x)
  | enh_imageLoaded, enh_imageLoaded => Some (fun x => x)
  | enh_enhancementStarted, enh_enhancementStarted => Some (fun x => x)
  | enh_autoAdvanceTimer, enh_autoAdvanceTimer => Some (fun x => x)
  | enh_hasEnhanced, enh_hasEnhanced => Some (fun x => x)
  | upl_isProcessing, upl_isProcessing => Some (fun x => x)
  | upl_uploadError, upl_uploadError => Some (fun x => x)
  | _, _ => None
  end.

Record World : Type := mkWorld {
  cells : forall X : Type, Cell X -> X;
  log : list Ev
}.

Definition read {X : Type} (c : Cell X) (w : World) : X := cells w X c.

Definition write {X : Type} (c : Cell X) (v : X) (w : World) : World :=
  {| cells := fun Y d => match sameCell c d with
                         | Some cast => cast v
                         | None => cells w Y d
                         end;
     log := log w |}.

Definition record (ev : Ev) (w : World) : World :=
  {| cells := cells w; log := (log w ++ [ev])%list |}.

(** The cells when the page has loaded and nothing has happened yet. *)
Definition freshCells (X : Type) (c : Cell X) : X :=
  match c in Cell X return X with
  | theStore => memoryStore.initialState
  | veo_apiKey => None
  | gemini_ai => false
  | replicate_apiToken => None
  | gen_isGenerating => false
  | gen_generateError => None
  | gen_progress => 0%Q
  | gen_statusMessage => "Initializing..."
  | gen_timerRef => None
  | gen_generationStarted => false
  | gen_prompt => ""
  | enh_isEnhancing => false
  | enh_enhanceError => None
  | enh_userNote => ""
  | enh_enhanceProgress => 0%Q
  | enh_imageLoaded => false
  | enh_enhancementStarted => false
  | enh_autoAdvanceTimer => None
  | enh_hasEnhanced => false
  | upl_isProcessing => false
  | upl_uploadError => None
  end.

Definition freshWorld : World := {| cells := freshCells; log := [] |}.

Fixpoint run {A : Type} (env : Env) (p : Prog A) (w : World) : World * (JsError + A) :=
  match p with
  | Ret a => (w, inr a)
  | Throw e => (w, inl e)
  | Call e k =>
      let x := env _ (log w) e in
      run env (k x) (record (Called e x) w)
  | Get c k => run env (k (read c w)) w
  | Put c v k => run env k (record (Wrote c v) (write c v w))
  end.

(** The events a run adds to the log. *)
Fixpoint trace {A : Type} (env : Env) (p : Prog A) (w : World) : list Ev :=
  match p with
  | Ret _ => []
  | Throw _ => []
  | Call e k =>
      let x := env _ (log w) e in
      Called e x :: trace env (k x) (record (Called e x) w)
  | Get c k => trace env (k (read c w)) w
  | Put c v k => Wrote c v :: trace env k (record (Wrote c v) (write c v w))
  end.

Definition outcome {A : Type} (env : Env) (p : Prog A) (w : World) : JsError + A :=
  snd (run env p w).

Definition after {A : Type} (env : Env) (p : Prog A) (w : World) : World :=
  fst (run env p w).

(* ================================================================== *)
(** * config/prompts.ts *)
(* ================================================================== *)

Module prompts.

Definition imageEnhancement_base : string :=
  "Look at the image, imagine how it would look like if it would have been taken with a modern digital NIKON dslr camerea, "
  ++ Js.lf ++
  "    Transform the image to vibrant and realistic colors shot on an google pixel 9 pro. DO NOT RETURN Images that look like black and white ot greyscale iamges. Return only the updated image and nothing else"
  ++ Js.lf ++ "    ".

Definition videoGeneration_base : string :=
  "Look at the image and describe what could realistically happen in the next 5 seconds, boring is fine. IF a "
  ++ Js.lf ++
  "    person is not showing their face on the reference image, ensure they do not turn to the camera but keep looking elsewhere. "
  ++ Js.lf ++
  "    Answer directly with the description of what could happen in the five seconds.".

Definition videoGeneration_withUserNote (userNote : string) : string :=
  "Look at the image and describe what could realistically happen in the next 5 seconds, boring is fine. IF a "
  ++ Js.lf ++
  "    person is not showing their face on the reference image, ensure they do not turn to the camera but keep looking elsewhere. "
  ++ Js.lf ++
  "      Take into account what the user mentioned about the image User Note:  "
  ++ Js.dquote ++ userNote ++ Js.dquote ++ ", The user note is imporant "
  ++ Js.lf ++
  "     Answer directly with the description in active  language what happens in next five seconds.".

Definition getEnhancementPrompt (_userNote : option string) : string :=
  imageEnhancement_base.

Definition getVideoPrompt (userNote : option string) : string :=
  match userNote with
  | Some n => if Js.nonEmpty n then videoGeneration_withUserNote n else videoGeneration_base
  | None => videoGeneration_base
  end.

End prompts.

(* ================================================================== *)
(** * utils/imageProcessing.ts *)
(* ================================================================== *)

Module imageProcessing.

Definition DEFAULT_PROCESSING_OPTIONS : ImageProcessingOptions := {|
  maxSizeMB := 4;
  maxWidthOrHeight := 1024;
  useWebWorker := true;
  fileType := Some "image/jpeg";
  quality := Some (9 # 10)
|}.

(** [onload] with a non-empty string resolves, [onload] with anything
    else and [onerror] reject. *)
Definition fileToDataUrl (file : File) : Prog string :=
  r <- call (readFileAsDataURL file) ;;
  match r with
  | inr result =>
      if Js.truthy result then Ret (Js.orElse result "")
      else Throw (ErrorObj "Failed to read file")
  | inl _ => Throw (ErrorObj "File reading error")
  end.

Record Processed : Type := mkProcessed {
  processedFile : File;
  dataUrl : string;
  base64 : option string
}.

Definition processImageForGemini (file : File) (opts : ImageProcessingOptions)
  : Prog Processed :=
  tryCatch
    (compressedFile <- await (imageCompression file opts) ;;
     dataUrl <- fileToDataUrl compressedFile ;;
     Ret {| processedFile := compressedFile;
            dataUrl := dataUrl;
            base64 := Js.splitComma1 dataUrl |})
    (fun _ => Throw (ErrorObj "Failed to process image. Please try a different image.")).

Record Validation : Type := mkValidation {
  isValid : bool;
  error : option string
}.

Definition supportedTypes : list string := ["image/jpeg"; "image/png"; "image/webp"].
Definition maxSize : N := 10 * 1024 * 1024.

Definition validateImageFile (file : File) : Validation :=
  if negb (existsb (String.eqb (file_type file)) supportedTypes) then
    {| isValid := false;
       error := Some "Unsupported file type. Please use JPEG, PNG, or WebP images." |}
  else if (maxSize <? file_size file)%N then
    {| isValid := false;
       error := Some "File is too large. Please use an image under 10MB." |}
  else
    {| isValid := true; error := None |}.

End imageProcessing.

(* ================================================================== *)
(** * services/geminiService.ts *)
(* ================================================================== *)

Module GeminiService.

Record GeminiImageResponse : Type := mkGeminiImageResponse {
  images : list string;
  caption : string
}.

Definition init (providedApiKey : option string) : Prog unit :=
  if negb (Js.truthy providedApiKey) then
    Throw (ErrorObj "API key is required. Please provide your Gemini API key.")
  else put gemini_ai true.

(** [response.candidates?.[0]?.content?.parts || []] *)
Definition partsOf (response : GenerateContentResponse) : list CandidatePart :=
  match response with Some ps => ps | None => [] end.

(** [inline && inline.data && inline.mimeType] *)
Definition hasImage (part : CandidatePart) : bool :=
  match part_inlineData part with
  | Some inline => Js.nonEmpty (data inline) && Js.nonEmpty (mimeType inline)
  | None => false
  end.

(** One turn of [for (const part of parts)]. *)
Definition collectPart (acc : list string * string) (part : CandidatePart)
  : list string * string :=
  let '(images, caption) := acc in
  let caption :=
    if Js.truthy (part_text part)
    then caption ++ Js.orElse (part_text part) "" ++ Js.lf
    else caption in
  let images :=
    match part_inlineData part with
    | Some inline =>
        if hasImage part
        then List.app images ["data:" ++ mimeType inline ++ ";base64," ++ data inline]
        else images
    | None => images
    end in
  (images, caption).

Definition enhanceImage (base64Image : option string) (mimeType : string)
           (userNote : option string) : Prog GeminiImageResponse :=
  ai <- get gemini_ai ;;
  if negb ai then
    Throw (ErrorObj "Gemini service not initialized. Please provide an API key.")
  else
    let instruction := prompts.getEnhancementPrompt userNote in
    tryCatch
      (response <- await (gemini_generateContent "gemini-2.5-flash-image-preview"
                            (Parts [TextPart instruction; InlinePart mimeType base64Image])) ;;
       let parts := partsOf response in
       let '(images, caption) := fold_left collectPart parts ([], "") in
       let '(images, caption) :=
         match images with
         | [] =>
             (List.app images ["data:" ++ mimeType ++ ";base64," ++ Js.show base64Image],
              if Js.nonEmpty caption then caption else "Image processed successfully")
         | _ :: _ => (images, caption)
         end in
       Ret {| images := images; caption := Js.trim caption |})
      (fun error =>
         match error with
         | ErrorObj m =>
             if Js.includes m "quota" then
               Throw (ErrorObj "API quota exceeded. Please check your Gemini API usage limits.")
             else if Js.includes m "safety" then
               Throw (ErrorObj "Image was rejected for safety reasons. Please try a different image.")
             else if Js.includes m "key" then
               Throw (ErrorObj "Invalid API key. Please check your Gemini API key.")
             else Throw (ErrorObj "Failed to enhance image. Please try again.")
         | Thrown _ => Throw (ErrorObj "Failed to enhance image. Please try again.")
         end).

(** [JSON.stringify({error: {code: 400, message, status: 'INVALID_ARGUMENT'}})] *)
Definition invalidArgument (message : string) : string :=
  "{" ++ Js.jsonString "error" ++ ":{" ++ Js.jsonString "code" ++ ":400,"
      ++ Js.jsonString "message" ++ ":" ++ Js.jsonString message ++ ","
      ++ Js.jsonString "status" ++ ":" ++ Js.jsonString "INVALID_ARGUMENT" ++ "}}".

(** [response.candidates?.[0]?.content?.parts?.[0]?.text?.trim() || ''] *)
Definition firstText (response : GenerateContentResponse) : string :=
  match response with
  | Some (p :: _) =>
      match part_text p with
      | Some t => Js.trim t
      | None => ""
      end
  | _ => ""
  end.

Definition generateVideoPromptFromImage (imageDataUrl : string)
           (userNote : option string) : Prog string :=
  ai <- get gemini_ai ;;
  if negb ai then
    Throw (ErrorObj "Gemini service not initialized. Please provide an API key.")
  else
    let prompt := prompts.getVideoPrompt userNote in
    tryCatch
      (img <-
         (if Js.startsWith imageDataUrl "data:" then
            let mimeType := Js.orElse (Js.matchDataBase64 imageDataUrl) "image/jpeg" in
            let base64 := Js.orElse (Js.splitComma1 imageDataUrl) "" in
            if negb (Js.nonEmpty base64) then
              Throw (ErrorObj "Invalid data URL: missing base64 data")
            else Ret (base64, mimeType)
          else if Js.startsWith imageDataUrl "http" then
            response <- await (fetchUrl imageDataUrl) ;;
            if negb (blob_ok response) then
              Throw (ErrorObj ("Failed to fetch image: " ++ Js.showZ (blob_status response)))
            else
              let mimeType := Js.orElse (Some (blob_type (blob response))) "image/jpeg" in
              dataUrl <- await (readBlobAsDataURL (blob response)) ;;
              Ret (Js.orElse (Js.splitComma1 dataUrl) "", mimeType)
          else
            Throw (ErrorObj "Invalid image format: must be either a data URL or HTTP URL")) ;;
       let '(base64, mimeType) := img in
       response <- await (gemini_generateContent "gemini-2.5-flash"
                            (Turn [TextPart prompt; InlinePart mimeType (Some base64)])) ;;
       let text := firstText response in
       if negb (Js.nonEmpty text) then Throw (ErrorObj "No motion prompt was generated")
       else Ret (Js.trim (Js.joinLines (Js.stripQuotes text))))
      (fun error =>
         match error with
         | ErrorObj m =>
             if Js.startsWith m "ApiError:" then Throw error
             else Throw (ErrorObj ("ApiError: " ++ invalidArgument m))
         | Thrown _ => Throw error
         end).

(** [response.candidates?.[0]?.content?.parts?.[0]?.text || ''] *)
Definition firstTextRaw (response : GenerateContentResponse) : string :=
  match response with
  | Some (p :: _) => Js.orElse (part_text p) ""
  | _ => ""
  end.

(** The text-only variant; [userNote] defaults to the empty string. *)
Definition generateMotionPrompt (imageDescription userNote : string) : Prog string :=
  ai <- get gemini_ai ;;
  if negb ai then
    Throw (ErrorObj "Gemini service not initialized. Please provide an API key.")
  else
    let promptTemplate := prompts.getVideoPrompt (Some userNote) in
    tryCatch
      (response <- await (gemini_generateContent "gemini-2.5-flash"
                            (Texts [promptTemplate; imageDescription])) ;;
       let text := firstTextRaw response in
       if negb (Js.nonEmpty (Js.trim text)) then
         Throw (ErrorObj "No motion prompt was generated")
       else Ret (Js.trim (Js.joinLines (Js.stripQuotes (Js.trim text)))))
      (fun err =>
         match err with
         | ErrorObj m =>
             if Js.includes m "quota" then
               Throw (ErrorObj "API quota exceeded. Please check your Gemini API usage limits.")
             else Throw (ErrorObj "Failed to generate motion prompt. Please try again.")
         | Thrown _ => Throw (ErrorObj "Failed to generate motion prompt. Please try again.")
         end).

(** [caption && caption.trim()], then the same for the note. *)
Definition getImageDescription (caption userNote : string) : string :=
  if Js.nonEmpty caption && Js.nonEmpty (Js.trim caption) then Js.trim caption
  else if Js.nonEmpty userNote && Js.nonEmpty (Js.trim userNote) then
    "A meaningful photograph with personal significance: " ++ Js.trim userNote
  else "A meaningful photograph that holds special memories".

End GeminiService.

(* ================================================================== *)
(** * services/replicateService.ts *)
(* ================================================================== *)

Module ReplicateService.

Record Enhanced : Type := mkEnhanced {
  imageUrl : string;
  caption : option string
}.

Definition init (token : string) : Prog unit :=
  put replicate_apiToken (Some token).

Definition enhanceImage (imageDataUrl : string) (userNote : option string)
  : Prog Enhanced :=
  apiToken <- get replicate_apiToken ;;
  if negb (Js.truthy apiToken) then Throw (ErrorObj "Replicate API token not set")
  else
    let prompt := prompts.getEnhancementPrompt userNote in
    tryCatch
      (apiToken <- get replicate_apiToken ;;
       response <- await (replicate_nanoBanana (Js.show apiToken)
                            {| nb_prompt := prompt;
                               image_input := [imageDataUrl];
                               output_format := "png" |}) ;;
       if negb (ok response) then
         Throw (ErrorObj ("Replicate API error: " ++ Js.showZ (status response)))
       else
         result <- parsed response ;;
         match result with
         | OutArray (first :: _) =>
             Ret {| imageUrl := first; caption := Some "Enhanced with AI" |}
         | OutString s =>
             Ret {| imageUrl := s; caption := Some "Enhanced with AI" |}
         | _ => Throw (ErrorObj "No enhanced image in response")
         end)
      (fun error => Throw error).

End ReplicateService.

(* ================================================================== *)
(** * store/memoryStore.ts: the actions that also touch the browser *)
(* ================================================================== *)

Module useMemoryStore.

(** [if (url?.startsWith('blob:')) URL.revokeObjectURL(url)] *)
Definition revokeIfBlob (url : option string) : Prog unit :=
  match url with
  | Some u => when (Js.startsWith u "blob:") (call (URL_revokeObjectURL u))
  | None => Ret tt
  end.

Definition resetWorkflow : Prog unit :=
  state <- get theStore ;;
  revokeIfBlob (originalImageUrl state) ;;
  revokeIfBlob (videoUrl state) ;;
  dispatch (memoryStore.resetWorkflowSet state).

Definition clearMedia : Prog unit :=
  state <- get theStore ;;
  revokeIfBlob (originalImageUrl state) ;;
  revokeIfBlob (videoUrl state) ;;
  dispatch memoryStore.clearMediaSet.

End useMemoryStore.

(* ================================================================== *)
(** * services/veoService.ts *)
(* ================================================================== *)

Module VeoService.

Definition init (apiKey : string) : Prog unit :=
  put veo_apiKey (Some apiKey).

Definition maxPolls : nat := 30.

Definition notify (onProgress : option (string -> Prog unit)) (status : string)
  : Prog unit :=
  match onProgress with
  | Some f => f status
  | None => Ret tt
  end.

(** [while (!currentOperation.done && pollCount < maxPolls)], with
    [remaining = maxPolls - pollCount]. *)
Fixpoint pollLoop (onProgress : option (string -> Prog unit)) (remaining : nat)
         (currentOperation : Operation) : Prog Operation :=
  match remaining with
  | O => Ret currentOperation
  | S r =>
      if done currentOperation then Ret currentOperation
      else
        let pollCount := Z.of_nat (maxPolls - remaining) in
        notify onProgress
          ("Generating video... (" ++ Js.showZ (pollCount * 10) ++ "s elapsed)") ;;
        call (sleep 10000) ;;
        apiKey <- get veo_apiKey ;;
        pollResponse <- await (veo_getOperation (op_name currentOperation)
                                 (Js.show apiKey)) ;;
        next <- (if ok pollResponse then parsed pollResponse
                 else Ret currentOperation) ;;
        pollLoop onProgress r next
  end.

Definition downloadUrl (fileUri : string) (apiKey : option string) : string :=
  if Js.includes fileUri "key=" then fileUri
  else fileUri ++ (if Js.includes fileUri "?" then "&" else "?")
               ++ "key=" ++ Js.encodeURIComponent (Js.orElse apiKey "").

(** What follows the loop, inside the [try]. *)
Definition retrieve (onProgress : option (string -> Prog unit))
           (currentOperation : Operation) : Prog string :=
  if negb (done currentOperation) then
    Throw (ErrorObj "Video generation timed out. Please try again.")
  else
    match video currentOperation with
    | None => Throw (ErrorObj "No video was generated.")
    | Some fileUri =>
        if negb (Js.truthy fileUri) then
          Throw (ErrorObj "No downloadable video URI was returned.")
        else
          apiKey <- get veo_apiKey ;;
          notify onProgress "Downloading video..." ;;
          res <- await (fetchUrl (downloadUrl (Js.orElse fileUri "") apiKey)) ;;
          if negb (blob_ok res) then
            Throw (ErrorObj ("Failed to download video (HTTP "
                             ++ Js.showZ (blob_status res) ++ ")"))
          else
            objectUrl <- call (URL_createObjectURL (blob res)) ;;
            notify onProgress "Video ready!" ;;
            Ret objectUrl
    end.

(** The [catch (error)] block of [generateVideo]. *)
Definition translateError (error : JsError) : Prog string :=
  match error with
  | ErrorObj m =>
      if Js.includes m "quota" then
        Throw (ErrorObj "API quota exceeded. Please check your API usage limits.")
      else if Js.includes m "safety" then
        Throw (ErrorObj "Content was rejected for safety reasons. Please try different content.")
      else Throw error
  | Thrown _ => Throw (ErrorObj "Failed to generate video. Please try again.")
  end.

Definition generateVideo (imageBytes : option string) (prompt : string)
           (onProgress : option (string -> Prog unit)) (mimeType : string)
  : Prog string :=
  apiKey <- get veo_apiKey ;;
  if negb (Js.truthy apiKey) then
    Throw (ErrorObj "VEO service not initialized. Please provide an API key.")
  else
    tryCatch
      (notify onProgress "Starting video generation..." ;;
       apiKey <- get veo_apiKey ;;
       response <- await (veo_predictLongRunning (Js.show apiKey)
                            [ {| veo_prompt := prompt;
                                 bytesBase64Encoded := imageBytes;
                                 veo_mimeType := mimeType |} ]) ;;
       if negb (ok response) then
         Throw (ErrorObj ("ApiError: " ++ text response))
       else
         operation <- parsed response ;;
         currentOperation <- pollLoop onProgress maxPolls operation ;;
         retrieve onProgress currentOperation)
      translateError.

Definition generateVideoWithReplicate (prompt : string) (imageUrl : option string)
           (duration : Z) (resolution aspectRatio : string) : Prog string :=
  token <- call (localStorage_getItem "REPLICATE_API_TOKEN") ;;
  if negb (Js.truthy token) then
    Throw (ErrorObj "Missing Replicate API token. Set REPLICATE_API_TOKEN in localStorage.")
  else
    let body := {| sd_prompt := prompt;
                   duration := duration;
                   resolution := resolution;
                   aspect_ratio := aspectRatio;
                   image := if Js.truthy imageUrl then imageUrl else None;
                   fps := 24;
                   camera_fixed := false |} in
    res <- await (replicate_seedance (Js.orElse token "") body) ;;
    if negb (ok res) then
      Throw (ErrorObj ("Replicate failed (" ++ Js.showZ (status res) ++ "): " ++ text res))
    else
      outputUrl <- parsed res ;;
      if negb (Js.truthy outputUrl) then
        Throw (ErrorObj "Replicate did not return an output URL.")
      else Ret (Js.orElse outputUrl "").

Definition generateVideoSimple (imageDataUrl : string) (prompt : string)
  : Prog string :=
  if Js.startsWith imageDataUrl "data:" then
    let mimeType := Js.orElse (Js.matchDataBase64 imageDataUrl) "image/jpeg" in
    let base64 := Js.splitComma1 imageDataUrl in
    if negb (Js.truthy base64) then
      Throw (ErrorObj "Invalid data URL: missing base64 data")
    else generateVideo base64 prompt None mimeType
  else if Js.startsWith imageDataUrl "http" then
    (* the promise built inside [try] is returned, not awaited: what it
       rejects with is not caught here *)
    fetched <-
      tryCatch
        (response <- await (fetchUrl imageDataUrl) ;;
         if negb (blob_ok response) then
           Throw (ErrorObj ("Failed to fetch image: " ++ Js.showZ (blob_status response)))
         else
           Ret (blob response, Js.orElse (Some (blob_type (blob response))) "image/jpeg"))
        (fun _ => Throw (ErrorObj "Failed to process image URL for video generation")) ;;
    let '(blob, mimeType) := fetched in
    dataUrl <- await (readBlobAsDataURL blob) ;;
    generateVideo (Js.splitComma1 dataUrl) prompt None mimeType
  else
    Throw (ErrorObj "Invalid image format: must be either a data URL or HTTP URL").

End VeoService.

(* ================================================================== *)
(** * components/UploadComponent.tsx *)
(* ================================================================== *)

Module UploadComponent.

Definition setUploadError := put upl_uploadError.
Definition setIsProcessing := put upl_isProcessing.

Definition handleFile (file : File) : Prog unit :=
  setUploadError None ;;
  setIsProcessing true ;;
  tryFinally
    (tryCatch
       (let validation := imageProcessing.validateImageFile file in
        if negb (imageProcessing.isValid validation) then
          setUploadError (Some (Js.orElse (imageProcessing.error validation) "Invalid file"))
        else
          processed <- imageProcessing.processImageForGemini file
                         imageProcessing.DEFAULT_PROCESSING_OPTIONS ;;
          dispatch (memoryStore.setOriginalImage file (imageProcessing.dataUrl processed)))
       (fun err =>
          setUploadError (Some (match err with
                                | ErrorObj m => m
                                | Thrown _ => "Failed to process image."
                                end))))
    (setIsProcessing false).

(** [files] is [e.target.files]; resetting the input's value afterwards
    touches nothing the program reads. *)
Definition onSelect (files : option (list File)) : Prog unit :=
  match files with
  | Some (file :: _) => handleFile file
  | _ => Ret tt
  end.

End UploadComponent.

(* ================================================================== *)
(** * components/EnhanceComponent.tsx *)
(* ================================================================== *)

(** [if (ref.current)] for a timer id. *)
Definition liveTimer (t : option Z) : option Z :=
  match t with
  | Some id => if (id =? 0)%Z then None else Some id
  | None => None
  end.

Module EnhanceComponent.

Definition setIsEnhancing := put enh_isEnhancing.
Definition setEnhanceError := put enh_enhanceError.
Definition setEnhanceProgress := put enh_enhanceProgress.
Definition setImageLoaded := put enh_imageLoaded.

(** [prev => Math.min(prev + 10, 90)] *)
Definition nextEnhanceProgress (prev : Q) : Q := Qmin (prev + 10) 90.

(** The interval callback. *)
Definition progressTick : Prog unit :=
  prev <- get enh_enhanceProgress ;;
  setEnhanceProgress (nextEnhanceProgress prev).

(** The primary provider's call, as both branches make it. *)
Definition enhanceWithGemini (originalImageDataUrl : string)
  : Prog (option string * string) :=
  let base64 := Js.splitComma1 originalImageDataUrl in
  let mimeType := Js.orElse (Js.matchData originalImageDataUrl) "image/jpeg" in
  geminiResult <- GeminiService.enhanceImage base64 mimeType None ;;
  Ret (hd_error (GeminiService.images geminiResult),
       GeminiService.caption geminiResult).

(** The statements before the [try]; the result is [progressInterval]. *)
Definition begin : Prog Z :=
  setIsEnhancing true ;;
  setEnhanceError None ;;
  setEnhanceProgress 0%Q ;;
  call (setInterval EnhanceProgressTick 400).

(** The alternate provider's branch, up to its two assignments. *)
Definition viaReplicate (originalImageDataUrl replicateToken : string)
  : Prog (option string * string) :=
  ReplicateService.init replicateToken ;;
  replicateResult <- ReplicateService.enhanceImage originalImageDataUrl None ;;
  Ret (Some (ReplicateService.imageUrl replicateResult),
       Js.orElse (ReplicateService.caption replicateResult) "Enhanced with AI").

(** The choice of provider: the values of [enhancedImageUrl] and [caption]
    it ends with. *)
Definition enhance (originalImageDataUrl : string) : Prog (option string * string) :=
  replicateToken <- call (localStorage_getItem "REPLICATE_API_TOKEN") ;;
  if Js.truthy replicateToken then
    tryCatch
      (viaReplicate originalImageDataUrl (Js.orElse replicateToken ""))
      (fun replicateError => enhanceWithGemini originalImageDataUrl)
  else enhanceWithGemini originalImageDataUrl.

(** The rest of the [try] block. *)
Definition settle (progressInterval : Z) (result : option string * string) : Prog unit :=
  let '(enhancedImageUrl, caption) := result in
  call (clearInterval progressInterval) ;;
  setEnhanceProgress 100%Q ;;
  if Js.truthy enhancedImageUrl then
    setImageLoaded false ;;
    dispatch (memoryStore.setEnhancedImage (Js.orElse enhancedImageUrl "")
                (Some caption)) ;;
    put enh_hasEnhanced true ;;
    timer <- get enh_autoAdvanceTimer ;;
    match liveTimer timer with
    | Some id => call (clearTimeout id)
    | None => Ret tt
    end ;;
    id <- call (setTimeout (AdvanceTo generate) 3500) ;;
    put enh_autoAdvanceTimer (Some id)
  else Throw (ErrorObj "No enhanced image was generated").

(** The [catch (error)] block. *)
Definition onError (progressInterval : Z) (error : JsError) : Prog unit :=
  call (clearInterval progressInterval) ;;
  setEnhanceProgress 0%Q ;;
  setEnhanceError (Some (match error with
                         | ErrorObj m => m
                         | Thrown _ => "Enhancement failed"
                         end)) ;;
  setIsEnhancing false.

Definition startEnhancement (originalImageDataUrl : option string) : Prog unit :=
  if negb (Js.truthy originalImageDataUrl) then Ret tt
  else
    let originalImageDataUrl := Js.orElse originalImageDataUrl "" in
    progressInterval <- begin ;;
    tryCatch
      (result <- enhance originalImageDataUrl ;;
       settle progressInterval result)
      (onError progressInterval).

(** The mount effect, with the store as it is at mount. *)
Definition onMount : Prog unit :=
  s <- get theStore ;;
  started <- get enh_enhancementStarted ;;
  when (Js.truthy (originalImageDataUrl s)
        && negb (Js.truthy (enhancedImageUrl s))
        && negb started)
    (put enh_enhancementStarted true ;;
     put enh_userNote "" ;;
     dispatch (memoryStore.setUserNote "") ;;
     startEnhancement (originalImageDataUrl s)).

Definition retry (originalImageDataUrl : option string) : Prog unit :=
  startEnhancement originalImageDataUrl.

(** The note field's [onChange], with [value = e.target.value]. *)
Definition onNoteChange (value : string) : Prog unit :=
  put enh_userNote value ;;
  dispatch (memoryStore.setUserNote value) ;;
  hasEnhanced <- get enh_hasEnhanced ;;
  when hasEnhanced
    (timer <- get enh_autoAdvanceTimer ;;
     match liveTimer timer with
     | Some id => call (clearTimeout id)
     | None => Ret tt
     end ;;
     id <- call (setTimeout (AdvanceTo generate) 2000) ;;
     put enh_autoAdvanceTimer (Some id)).

(** The cleanup the mount effect returns. *)
Definition onUnmount : Prog unit :=
  timer <- get enh_autoAdvanceTimer ;;
  match liveTimer timer with
  | Some id => call (clearTimeout id)
  | None => Ret tt
  end.

End EnhanceComponent.

(* ================================================================== *)
(** * components/GenerateComponent.tsx *)
(* ================================================================== *)

Module GenerateComponent.

Definition setIsGenerating := put gen_isGenerating.
Definition setGenerateError := put gen_generateError.
Definition setProgress := put gen_progress.
Definition setStatusMessage := put gen_statusMessage.

(** [if (timerRef.current) window.clearInterval(timerRef.current)] *)
Definition clearTimer : Prog unit :=
  timer <- get gen_timerRef ;;
  match liveTimer timer with
  | Some id => call (clearInterval id)
  | None => Ret tt
  end.

Definition startProgress : Q := 10.
Definition endProgress : Q := 90.
Definition duration_ms : Q := 50000.

Definition Qltb (a b : Q) : bool := negb (Qle_bool b a).

(** [newProgress] of the interval callback, [elapsed] milliseconds after
    the start. *)
Definition newProgress (elapsed : Z) : Q :=
  let percentComplete := Qmin (inject_Z elapsed / duration_ms) 1 in
  let eased :=
    if Qltb percentComplete (1 # 2)
    then 2 * percentComplete * percentComplete
    else 1 - ((-2 * percentComplete + 2) ^ 2) / 2 in
  startProgress + (endProgress - startProgress) * eased.

(** The interval callback. *)
Definition gentleProgressTick (startTime : Z) : Prog unit :=
  now <- call Date_now ;;
  let newProgress := newProgress (now - startTime) in
  setProgress (Qmin 90 newProgress) ;;
  when (Qle_bool 90 newProgress) clearTimer.

Definition startGentleProgress : Prog unit :=
  clearTimer ;;
  startTime <- call Date_now ;;
  id <- call (setInterval (GentleProgressTick startTime) 100) ;;
  put gen_timerRef (Some id).

Definition stopGentleProgress : Prog unit :=
  timer <- get gen_timerRef ;;
  match liveTimer timer with
  | Some id => call (clearInterval id) ;; put gen_timerRef None
  | None => Ret tt
  end.

Definition fallbackPrompt : string :=
  "A gentle, cinematic motion around this cherished memory.".

(** What the three success paths (alternate provider, primary provider,
    fallback) do with the video. *)
Definition finish (url : string) : Prog unit :=
  stopGentleProgress ;;
  setProgress 100%Q ;;
  setStatusMessage "Your memory is ready!" ;;
  dispatch (memoryStore.setVideoUrl url) ;;
  call (setTimeout (AdvanceTo complete) 1200) ;;
  Ret tt.

(** [userNote || undefined] *)
Definition noteArgument (userNote : string) : option string :=
  if Js.nonEmpty userNote then Some userNote else None.

(** [!prompt || prompt.trim().length === 0] *)
Definition noPrompt (prompt : string) : bool :=
  negb (Js.nonEmpty prompt) || (String.length (Js.trim prompt) =? 0)%nat.

(** [if (!prompt || prompt.trim().length === 0) { try ... catch ... }] *)
Definition promptPhase (enhancedImageUrl userNote : string) : Prog unit :=
  current <- get gen_prompt ;;
  when (noPrompt current)
    (tryCatch
       (generated <- GeminiService.generateVideoPromptFromImage enhancedImageUrl
                       (noteArgument userNote) ;;
        put gen_prompt generated ;;
        setStatusMessage "Preparing video generation...")
       (fun promptError => put gen_prompt fallbackPrompt)).

(** The provider choice after the prompt is settled. *)
Definition videoPhase (enhancedImageUrl : string) : Prog unit :=
  replicateToken <- call (localStorage_getItem "REPLICATE_API_TOKEN") ;;
  if Js.truthy replicateToken then
    setStatusMessage "Generating video..." ;;
    prompt <- get gen_prompt ;;
    videoUrl <- VeoService.generateVideoWithReplicate prompt (Some enhancedImageUrl)
                  5 "480p" "16:9" ;;
    finish videoUrl
  else
    veoKey <- call (localStorage_getItem "VEO_API_KEY") ;;
    geminiKey <- (if Js.truthy veoKey then Ret veoKey
                  else call (localStorage_getItem "GEMINI_API_KEY")) ;;
    let veoApiKey := geminiKey in
    if negb (Js.truthy veoApiKey) then
      Throw (ErrorObj "API key not found. Please set your API key.")
    else
      VeoService.init (Js.orElse veoApiKey "") ;;
      setStatusMessage "Generating video..." ;;
      prompt <- get gen_prompt ;;
      videoResult <- VeoService.generateVideoSimple enhancedImageUrl prompt ;;
      finish videoResult.

(** The outer [catch (error)]. *)
Definition onError (enhancedImageUrl : string) (error : JsError) : Prog unit :=
  let message := messageOf error in
  replicateToken <- call (localStorage_getItem "REPLICATE_API_TOKEN") ;;
  if Js.truthy replicateToken && negb (Js.includes message "Replicate") then
    tryCatch
      (prompt <- get gen_prompt ;;
       fallbackUrl <- VeoService.generateVideoWithReplicate prompt (Some enhancedImageUrl)
                        5 "480p" "16:9" ;;
       finish fallbackUrl)
      (fun repErr =>
         stopGentleProgress ;;
         setGenerateError (Some (match repErr with
                                 | ErrorObj m => m
                                 | Thrown _ => "Video generation failed"
                                 end)) ;;
         setIsGenerating false)
  else
    stopGentleProgress ;;
    setGenerateError (Some (if Js.nonEmpty message then message
                            else "Video generation failed")) ;;
    setIsGenerating false.

(** The statements before the [try], [let prompt = motionPrompt] included. *)
Definition begin (motionPrompt : string) : Prog unit :=
  setIsGenerating true ;;
  setGenerateError None ;;
  setProgress 10%Q ;;
  setStatusMessage "Analyzing image for motion..." ;;
  startGentleProgress ;;
  put gen_prompt motionPrompt.

(** [enhancedImageUrl], [motionPrompt] and [userNote] are the store's
    values in the render the function closes over. *)
Definition startGeneration (enhancedImageUrl : option string)
           (motionPrompt userNote : string) : Prog unit :=
  if negb (Js.truthy enhancedImageUrl) then
    setGenerateError (Some "Missing required image for video generation")
  else
    let enhancedImageUrl := Js.orElse enhancedImageUrl "" in
    begin motionPrompt ;;
    tryCatch
      (promptPhase enhancedImageUrl userNote ;;
       videoPhase enhancedImageUrl)
      (onError enhancedImageUrl).

(** The mount effect, with the store as it is at mount. *)
Definition onMount : Prog unit :=
  s <- get theStore ;;
  started <- get gen_generationStarted ;;
  when (negb (Js.truthy (videoUrl s))
        && Js.truthy (enhancedImageUrl s)
        && negb started)
    (put gen_generationStarted true ;;
     if Js.nonEmpty (userNote s) && (0 <? String.length (Js.trim (userNote s)))%nat then
       setStatusMessage "Processing your note..." ;;
       call (setTimeout CallStartGeneration 500) ;;
       Ret tt
     else startGeneration (enhancedImageUrl s) (motionPrompt s) (userNote s)).

Definition retry (enhancedImageUrl : option string) (motionPrompt userNote : string)
  : Prog unit :=
  startGeneration enhancedImageUrl motionPrompt userNote.

End GenerateComponent.

(* ================================================================== *)
(** * components/ApiKeyModal.tsx *)
(* ================================================================== *)

(** The modal's handlers are synchronous and touch only the form's state,
    [localStorage], the store and, through [onClose], App's state: they
    are functions on a record of these. *)
Module ApiKeyModal.

Record Fields : Type := mkFields {
  geminiKey : string;
  replicateToken : string;
  showReplicateSetup : bool;
  validationError : option string
}.

Definition Storage : Type := string -> option string.

Definition setItem (key value : string) (ls : Storage) : Storage :=
fun k => if String.eqb k key then Some value else ls k.

Definition removeItem (key : string) (ls : Storage) : Storage :=
fun k => if String.eqb k key then None else ls k.

(** The page, as far as the key form goes: the form's own state, the
    browser's storage, the store, and App's [showApiKeyModal], which the
    form receives as [isOpen]. *)
Record Page : Type := mkPage {
  fields : Fields;
  localStorage : Storage;
  store : MemoryState;
  showApiKeyModal : bool
}.

Definition setFields (f : Fields) (p : Page) : Page :=
  {| fields := f;
     localStorage := localStorage p;
     store := store p;
     showApiKeyModal := showApiKeyModal p |}.

Definition setStorage (ls : Storage) (p : Page) : Page :=
  {| fields := fields p;
     localStorage := ls;
     store := store p;
     showApiKeyModal := showApiKeyModal p |}.

Definition setValidationError (e : option string) (p : Page) : Page :=
  setFields {| geminiKey := geminiKey (fields p);
               replicateToken := replicateToken (fields p);
               showReplicateSetup := showReplicateSetup (fields p);
               validationError := e |} p.

Definition badGeminiKey : string :=
  "Invalid Gemini API key format. Keys should start with "
  ++ Js.dquote ++ "AIza" ++ Js.dquote.

Definition badReplicateToken : string :=
  "Invalid Replicate token format. Tokens should start with "
  ++ Js.dquote ++ "r8_" ++ Js.dquote.

(** [name] of the store's [persist] options. *)
Definition persistName : string := "moving-memories-store".

Section Persist.

(** The text [persist] writes for the part of the state it keeps,
    [{ apiKey, userNote }]: the JSON of [{ state: { apiKey, userNote },
    version: 0 }]. *)
Variable stringify : option string -> string -> string.

(** An action of the store called from the page: the [set] changes the
    state, and [persist] writes the part it keeps to the storage. *)
Definition storeSet (action : MemoryState -> MemoryState) (p : Page) : Page :=
  let s := action (store p) in
  {| fields := fields p;
     localStorage := setItem persistName (stringify (apiKey s) (userNote s))
                       (localStorage p);
     store := s;
     showApiKeyModal := showApiKeyModal p |}.

(** [onClose] is the prop the form was rendered with. *)
Definition handleSubmit (onClose : Page -> Page) (p : Page) : Page :=
  let geminiKey := geminiKey (fields p) in
  let replicateToken := replicateToken (fields p) in
  if negb (Js.nonEmpty (Js.trim geminiKey)) then
    setValidationError (Some "Please enter your Gemini API key") p
  else if negb (Js.startsWith geminiKey "AIza") then
    setValidationError (Some badGeminiKey) p
  else
    let p := storeSet (memoryStore.setApiKey geminiKey) p in
    let p := setStorage (setItem "GEMINI_API_KEY" geminiKey (localStorage p)) p in
    if Js.nonEmpty (Js.trim replicateToken) && negb (Js.startsWith replicateToken "r8_") then
      setValidationError (Some badReplicateToken) p
    else
      let p :=
        if Js.nonEmpty (Js.trim replicateToken)
        then setStorage (setItem "REPLICATE_API_TOKEN" replicateToken (localStorage p)) p
        else p in
      onClose (setFields {| geminiKey := "";
                            replicateToken := "";
                            showReplicateSetup := false;
                            validationError := validationError (fields p) |} p).

Definition handleClearKeys (p : Page) : Page :=
  let p := storeSet memoryStore.clearApiKey p in
  let p := setStorage (removeItem "GEMINI_API_KEY" (localStorage p)) p in
  let p := setStorage (removeItem "REPLICATE_API_TOKEN" (localStorage p)) p in
  setFields {| geminiKey := "";
               replicateToken := "";
               showReplicateSetup := false;
               validationError := None |} p.

End Persist.

(** [a || b || ''] on nullable strings. *)
Definition firstTruthy (a b : option string) : string :=
  if Js.truthy a then Js.orElse a "" else Js.orElse b "".

(** The body of the effect, for [isOpen] true. *)
Definition onOpen (p : Page) : Page :=
  let existingGeminiKey :=
    firstTruthy (apiKey (store p)) (localStorage p "GEMINI_API_KEY") in
  let existingReplicateToken := Js.orElse (localStorage p "REPLICATE_API_TOKEN") "" in
  setFields {| geminiKey := existingGeminiKey;
               replicateToken := existingReplicateToken;
               showReplicateSetup :=
                 if Js.nonEmpty existingReplicateToken then true
                 else showReplicateSetup (fields p);
               validationError := validationError (fields p) |} p.

(** The effect on [[isOpen, apiKey]]. *)
Definition openEffect (p : Page) : Page :=
  if showApiKeyModal p then onOpen p else p.

End ApiKeyModal.

(* ================================================================== *)
(** * App.tsx *)
(* ================================================================== *)

Module App.

Import ApiKeyModal.

Definition displayStep (currentStep : ProcessingStep) : ProcessingStep :=
  match currentStep with
  | prompt => generate
  | step => step
  end.

(** [!apiKey || apiKey.trim() === ''] *)
Definition requiresApiKey (apiKey : option string) : bool :=
  match apiKey with
  | None => true
  | Some k => negb (Js.nonEmpty k) || String.eqb (Js.trim k) ""
  end.

(** [requiresApiKey] as a render of the page computes it. *)
Definition needsKey (p : Page) : bool := requiresApiKey (apiKey (store p)).

Definition setShowApiKeyModal (b : bool) (p : Page) : Page :=
  {| fields := fields p;
     localStorage := localStorage p;
     store := store p;
     showApiKeyModal := b |}.

(** [() => !requiresApiKey && setShowApiKeyModal(false)]: the closure
    keeps the [requiresApiKey] of the render that built it. *)
Definition onClose (requiresApiKey : bool) (p : Page) : Page :=
  if requiresApiKey then p else setShowApiKeyModal false p.

(** The effect on [[requiresApiKey]], with [requiresApiKey] as the render
    computed it. *)
Definition keyEffect (requiresApiKey : bool) (p : Page) : Page :=
  if requiresApiKey then setShowApiKeyModal true p else p.

(** Whether a dependency that is the store's key is the same value in two
    renders. *)
Definition sameKey (a b : option string) : bool :=
  match a, b with
  | Some x, Some y => String.eqb x y
  | None, None => true
  | _, _ => false
  end.

(** The effects of the render that follows a change of the page: [before]
    is the page at the previous render, [p] the page now.  The form's
    effect runs when [isOpen] or [apiKey] is another value than at the
    previous render, App's when [requiresApiKey] is. *)
Definition effects (before p : Page) : Page :=
  let p1 :=
    if Bool.eqb (showApiKeyModal before) (showApiKeyModal p)
       && sameKey (apiKey (store before)) (apiKey (store p))
    then p else openEffect p in
  if Bool.eqb (needsKey before) (needsKey p) then p1
  else keyEffect (needsKey p) p1.

(** The renders after a handler has changed the page from [before] to
    [p]: the effects of the first may change the page once more, those of
    the second change nothing that an effect depends on. *)
Definition settle (before p : Page) : Page :=
  effects p (effects before p).

(** The user submits the form, or presses its button that clears the
    keys, on the page as last rendered. *)
Definition submit (stringify : option string -> string -> string) (p : Page) : Page :=
  settle p (handleSubmit stringify (onClose (needsKey p)) p).

Definition clearKeys (stringify : option string -> string -> string) (p : Page) : Page :=
  settle p (handleClearKeys stringify p).

(** The header's button: [() => setShowApiKeyModal(true)]. *)
Definition openKeyForm (p : Page) : Page :=
  settle p (setShowApiKeyModal true p).

End App.

(* ================================================================== *)
(** * Reading responses and traces *)
(* ================================================================== *)

(** [part.text] is there and not empty. *)
Definition hasText (part : CandidatePart) : bool := Js.truthy (part_text part).

(** The value written, when the event is a write of the generation
    component's progress. *)
Definition progressWrite (ev : Ev) : option Q :=
  match ev with
  | @Wrote X c v =>
      match c in Cell X return X -> option Q with
      | gen_progress => fun v => Some v
      | _ => fun _ => None
      end v
  | Called _ _ => None
  end.

(** The same for the enhancement component. *)
Definition enhanceProgressWrite (ev : Ev) : option Q :=
  match ev with
  | @Wrote X c v =>
      match c in Cell X return X -> option Q with
      | enh_enhanceProgress => fun v => Some v
      | _ => fun _ => None
      end v
  | Called _ _ => None
  end.

(** The message, when the event shows an error to the user in the
    generation component: [setGenerateError(message)]. *)
Definition surfacedError (ev : Ev) : option string :=
  match ev with
  | @Wrote X c v =>
      match c in Cell X return X -> option string with
      | gen_generateError => fun v => v
      | _ => fun _ => None
      end v
  | Called _ _ => None
  end.

(** The same for the enhancement component: [setEnhanceError(message)]. *)
Definition enhanceError (ev : Ev) : option string :=
  match ev with
  | @Wrote X c v =>
      match c in Cell X return X -> option string with
      | enh_enhanceError => fun v => v
      | _ => fun _ => None
      end v
  | Called _ _ => None
  end.

Definition isStoreWrite (ev : Ev) : bool :=
  match ev with
  | @Wrote X c v => match c with theStore => true | _ => false end
  | Called _ _ => false
  end.

(** Any use of the primary video provider: a request to it, or the
    initialisation of its client. *)
Definition touchesVeo (ev : Ev) : bool :=
  match ev with
  | @Called X e _ =>
      match e with
      | veo_predictLongRunning _ _ => true
      | veo_getOperation _ _ => true
      | _ => false
      end
  | @Wrote X c _ => match c with veo_apiKey => true | _ => false end
  end.

(** The input of a request to the alternate video provider. *)
Definition seedanceInput (ev : Ev) : option SeedanceInput :=
  match ev with
  | @Called X e _ =>
      match e with
      | replicate_seedance _ input => Some input
      | _ => None
      end
  | Wrote _ _ => None
  end.

(** A request to the alternate image provider. *)
Definition isNanoBanana (ev : Ev) : bool :=
  match ev with
  | @Called X e _ =>
      match e with
      | replicate_nanoBanana _ _ => true
      | _ => false
      end
  | Wrote _ _ => false
  end.

Fixpoint pick {B : Type} (f : Ev -> option B) (t : list Ev) : list B :=
  match t with
  | [] => []
  | ev :: rest =>
      match f ev with
      | Some b => b :: pick f rest
      | None => pick f rest
      end
  end.

Definition fixedParams (input : SeedanceInput) : Prop :=
  duration input = 5%Z /\ resolution input = "480p" /\ aspect_ratio input = "16:9".

(** What a request is, as far as the polling discipline goes. *)
Inductive Kind : Type :=
| KPredict
| KSleep (ms : Z)
| KPoll
| KOther.

Definition kind (ev : Ev) : Kind :=
  match ev with
  | @Called X e _ =>
      match e with
      | veo_predictLongRunning _ _ => KPredict
      | veo_getOperation _ _ => KPoll
      | sleep ms => KSleep ms
      | _ => KOther
      end
  | Wrote _ _ => KOther
  end.

Definition isPoll (ev : Ev) : bool :=
  match kind ev with KPoll => true | _ => false end.

(** [n] rounds of waiting ten seconds and asking once. *)
Fixpoint rounds (n : nat) : list Kind :=
  match n with
  | O => []
  | S m => KSleep 10000 :: KPoll :: rounds m
  end.

(** The network requests a run can make, by kind. *)
Inductive Req : Type :=
| RGemini          (* generateContent *)
| RVeoStart        (* predictLongRunning *)
| RVeoPoll         (* the operation's status *)
| RSeedance        (* the alternate video model *)
| RNanoBanana      (* the alternate image model *)
| RFetch.          (* a plain fetch of a URL *)

Definition Req_eqb (a b : Req) : bool :=
  match a, b with
  | RGemini, RGemini => true
  | RVeoStart, RVeoStart => true
  | RVeoPoll, RVeoPoll => true
  | RSeedance, RSeedance => true
  | RNanoBanana, RNanoBanana => true
  | RFetch, RFetch => true
  | _, _ => false
  end.

Definition request (ev : Ev) : option Req :=
  match ev with
  | @Called X e _ =>
      match e with
      | gemini_generateContent _ _ => Some RGemini
      | veo_predictLongRunning _ _ => Some RVeoStart
      | veo_getOperation _ _ => Some RVeoPoll
      | replicate_seedance _ _ => Some RSeedance
      | replicate_nanoBanana _ _ => Some RNanoBanana
      | fetchUrl _ => Some RFetch
      | _ => None
      end
  | Wrote _ _ => None
  end.

Definition isRequest (r : Req) (ev : Ev) : bool :=
  match request ev with
  | Some r' => Req_eqb r r'
  | None => false
  end.

(** How many requests of kind [r] the trace holds. *)
Definition requests (r : Req) (t : list Ev) : nat := length (filter (isRequest r) t).

(** The event is a write of the cell [c]. *)
Definition writesCell {X : Type} (c : Cell X) (ev : Ev) : bool :=
  match ev with
  | @Wrote Y d _ => Js.isSome (sameCell d c)
  | Called _ _ => false
  end.

(** The event is a request, or a write of one of the clients' own fields. *)
Definition serviceEvent (ev : Ev) : bool :=
  match ev with
  | Called _ _ => true
  | @Wrote X c _ =>
      match c with
      | veo_apiKey => true
      | gemini_ai => true
      | replicate_apiToken => true
      | _ => false
      end
  end.

(** The callback and the delay, when the event arms a one-shot timer. *)
Definition timerSet (ev : Ev) : option (TimerAction * Z) :=
  match ev with
  | @Called X e _ =>
      match e with
      | setTimeout cb ms => Some (cb, ms)
      | _ => None
      end
  | Wrote _ _ => None
  end.

(** The id, when the event cancels a one-shot timer. *)
Definition timerCleared (ev : Ev) : option Z :=
  match ev with
  | @Called X e _ =>
      match e with
      | clearTimeout id => Some id
      | _ => None
      end
  | Wrote _ _ => None
  end.

(** The URL, when the event releases an object URL. *)
Definition revoked (ev : Ev) : option string :=
  match ev with
  | @Called X e _ =>
      match e with
      | URL_revokeObjectURL u => Some u
      | _ => None
      end
  | Wrote _ _ => None
  end.

(** The id the browser gave, when the event starts a repeating timer. *)
Definition intervalSet (ev : Ev) : option Z :=
  match ev with
  | @Called X e x =>
      match e in Ext X return X -> option Z with
      | setInterval _ _ => fun id => Some id
      | _ => fun _ => None
      end x
  | Wrote _ _ => None
  end.

(** The id, when the event stops a repeating timer. *)
Definition intervalCleared (ev : Ev) : option Z :=
  match ev with
  | @Called X e _ =>
      match e with
      | clearInterval id => Some id
      | _ => None
      end
  | Wrote _ _ => None
  end.

(** The ids [if (timerRef.current)] lets through. *)
Definition running (t : option Z) : list Z :=
  match liveTimer t with
  | Some id => [id]
  | None => []
  end.

(** The character [c] occurs in [s]. *)
Fixpoint occurs (c : ascii) (s : string) : bool :=
  match s with
  | EmptyString => false
  | String d t => Ascii.eqb d c || occurs c t
  end.

(* ================================================================== *)
(** * Properties of programs, events and runs *)
(* ================================================================== *)

(** [Safe R P p]: whatever the surroundings answer within [R], and
    whatever the cells hold, every event of [p] satisfies [P]. *)
Fixpoint Safe (R : forall X : Type, Ext X -> X -> Prop) (P : Ev -> Prop)
         {A : Type} (p : Prog A) : Prop :=
  match p with
  | Ret _ => True
  | Throw _ => True
  | Call e k => forall x, R _ e x -> P (Called e x) /\ Safe R P (k x)
  | Get c k => forall x, Safe R P (k x)
  | Put c v k => P (Wrote c v) /\ Safe R P k
  end.

(** [NoThrow p]: no run of [p] ends in an exception. *)
Fixpoint NoThrow {A : Type} (p : Prog A) : Prop :=
  match p with
  | Ret _ => True
  | Throw _ => False
  | Call e k => forall x, NoThrow (k x)
  | Get c k => forall x, NoThrow (k x)
  | Put c v k => NoThrow k
  end.

(** No assumption on the surroundings. *)
Definition anyAnswer : forall X : Type, Ext X -> X -> Prop := fun _ _ _ => True.

(** The alternate credential is there whenever it is read. *)
Definition tokenPresent : forall X : Type, Ext X -> X -> Prop :=
fun X e =>
  match e in Ext X return X -> Prop with
  | localStorage_getItem key =>
      fun x => key = "REPLICATE_API_TOKEN" -> Js.truthy x = true
  | _ => fun _ => True
  end.

(** The event shows nothing to the user and leaves the store alone. *)
Definition quiet (ev : Ev) : Prop :=
  progressWrite ev = None /\ enhanceProgressWrite ev = None /\
  surfacedError ev = None /\ enhanceError ev = None /\ isStoreWrite ev = false.

(** The event stays away from the primary video provider, and if it is a
    request to the alternate one it has the fixed parameters. *)
Definition offVeo (ev : Ev) : Prop :=
  touchesVeo ev = false /\
  forall input, seedanceInput ev = Some input -> fixedParams input.

Definition unsurfaced (ev : Ev) : Prop := surfacedError ev = None.

(** No error has been shown in the enhancement component. *)
Definition beforeFailure (ev : Ev) : Prop := enhanceError ev = None.


(** The remote operation never reports done: every poll is answered, and
    what an answer with an OK status carries is an operation still running. *)
Definition NeverDone (env : Env) : Prop :=
  forall h name key,
    exists r, env _ h (veo_getOperation name key) = inr r /\
              (ok r = true -> exists op, json r = inr op /\ done op = false).

(** No answer to a status request reports the operation done; a request
    may as well stay without an answer. *)
Definition NeverReportsDone (env : Env) : Prop :=
  forall h name key r op,
    env _ h (veo_getOperation name key) = inr r ->
    json r = inr op -> done op = false.

Definition inRange (q : Q) : Prop := (0 <= q /\ q <= 100)%Q.

(** The number is finite and lies in [0, 100]. *)
Definition percentage (n : Js.Number) : Prop :=
  match n with
  | Js.Finite q => inRange q
  | _ => False
  end.

(** The action hands [NaN] to [setProgress]. *)
Definition setsNaN (a : memoryStore.Action) : bool :=
  match a with
  | memoryStore.SetProgress Js.NaN => true
  | _ => false
  end.


(** A video is in the store. *)
Definition Completed (w : World) : Prop :=
  exists v, videoUrl (read theStore w) = Some v.

(** A part of the step either ends well, having shown 100 once and stored
    a video, or throws, having shown no progress. *)
Definition PhaseOk (env : Env) (q : Prog unit) (w : World) : Prop :=
  (outcome env q w = inr tt /\
   pick progressWrite (trace env q w) = [100%Q] /\
   Completed (after env q w)) \/
  (exists e, outcome env q w = inl e /\ pick progressWrite (trace env q w) = []).


(** [Ends Q E p]: whatever the answers and the cells, a value [p] returns
    satisfies [Q] and an error it throws satisfies [E]. *)
Fixpoint Ends {A : Type} (Q : A -> Prop) (E : JsError -> Prop) (p : Prog A) : Prop :=
  match p with
  | Ret a => Q a
  | Throw e => E e
  | Call e k => forall x, Ends Q E (k x)
  | Get c k => forall x, Ends Q E (k x)
  | Put c v k => Ends Q E k
  end.

(** The thrown value is an [Error] whose message is one of [messages]. *)
Definition oneOf (messages : list string) (e : JsError) : Prop :=
  exists m, e = ErrorObj m /\ In m messages.

(** The store action is one of the two that are meant to change the key. *)
Definition changesKey (a : memoryStore.Action) : bool :=
  match a with
  | memoryStore.SetApiKey _ => true
  | memoryStore.ClearApiKey => true
  | _ => false
  end.

(** What a provider client may do: requests, and writes of its own fields. *)
Definition ownEvent (ev : Ev) : Prop := serviceEvent ev = true.

(** The event leaves the cell [c] alone. *)
Definition keeps {X : Type} (c : Cell X) (ev : Ev) : Prop := writesCell c ev = false.

(** The two ways the generation step can end, by what the run [t] showed
    and what it made of the store [s]: a video with a non-empty URL is
    stored and no error was shown, or one error was shown and the store is
    as it was. *)
Definition stored (t : list Ev) (s s' : MemoryState) : Prop :=
  pick surfacedError t = [] /\
  exists u, Js.nonEmpty u = true /\ s' = memoryStore.setVideoUrl u s.

Definition failed (t : list Ev) (s s' : MemoryState) : Prop :=
  exists m, pick surfacedError t = [m] /\ s' = s.

(** The event starts no repeating timer, stops none and leaves the
    generation component's [timerRef] alone. *)
Definition still (ev : Ev) : Prop :=
  intervalSet ev = None /\ intervalCleared ev = None /\
  writesCell gen_timerRef ev = false.

(** [releases env p]: a run of [p] starts no repeating timer; when it
    returns it has stopped the one [timerRef] named, if any, and no other,
    and [timerRef] names none any more; when it throws it has stopped none
    and [timerRef] is as it was. *)
Definition releases (env : Env) {A : Type} (p : Prog A) : Prop :=
  forall w,
    pick intervalSet (trace env p w) = [] /\
    match outcome env p w with
    | inr _ =>
        pick intervalCleared (trace env p w) = running (read gen_timerRef w) /\
        running (read gen_timerRef (after env p w)) = []
    | inl _ =>
        pick intervalCleared (trace env p w) = [] /\
        read gen_timerRef (after env p w) = read gen_timerRef w
    end.

(** A budget of requests, by kind. *)
Definition Budget : Type := Req -> nat.

Definition budget (gemini veoStart veoPoll seedance nanoBanana fetches : nat) : Budget :=
fun r =>
  match r with
  | RGemini => gemini
  | RVeoStart => veoStart
  | RVeoPoll => veoPoll
  | RSeedance => seedance
  | RNanoBanana => nanoBanana
  | RFetch => fetches
  end.

Definition spend (b : Budget) (r : Req) : Budget :=
fun r' => if Req_eqb r r' then pred (b r') else b r'.

(** [Within b p]: whatever the answers and the cells, [p] makes no more
    requests of each kind than [b] allows. *)
Fixpoint Within (b : Budget) {A : Type} (p : Prog A) : Prop :=
  match p with
  | Ret _ => True
  | Throw _ => True
  | Call e k =>
      forall x,
        match request (Called e x) with
        | Some r => b r <> O /\ Within (spend b r) (k x)
        | None => Within b (k x)
        end
  | Get c k => forall x, Within b (k x)
  | Put c v k => Within b k
  end.

(* ================================================================== *)
(** * Sample surroundings *)
(* ================================================================== *)

(** No network, no stored credential: every request that can fail does. *)
Definition offline : Env :=
fun X _ e =>
  match e in Ext X return X with
  | localStorage_getItem _ => None
  | Date_now => 0%Z
  | setTimeout _ _ => 1%Z
  | clearTimeout _ => tt
  | setInterval _ _ => 1%Z
  | clearInterval _ => tt
  | sleep _ => tt
  | URL_createObjectURL _ => "blob:local"
  | URL_revokeObjectURL _ => tt
  | fetchUrl _ => inl (ErrorObj "Failed to fetch")
  | readBlobAsDataURL _ => inl (Thrown "[object ProgressEvent]")
  | readFileAsDataURL _ => inl (Thrown "[object ProgressEvent]")
  | imageCompression _ _ => inl (ErrorObj "Failed to fetch")
  | gemini_generateContent _ _ => inl (ErrorObj "Failed to fetch")
  | veo_predictLongRunning _ _ => inl (ErrorObj "Failed to fetch")
  | veo_getOperation _ _ => inl (ErrorObj "Failed to fetch")
  | replicate_seedance _ _ => inl (ErrorObj "Failed to fetch")
  | replicate_nanoBanana _ _ => inl (ErrorObj "Failed to fetch")
  end.

(** Providers that answer as scripted; the alternate credential may depend
    on what has happened so far. *)
Record Script : Type := mkScript {
  replicateTokenAt : list Ev -> option string;
  geminiKey : option string;
  geminiAnswer : JsError + GenerateContentResponse;
  veoStart : JsError + Response Operation;
  veoPoll : JsError + Response Operation;
  seedanceAnswer : JsError + Response (option string);
  nanoBananaAnswer : JsError + Response ReplicateOutput
}.

Definition scripted (s : Script) : Env :=
fun X h e =>
  match e in Ext X return X with
  | localStorage_getItem key =>
      if (key =? "REPLICATE_API_TOKEN")%string then replicateTokenAt s h
      else if (key =? "GEMINI_API_KEY")%string then geminiKey s
      else None
  | gemini_generateContent _ _ => geminiAnswer s
  | veo_predictLongRunning _ _ => veoStart s
  | veo_getOperation _ _ => veoPoll s
  | replicate_seedance _ _ => seedanceAnswer s
  | replicate_nanoBanana _ _ => nanoBananaAnswer s
  | e' => offline _ h e'
  end.

Definition pendingOperation : Operation :=
  {| op_name := "operations/veo-1"; done := false; video := None |}.

Definition okResponse {J : Type} (j : J) : Response J :=
  {| ok := true; status := 200; text := ""; json := inr j |}.

Definition failedResponse {J : Type} (code : Z) (body : string) : Response J :=
  {| ok := false; status := code; text := body; json := inl (ErrorObj "Unexpected token") |}.

(** The primary provider replies with one part that has neither text nor
    image; no alternate credential. *)
Definition emptyReply : Script := {|
  replicateTokenAt := fun _ => None;
  geminiKey := Some "AIzaSyExample";
  geminiAnswer := inr (Some [mkPart None None]);
  veoStart := inl (ErrorObj "Failed to fetch");
  veoPoll := inl (ErrorObj "Failed to fetch");
  seedanceAnswer := inl (ErrorObj "Failed to fetch");
  nanoBananaAnswer := inl (ErrorObj "Failed to fetch")
|}.

(** A stored alternate credential, a text provider that describes a
    motion, an alternate provider that delivers. *)
Definition replicateReady : Script := {|
  replicateTokenAt := fun _ => Some "r8_example";
  geminiKey := Some "AIzaSyExample";
  geminiAnswer := inr (Some [mkPart (Some "The leaves sway gently.") None]);
  veoStart := inl (ErrorObj "Failed to fetch");
  veoPoll := inl (ErrorObj "Failed to fetch");
  seedanceAnswer := inr (okResponse (Some "https://replicate.delivery/out.mp4"));
  nanoBananaAnswer := inr (okResponse (OutArray ["https://replicate.delivery/out.png"]))
|}.


(** A stored alternate credential, an alternate image provider that
    answers with a server error, a primary provider that returns an image. *)
Definition alternateDown : Script := {|
  replicateTokenAt := fun _ => Some "r8_example";
  geminiKey := Some "AIzaSyExample";
  geminiAnswer :=
    inr (Some [mkPart None (Some {| mimeType := "image/png"; data := "iVBORw0KGgo" |})]);
  veoStart := inl (ErrorObj "Failed to fetch");
  veoPoll := inl (ErrorObj "Failed to fetch");
  seedanceAnswer := inl (ErrorObj "Failed to fetch");
  nanoBananaAnswer := inr (failedResponse 500 "Internal Server Error")
|}.

(** A stored alternate credential and an alternate video model that
    answers with a server error. *)
Definition seedanceDown : Script := {|
  replicateTokenAt := fun _ => Some "r8_example";
  geminiKey := Some "AIzaSyExample";
  geminiAnswer := inr (Some [mkPart (Some "The leaves sway gently.") None]);
  veoStart := inl (ErrorObj "Failed to fetch");
  veoPoll := inl (ErrorObj "Failed to fetch");
  seedanceAnswer := inr (failedResponse 500 "Internal Server Error");
  nanoBananaAnswer := inl (ErrorObj "Failed to fetch")
|}.

(** A stored alternate credential and an alternate image model whose
    prediction has an empty string as output. *)
Definition alternateEmpty : Script := {|
  replicateTokenAt := fun _ => Some "r8_example";
  geminiKey := Some "AIzaSyExample";
  geminiAnswer :=
    inr (Some [mkPart None (Some {| mimeType := "image/png"; data := "iVBORw0KGgo" |})]);
  veoStart := inl (ErrorObj "Failed to fetch");
  veoPoll := inl (ErrorObj "Failed to fetch");
  seedanceAnswer := inl (ErrorObj "Failed to fetch");
  nanoBananaAnswer := inr (okResponse (OutString ""))
|}.

(** A primary video provider whose operation is done at once and holds
    no video; no alternate credential. *)
Definition doneWithoutVideo : Script := {|
  replicateTokenAt := fun _ => None;
  geminiKey := Some "AIzaSyExample";
  geminiAnswer := inr (Some [mkPart (Some "The leaves sway gently.") None]);
  veoStart := inr (okResponse {| op_name := "operations/veo-2"; done := true;
                                 video := None |});
  veoPoll := inl (ErrorObj "Failed to fetch");
  seedanceAnswer := inl (ErrorObj "Failed to fetch");
  nanoBananaAnswer := inl (ErrorObj "Failed to fetch")
|}.

(** A primary video provider that accepts the job and never finishes it;
    the alternate credential is stored only once the primary provider has
    been asked. *)
Definition neverDone : Script := {|
  replicateTokenAt := fun h => if existsb touchesVeo h then Some "r8_example" else None;
  geminiKey := Some "AIzaSyExample";
  geminiAnswer := inr (Some [mkPart (Some "The leaves sway gently.") None]);
  veoStart := inr (okResponse pendingOperation);
  veoPoll := inr (okResponse pendingOperation);
  seedanceAnswer := inr (okResponse (Some "https://replicate.delivery/out.mp4"));
  nanoBananaAnswer := inl (ErrorObj "Failed to fetch")
|}.

(** A primary video provider that accepts the job and then cannot be
    reached; no alternate credential. *)
Definition pollRejected : Script := {|
  replicateTokenAt := fun _ => None;
  geminiKey := Some "AIzaSyExample";
  geminiAnswer := inr (Some [mkPart (Some "The leaves sway gently.") None]);
  veoStart := inr (okResponse pendingOperation);
  veoPoll := inl (ErrorObj "Failed to fetch");
  seedanceAnswer := inl (ErrorObj "Failed to fetch");
  nanoBananaAnswer := inl (ErrorObj "Failed to fetch")
|}.

(** The same primary video provider, and no alternate credential at all. *)
Definition pendingForever : Script := {|
  replicateTokenAt := fun _ => None;
  geminiKey := Some "AIzaSyExample";
  geminiAnswer := inr (Some [mkPart (Some "The leaves sway gently.") None]);
  veoStart := inr (okResponse pendingOperation);
  veoPoll := inr (okResponse pendingOperation);
  seedanceAnswer := inl (ErrorObj "Failed to fetch");
  nanoBananaAnswer := inl (ErrorObj "Failed to fetch")
|}.

(** The key form, open, as the user has filled it, on a page that has
    nothing stored yet. *)
Definition filledForm (key token : string) : ApiKeyModal.Page := {|
  ApiKeyModal.fields := {| ApiKeyModal.geminiKey := key;
                           ApiKeyModal.replicateToken := token;
                           ApiKeyModal.showReplicateSetup := false;
                           ApiKeyModal.validationError := None |};
  ApiKeyModal.localStorage := fun _ => None;
  ApiKeyModal.store := memoryStore.initialState;
  ApiKeyModal.showApiKeyModal := true
|}.

(** The same on a page that already holds a key. *)
Definition keyedForm (key token : string) : ApiKeyModal.Page := {|
  ApiKeyModal.fields := {| ApiKeyModal.geminiKey := key;
                           ApiKeyModal.replicateToken := token;
                           ApiKeyModal.showReplicateSetup := false;
                           ApiKeyModal.validationError := None |};
  ApiKeyModal.localStorage :=
    ApiKeyModal.setItem "GEMINI_API_KEY" "AIzaSyFirst" (fun _ => None);
  ApiKeyModal.store := memoryStore.setApiKey "AIzaSyFirst" memoryStore.initialState;
  ApiKeyModal.showApiKeyModal := true
|}.

(** The JSON of [{ state: { apiKey, userNote }, version: 0 }], for a key
    and a note without a character that JSON escapes. *)
Definition plainJson (apiKey : option string) (userNote : string) : string :=
  "{" ++ Js.dquote ++ "state" ++ Js.dquote ++ ":{"
  ++ Js.dquote ++ "apiKey" ++ Js.dquote ++ ":"
  ++ match apiKey with
     | Some k => Js.dquote ++ k ++ Js.dquote
     | None => "null"
     end
  ++ "," ++ Js.dquote ++ "userNote" ++ Js.dquote ++ ":"
  ++ Js.dquote ++ userNote ++ Js.dquote
  ++ "}," ++ Js.dquote ++ "version" ++ Js.dquote ++ ":0}".

(* ================================================================== *)
(** * Runs and traces: general facts *)
(* ================================================================== *)

Section RunFacts.

Variable env : Env.

Lemma run_split {A} (p : Prog A) w : run env p w = (after env p w, outcome env p w).
Proof. unfold after, outcome. destruct (run env p w); reflexivity. Qed.

Lemma run_log {A} (p : Prog A) : forall w,
  log (after env p w) = (log w ++ trace env p w)%list.
Proof.
  unfold after.
  induction p as [a | e | X e k IH | X c k IH | X c v k IH]; intros w; cbn.
  - now rewrite app_nil_r.
  - now rewrite app_nil_r.
  - rewrite IH. cbn. now rewrite <- app_assoc.
  - apply IH.
  - rewrite IH. cbn. now rewrite <- app_assoc.
Qed.

Lemma run_bind {A B} (p : Prog A) (f : A -> Prog B) : forall w,
  run env (bind p f) w =
  match outcome env p w with
  | inr a => run env (f a) (after env p w)
  | inl e => (after env p w, inl e)
  end.
Proof.
  unfold after, outcome.
  induction p as [a | e | X e k IH | X c k IH | X c v k IH]; intros w; cbn;
    try reflexivity; auto.
Qed.

Lemma run_tryCatch {A} (p : Prog A) (h : JsError -> Prog A) : forall w,
  run env (tryCatch p h) w =
  match outcome env p w with
  | inr a => (after env p w, inr a)
  | inl e => run env (h e) (after env p w)
  end.
Proof.
  unfold after, outcome.
  induction p as [a | e | X e k IH | X c k IH | X c v k IH]; intros w; cbn;
    try reflexivity; auto.
Qed.

Lemma run_tryFinally {A} (p : Prog A) (f : Prog unit) : forall w,
  run env (tryFinally p f) w =
  match outcome env p w with
  | inr a => run env (bind f (fun _ => Ret a)) (after env p w)
  | inl e => run env (bind f (fun _ => Throw e)) (after env p w)
  end.
Proof.
  unfold after, outcome.
  induction p as [a | e | X e k IH | X c k IH | X c v k IH]; intros w; cbn;
    try reflexivity; auto.
Qed.

Lemma trace_bind {A B} (p : Prog A) (f : A -> Prog B) : forall w,
  trace env (bind p f) w =
  (trace env p w ++
   match outcome env p w with
   | inr a => trace env (f a) (after env p w)
   | inl _ => []
   end)%list.
Proof.
  unfold after, outcome.
  induction p as [a | e | X e k IH | X c k IH | X c v k IH]; intros w; cbn;
    try reflexivity; auto; now rewrite IH.
Qed.

Lemma trace_tryCatch {A} (p : Prog A) (h : JsError -> Prog A) : forall w,
  trace env (tryCatch p h) w =
  (trace env p w ++
   match outcome env p w with
   | inr _ => []
   | inl e => trace env (h e) (after env p w)
   end)%list.
Proof.
  unfold after, outcome.
  induction p as [a | e | X e k IH | X c k IH | X c v k IH]; intros w; cbn;
    try reflexivity; auto; now rewrite IH.
Qed.

Lemma outcome_bind {A B} (p : Prog A) (f : A -> Prog B) w :
  outcome env (bind p f) w =
  match outcome env p w with
  | inr a => outcome env (f a) (after env p w)
  | inl e => inl e
  end.
Proof.
  unfold outcome at 1. rewrite run_bind.
  destruct (outcome env p w); reflexivity.
Qed.

Lemma after_bind {A B} (p : Prog A) (f : A -> Prog B) w :
  after env (bind p f) w =
  match outcome env p w with
  | inr a => after env (f a) (after env p w)
  | inl e => after env p w
  end.
Proof.
  unfold after at 1. rewrite run_bind.
  destruct (outcome env p w); reflexivity.
Qed.

Lemma outcome_tryCatch {A} (p : Prog A) (h : JsError -> Prog A) w :
  outcome env (tryCatch p h) w =
  match outcome env p w with
  | inr a => inr a
  | inl e => outcome env (h e) (after env p w)
  end.
Proof.
  unfold outcome at 1. rewrite run_tryCatch.
  destruct (outcome env p w); reflexivity.
Qed.

Lemma after_tryCatch {A} (p : Prog A) (h : JsError -> Prog A) w :
  after env (tryCatch p h) w =
  match outcome env p w with
  | inr a => after env p w
  | inl e => after env (h e) (after env p w)
  end.
Proof.
  unfold after at 1. rewrite run_tryCatch.
  destruct (outcome env p w); reflexivity.
Qed.

End RunFacts.

(** ** Safety under assumptions on the surroundings *)

Section Safety.

(** What the surroundings are assumed to answer. *)
Variable R : forall X : Type, Ext X -> X -> Prop.
(** What every event of the run has to satisfy. *)
Variable P : Ev -> Prop.

Lemma Safe_bind {A B} (p : Prog A) (f : A -> Prog B) :
  Safe R P p -> (forall a, Safe R P (f a)) -> Safe R P (bind p f).
Proof.
  induction p as [a | e | X e k IH | X c k IH | X c v k IH]; cbn; intros Hp Hf; auto.
  - intros x Hx. destruct (Hp x Hx). split; auto.
  - destruct Hp. split; auto.
Qed.

Lemma Safe_tryCatch {A} (p : Prog A) (h : JsError -> Prog A) :
  Safe R P p -> (forall e, Safe R P (h e)) -> Safe R P (tryCatch p h).
Proof.
  induction p as [a | e | X e k IH | X c k IH | X c v k IH]; cbn; intros Hp Hh; auto.
  - intros x Hx. destruct (Hp x Hx). split; auto.
  - destruct Hp. split; auto.
Qed.

Lemma Safe_tryFinally {A} (p : Prog A) (f : Prog unit) :
  Safe R P p -> Safe R P f -> Safe R P (tryFinally p f).
Proof.
  induction p as [a | e | X e k IH | X c k IH | X c v k IH]; cbn; intros Hp Hf; auto.
  - apply Safe_bind; cbn; auto.
  - apply Safe_bind; cbn; auto.
  - intros x Hx. destruct (Hp x Hx). split; auto.
  - destruct Hp. split; auto.
Qed.

Lemma Safe_sound (env : Env) (Henv : forall X h (e : Ext X), R X e (env X h e))
      {A} (p : Prog A) :
  Safe R P p -> forall w, Forall P (trace env p w).
Proof.
  induction p as [a | e | X e k IH | X c k IH | X c v k IH]; cbn; intros Hp w;
    try constructor.
  - apply (Hp _ (Henv _ _ _)).
  - apply IH. apply (Hp _ (Henv _ _ _)).
  - apply IH, Hp.
  - apply Hp.
  - apply IH, Hp.
Qed.

End Safety.

Arguments Js.startsWith : simpl never.
Arguments Js.includes : simpl never.
Arguments Js.trim : simpl never.
Arguments Js.splitComma1 : simpl never.
Arguments Js.matchData : simpl never.
Arguments Js.matchDataBase64 : simpl never.
Arguments Js.showZ : simpl never.
Arguments Js.encodeURIComponent : simpl never.
Arguments String.append : simpl never.

(** The string primitives on sample inputs. *)
Example Js_samples :
  Js.includes "Replicate failed (500): busy" "Replicate" = true /\
  Js.includes "Video generation timed out. Please try again." "Replicate" = false /\
  Js.startsWith "blob:http://localhost/1f" "blob:" = true /\
  Js.splitComma1 "data:image/png;base64,iVBORw0KGgo" = Some "iVBORw0KGgo" /\
  Js.splitComma1 "https://example.org/a.png" = None /\
  Js.matchData "data:image/png;base64,iVBORw0KGgo" = Some "image/png" /\
  Js.matchDataBase64 "DATA:image/webp;BASE64,UklGR" = Some "image/webp" /\
  Js.matchDataBase64 "data:;base64,UklGR" = None /\
  Js.trim ("  a b " ++ Js.lf) = "a b" /\
  Js.stripQuotes (Js.dquote ++ "The leaves sway." ++ Js.squote) = "The leaves sway." /\
  Js.joinLines ("a" ++ Js.lf ++ Js.lf ++ "b" ++ Js.lf) = "a b " /\
  Js.encodeURIComponent "AIza key&1" = "AIza%20key%261" /\
  Js.jsonEscape ("a" ++ Js.dquote ++ "b" ++ Js.lf) = "a\" ++ Js.dquote ++ "b\n" /\
  Js.showZ 500 = "500".
Proof. repeat split; vm_compute; reflexivity. Qed.

(* ================================================================== *)
(** * The workflow store *)
(* ================================================================== *)

Section StoreFacts.

Import memoryStore.

Lemma truthy_spec (x : option string) :
  Js.truthy x = true <-> exists u, x = Some u /\ u <> "".
Proof.
  destruct x as [[|c u]|]; cbn; split; intros H; try discriminate.
  - destruct H as (u & Hu & Hne). inversion Hu; subst. now elim Hne.
  - eexists; split; [reflexivity | discriminate].
  - reflexivity.
  - destruct H as (u & Hu & _). discriminate.
Qed.

Lemma orElse_some (s d : string) : Js.nonEmpty s = true -> Js.orElse (Some s) d = s.
Proof. intros H. unfold Js.orElse. cbn [Js.truthy]. now rewrite H. Qed.

Lemma nonEmpty_spec (s : string) : Js.nonEmpty s = true <-> s <> "".
Proof.
  destruct s; cbn; split; intros H; try discriminate; try reflexivity.
  now elim H.
Qed.

(** C6, as the code has it: a step's predicate holds exactly when the
    artifact the code looks at is there: always for [upload], the original
    file for [enhance], a non-empty enhanced image URL for [prompt], a
    non-empty motion prompt for [generate], a non-empty video URL for
    [complete]. *)
Theorem canProceedToStep_spec (step : ProcessingStep) (s : MemoryState) :
  canProceedToStep step s = true <->
  match step with
  | upload => True
  | enhance => originalImage s <> None
  | prompt => exists u, enhancedImageUrl s = Some u /\ u <> ""
  | generate => motionPrompt s <> ""
  | complete => exists u, videoUrl s = Some u /\ u <> ""
  end.
Proof.
  destruct step; cbn.
  - tauto.
  - destruct (originalImage s); cbn; split; intros H; try discriminate; auto.
  - apply truthy_spec.
  - apply nonEmpty_spec.
  - apply truthy_spec.
Qed.

(** C6, as the claim has it, fails: after [setMotionPrompt] on the initial
    state the store holds no image of any kind, and [generate] is
    enterable all the same. *)
Lemma canProceedToStep_generate_without_image :
  let s := setMotionPrompt "pan left" initialState in
  canProceedToStep generate s = true /\
  originalImage s = None /\
  originalImageUrl s = None /\
  originalImageDataUrl s = None /\
  enhancedImageUrl s = None.
Proof. cbn. repeat split. Qed.

(** With both images stored and no motion prompt, [generate] is not
    enterable. *)
Example canProceedToStep_generate_with_image :
  canProceedToStep generate
    (setEnhancedImage "data:image/png;base64,AAAA" (Some "Enhanced with AI")
       (setOriginalImage (mkFile "a.png" "image/png" 10) "data:image/png;base64,AAAA"
          initialState)) = false.
Proof. reflexivity. Qed.

Lemma dispatch_run (env : Env) (f : MemoryState -> MemoryState) (w : World) :
  run env (dispatch f) w =
  (record (Wrote theStore (f (read theStore w)))
          (write theStore (f (read theStore w)) w), inr tt).
Proof. reflexivity. Qed.

(** C10: [setOriginalImage] stores the new image and clears what was
    derived from the previous one, leaves the other fields alone, and a
    component's call of it is one write of the store. *)
Theorem setOriginalImage_clears_downstream
        (env : Env) (w : World) (file : File) (url : string) :
  let s := read theStore w in
  let s' := setOriginalImage file url s in
  (originalImage s' = Some file /\
   originalImageUrl s' = Some url /\
   originalImageDataUrl s' = Some url /\
   enhancedImageUrl s' = None /\
   enhancedImageCaption s' = None /\
   videoUrl s' = None /\
   motionPrompt s' = "" /\
   userNote s' = "" /\
   error s' = None /\
   currentStep s' = enhance) /\
  (isProcessing s' = isProcessing s /\
   progress s' = progress s /\
   apiKey s' = apiKey s /\
   processingStartTime s' = processingStartTime s /\
   estimatedTimeRemaining s' = estimatedTimeRemaining s) /\
  trace env (dispatch (setOriginalImage file url)) w = [Wrote theStore s'] /\
  read theStore (after env (dispatch (setOriginalImage file url)) w) = s'.
Proof.
  cbn zeta. destruct (read theStore w) eqn:Hs.
  unfold after. rewrite dispatch_run. cbn. rewrite Hs. cbn.
  repeat split.
Qed.

Lemma revokeIfBlob_run (env : Env) (url : option string) (w : World) :
  outcome env (useMemoryStore.revokeIfBlob url) w = inr tt /\
  cells (after env (useMemoryStore.revokeIfBlob url) w) = cells w /\
  trace env (useMemoryStore.revokeIfBlob url) w =
    match url with
    | Some u => if Js.startsWith u "blob:" then [Called (URL_revokeObjectURL u) tt] else []
    | None => []
    end.
Proof.
  unfold outcome, after, useMemoryStore.revokeIfBlob.
  destruct url as [u|]; cbn; auto.
  destruct (Js.startsWith u "blob:"); cbn; auto.
  destruct (env unit (log w) (URL_revokeObjectURL u)). auto.
Qed.

(** C8: [resetWorkflow] returns, puts every workflow field back to its
    initial value, keeps [apiKey], and revokes [originalImageUrl] and
    [videoUrl] when they are [blob:] URLs. *)
Theorem resetWorkflow_spec (env : Env) (w : World) :
  let s := read theStore w in
  let s' := read theStore (after env useMemoryStore.resetWorkflow w) in
  outcome env useMemoryStore.resetWorkflow w = inr tt /\
  (currentStep s' = upload /\
   originalImage s' = None /\
   originalImageUrl s' = None /\
   originalImageDataUrl s' = None /\
   enhancedImageUrl s' = None /\
   enhancedImageCaption s' = None /\
   videoUrl s' = None /\
   userNote s' = "" /\
   motionPrompt s' = "" /\
   isProcessing s' = false /\
   progress s' = 0%Q /\
   error s' = None /\
   processingStartTime s' = None /\
   estimatedTimeRemaining s' = None) /\
  apiKey s' = apiKey s /\
  (forall u, originalImageUrl s = Some u -> Js.startsWith u "blob:" = true ->
             In (Called (URL_revokeObjectURL u) tt)
                (trace env useMemoryStore.resetWorkflow w)) /\
  (forall u, videoUrl s = Some u -> Js.startsWith u "blob:" = true ->
             In (Called (URL_revokeObjectURL u) tt)
                (trace env useMemoryStore.resetWorkflow w)).
Proof.
  cbn zeta.
  unfold outcome, after, read, useMemoryStore.resetWorkflow,
    useMemoryStore.revokeIfBlob, dispatch, get, put, call, when.
  cbn [bind run trace fst snd]. unfold read.
  destruct (cells w MemoryState theStore) as [st oi oiu oid eiu eic vu un mp ip pr er ak pst etr] eqn:Hs.
  cbn [originalImageUrl videoUrl apiKey].
  destruct oiu as [u|], vu as [v|];
    repeat match goal with
           | |- context [Js.startsWith ?x ?p] => destruct (Js.startsWith x p) eqn:?
           end;
    cbn; unfold read; rewrite ?Hs; cbn;
    repeat match goal with
           | |- context [env unit ?h ?e] => destruct (env unit h e)
           end;
    repeat split; try reflexivity;
    intros u0 Hu Hb; inversion Hu; subst; try congruence; cbn; auto.
Qed.

(** C8 and C10 on a run: an upload, then a reset with a [blob:] video URL
    in the store. *)
Example reset_after_upload :
  let file := mkFile "cat.png" "image/png" 2048 in
  let uploaded := setOriginalImage file "data:image/jpeg;base64,/9j/4AAQ"
                    (setApiKey " AIzaSyExample " initialState) in
  let finished := setVideoUrl "blob:http://localhost/1f" uploaded in
  currentStep uploaded = enhance /\
  apiKey uploaded = Some "AIzaSyExample" /\
  trace offline useMemoryStore.resetWorkflow (write theStore finished freshWorld)
    = [ Called (URL_revokeObjectURL "blob:http://localhost/1f") tt;
        Wrote theStore (setApiKey "AIzaSyExample" initialState) ].
Proof. repeat split. Qed.

End StoreFacts.

(* ================================================================== *)
(** * Upload: validation *)
(* ================================================================== *)

Section UploadFacts.

Import imageProcessing.





End UploadFacts.

(* ================================================================== *)
(** * The primary provider's enhancement *)
(* ================================================================== *)

Section GeminiFacts.

Import GeminiService.

Lemma collect_no_image (parts : list CandidatePart) :
  (forall p, In p parts -> hasImage p = false) ->
  forall imgs cap, fst (fold_left collectPart parts (imgs, cap)) = imgs.
Proof.
  induction parts as [|p parts IH]; intros H imgs cap; [reflexivity|].
  cbn [fold_left]. unfold collectPart at 2.
  rewrite (H p (or_introl eq_refl)).
  destruct (part_inlineData p); apply IH; intros q Hq; apply H; now right.
Qed.

Lemma collect_no_text (parts : list CandidatePart) :
  (forall p, In p parts -> hasText p = false) ->
  forall imgs cap, snd (fold_left collectPart parts (imgs, cap)) = cap.
Proof.
  induction parts as [|p parts IH]; intros H imgs cap; [reflexivity|].
  cbn [fold_left]. unfold collectPart at 2.
  pose proof (H p (or_introl eq_refl)) as Hp. unfold hasText in Hp. rewrite Hp.
  apply IH; intros q Hq; apply H; now right.
Qed.

(** C4: when the client is initialised and the response has no part with
    an inline image (inline data with a payload and a mime type),
    [enhanceImage] returns, its only image is the data URL of the input,
    and when no part has a text the caption is the generic one. *)
Theorem enhanceImage_soft_success
        (env : Env) (w : World) (base64Image : option string) (mimeType : string)
        (userNote : option string) (response : GenerateContentResponse) :
  read gemini_ai w = true ->
  env _ (log w)
      (gemini_generateContent "gemini-2.5-flash-image-preview"
         (Parts [TextPart (prompts.getEnhancementPrompt userNote);
                 InlinePart mimeType base64Image])) = inr response ->
  (forall p, In p (partsOf response) -> hasImage p = false) ->
  exists caption,
    outcome env (enhanceImage base64Image mimeType userNote) w =
      inr {| images := ["data:" ++ mimeType ++ ";base64," ++ Js.show base64Image];
             caption := caption |} /\
    ((forall p, In p (partsOf response) -> hasText p = false) ->
     caption = "Image processed successfully").
Proof.
  intros Hai Hresp Hnoimg.
  unfold outcome, enhanceImage, get, await.
  cbn [bind run tryCatch]. rewrite Hai. cbn [negb bind run tryCatch].
  rewrite Hresp. cbn [bind run tryCatch].
  pose proof (collect_no_image _ Hnoimg [] "") as Himgs.
  pose proof (fun H => collect_no_text (partsOf response) H [] "") as Hcap.
  destruct (fold_left collectPart (partsOf response) ([], "")) as [imgs cap].
  cbn [fst snd] in *. subst imgs. cbn [List.app].
  eexists. split.
  - cbn. reflexivity.
  - intros Hnotext. rewrite (Hcap Hnotext). reflexivity.
Qed.

(** C4 on a response made of one empty part, for a JPEG. *)
Lemma enhanceImage_soft_success_witness :
  exists caption,
    outcome (scripted emptyReply)
            (enhanceImage (Some "/9j/4AAQ") "image/jpeg" None)
            (write gemini_ai true freshWorld) =
      inr {| images := ["data:image/jpeg;base64,/9j/4AAQ"]; caption := caption |} /\
    ((forall p, In p [mkPart None None] -> hasText p = false) ->
     caption = "Image processed successfully").
Proof.
  apply (enhanceImage_soft_success (scripted emptyReply)
           (write gemini_ai true freshWorld) (Some "/9j/4AAQ") "image/jpeg" None
           (Some [mkPart None None])).
  - reflexivity.
  - reflexivity.
  - intros p [<- | []]. reflexivity.
Defined.

End GeminiFacts.

(* ================================================================== *)
(** * What each function may do: events of its runs *)
(* ================================================================== *)

Lemma Safe_weaken (R R' : forall X : Type, Ext X -> X -> Prop) (P P' : Ev -> Prop)
      {A} (p : Prog A) :
  (forall X e x, R' X e x -> R X e x) ->
  (forall ev, P ev -> P' ev) ->
  Safe R P p -> Safe R' P' p.
Proof.
  intros HR HP.
  induction p as [a | e | X e k IH | X c k IH | X c v k IH]; cbn; auto.
  - intros H x Hx. destruct (H x (HR _ _ _ Hx)). split; auto.
  - intros [H1 H2]. split; auto.
Qed.

Lemma quiet_unsurfaced ev : quiet ev -> unsurfaced ev.
Proof. intros (_ & _ & H & _). exact H. Qed.

Create HintDb safe.

Ltac safe_unfold :=
  unfold dispatch, VeoService.notify, when, await, parsed, call, get, put.

Ltac safe_event :=
  match goal with
  | |- quiet _ => cbn; repeat split
  | |- unsurfaced _ => reflexivity
  | |- offVeo _ =>
      split; [reflexivity | cbn; intros ? [= <-]; repeat split
             || (cbn; intros ? ?; discriminate)]
  end.

Ltac safe_step :=
  match goal with
  | |- True => exact I
  | H : tokenPresent _ _ _ |- _ =>
      cbn in H; first [specialize (H eq_refl); rewrite ?H | clear H]
  | |- quiet _ => safe_event
  | |- unsurfaced _ => safe_event
  | |- offVeo _ => safe_event
  | |- _ /\ _ => split
  | |- forall _, _ => intro
  | |- Safe _ _ (bind (match ?x with _ => _ end) _) => destruct x
  | |- Safe _ _ (tryCatch (match ?x with _ => _ end) _) => destruct x
  | |- Safe _ _ (match ?x with _ => _ end) => destruct x
  | |- Safe _ _ _ => progress cbn [Safe bind tryCatch tryFinally]
  | |- Safe _ _ (bind _ _) => apply Safe_bind; [ | intro]
  | |- Safe _ _ (tryCatch _ _) => apply Safe_tryCatch; [ | intro]
  | |- Safe _ _ (tryFinally _ _) => apply Safe_tryFinally
  | |- Safe _ _ _ => solve [eauto with safe]
  end.

Ltac safe := safe_unfold; repeat safe_step.

Section Footprints.

Import GenerateComponent.

Variables (R : forall X : Type, Ext X -> X -> Prop).

Lemma generateVideoPromptFromImage_quiet url note :
  Safe R quiet (GeminiService.generateVideoPromptFromImage url note).
Proof. unfold GeminiService.generateVideoPromptFromImage. safe. Qed.

Lemma generateVideoPromptFromImage_offVeo url note :
  Safe R offVeo (GeminiService.generateVideoPromptFromImage url note).
Proof. unfold GeminiService.generateVideoPromptFromImage. safe. Qed.

Lemma gemini_enhanceImage_quiet b m n :
  Safe R quiet (GeminiService.enhanceImage b m n).
Proof. unfold GeminiService.enhanceImage. safe. Qed.

Lemma replicate_enhanceImage_quiet url note :
  Safe R quiet (ReplicateService.enhanceImage url note).
Proof. unfold ReplicateService.enhanceImage. safe. Qed.

Lemma generateVideoWithReplicate_quiet p img d r a :
  Safe R quiet (VeoService.generateVideoWithReplicate p img d r a).
Proof. unfold VeoService.generateVideoWithReplicate. safe. Qed.

Lemma generateVideoWithReplicate_offVeo p img :
  Safe R offVeo (VeoService.generateVideoWithReplicate p img 5 "480p" "16:9").
Proof. unfold VeoService.generateVideoWithReplicate. safe. Qed.

Lemma pollLoop_quiet n : forall op, Safe R quiet (VeoService.pollLoop None n op).
Proof.
  induction n as [|n IH]; intros op; cbn [VeoService.pollLoop]; [exact I|].
  destruct (done op); [exact I|].
  safe. all: apply IH.
Qed.

Lemma generateVideo_quiet b p m : Safe R quiet (VeoService.generateVideo b p None m).
Proof.
  unfold VeoService.generateVideo, VeoService.retrieve, VeoService.translateError. safe.
  all: try (apply pollLoop_quiet).
Qed.

Lemma generateVideoSimple_quiet url p : Safe R quiet (VeoService.generateVideoSimple url p).
Proof.
  unfold VeoService.generateVideoSimple. safe.
  all: apply generateVideo_quiet.
Qed.

Lemma promptPhase_quiet url note : Safe R quiet (promptPhase url note).
Proof.
  unfold promptPhase, setStatusMessage. safe.
  apply generateVideoPromptFromImage_quiet.
Qed.

Lemma promptPhase_offVeo url note : Safe R offVeo (promptPhase url note).
Proof.
  unfold promptPhase, setStatusMessage. safe.
  apply generateVideoPromptFromImage_offVeo.
Qed.

Lemma stopGentleProgress_offVeo : Safe R offVeo stopGentleProgress.
Proof. unfold stopGentleProgress. safe. Qed.

Lemma stopGentleProgress_unsurfaced : Safe R unsurfaced stopGentleProgress.
Proof. unfold stopGentleProgress. safe. Qed.

Lemma finish_offVeo url : Safe R offVeo (finish url).
Proof.
  unfold finish, setProgress, setStatusMessage. safe.
  apply stopGentleProgress_offVeo.
Qed.

Lemma finish_unsurfaced url : Safe R unsurfaced (finish url).
Proof.
  unfold finish, setProgress, setStatusMessage. safe.
  apply stopGentleProgress_unsurfaced.
Qed.

Lemma begin_offVeo p : Safe R offVeo (begin p).
Proof.
  unfold begin, startGentleProgress, clearTimer, setIsGenerating, setGenerateError,
    setProgress, setStatusMessage. safe.
Qed.

Lemma begin_unsurfaced p : Safe R unsurfaced (begin p).
Proof.
  unfold begin, startGentleProgress, clearTimer, setIsGenerating, setGenerateError,
    setProgress, setStatusMessage. safe.
Qed.

Lemma videoPhase_unsurfaced url : Safe R unsurfaced (videoPhase url).
Proof.
  unfold videoPhase, setStatusMessage, VeoService.init. safe.
  all: first [ apply finish_unsurfaced
             | eapply Safe_weaken;
               [ | apply quiet_unsurfaced
                 | first [ apply generateVideoWithReplicate_quiet
                         | apply generateVideoSimple_quiet ] ]; auto ].
Qed.

Lemma promptPhase_unsurfaced url note : Safe R unsurfaced (promptPhase url note).
Proof.
  eapply Safe_weaken; [ | apply quiet_unsurfaced | apply promptPhase_quiet ]. auto.
Qed.

Lemma enhanceWithGemini_quiet url : Safe R quiet (EnhanceComponent.enhanceWithGemini url).
Proof.
  unfold EnhanceComponent.enhanceWithGemini. safe. apply gemini_enhanceImage_quiet.
Qed.

Lemma viaReplicate_quiet url tok : Safe R quiet (EnhanceComponent.viaReplicate url tok).
Proof.
  unfold EnhanceComponent.viaReplicate, ReplicateService.init. safe.
  apply replicate_enhanceImage_quiet.
Qed.

Lemma enhance_quiet url : Safe R quiet (EnhanceComponent.enhance url).
Proof.
  unfold EnhanceComponent.enhance. safe.
  all: first [apply viaReplicate_quiet | apply enhanceWithGemini_quiet].
Qed.

End Footprints.

(** With the alternate credential there, the whole generation step stays
    away from the primary provider. *)
Lemma videoPhase_offVeo url : Safe tokenPresent offVeo (GenerateComponent.videoPhase url).
Proof.
  unfold GenerateComponent.videoPhase, GenerateComponent.setStatusMessage. safe.
  - apply generateVideoWithReplicate_offVeo.
  - apply finish_offVeo.
Qed.

Lemma onError_offVeo url e : Safe tokenPresent offVeo (GenerateComponent.onError url e).
Proof.
  unfold GenerateComponent.onError, GenerateComponent.setGenerateError,
    GenerateComponent.setIsGenerating. safe.
  all: first [ apply generateVideoWithReplicate_offVeo
             | apply finish_offVeo
             | apply stopGentleProgress_offVeo ].
Qed.

Lemma startGeneration_offVeo img mp note :
  Safe tokenPresent offVeo (GenerateComponent.startGeneration img mp note).
Proof.
  unfold GenerateComponent.startGeneration, GenerateComponent.setGenerateError. safe.
  - apply begin_offVeo.
  - apply promptPhase_offVeo.
  - apply videoPhase_offVeo.
  - apply onError_offVeo.
Qed.

(** ** Programs that cannot throw *)

Lemma NoThrow_bind {A B} (p : Prog A) (f : A -> Prog B) :
  NoThrow p -> (forall a, NoThrow (f a)) -> NoThrow (bind p f).
Proof.
  induction p as [a | e | X e k IH | X c k IH | X c v k IH]; cbn; intros Hp Hf;
    try contradiction; auto.
Qed.

Lemma NoThrow_tryCatch {A} (p : Prog A) (h : JsError -> Prog A) :
  (forall e, NoThrow (h e)) -> NoThrow (tryCatch p h).
Proof.
  induction p as [a | e | X e k IH | X c k IH | X c v k IH]; cbn; intros Hh; auto.
Qed.

Lemma NoThrow_sound (env : Env) {A} (p : Prog A) :
  NoThrow p -> forall w, exists a, outcome env p w = inr a.
Proof.
  unfold outcome.
  induction p as [a | e | X e k IH | X c k IH | X c v k IH]; cbn; intros Hp w;
    try contradiction; eauto.
Qed.

Lemma NoThrow_unit (env : Env) (p : Prog unit) :
  NoThrow p -> forall w, outcome env p w = inr tt.
Proof.
  intros Hp w. destruct (NoThrow_sound env p Hp w) as ([] & H). exact H.
Qed.

Ltac total_step :=
  match goal with
  | |- True => exact I
  | |- forall _, _ => intro
  | |- NoThrow (bind (match ?x with _ => _ end) _) => destruct x
  | |- NoThrow (match ?x with _ => _ end) => destruct x
  | |- NoThrow _ => progress cbn [NoThrow bind tryCatch]
  | |- NoThrow (tryCatch _ _) => apply NoThrow_tryCatch; intro
  | |- NoThrow (bind _ _) => apply NoThrow_bind; [ | intro]
  end.

Ltac total := safe_unfold; repeat total_step.

Section Totality.

Import GenerateComponent.

Lemma stopGentleProgress_total : NoThrow stopGentleProgress.
Proof. unfold stopGentleProgress. total. Qed.

Lemma finish_total url : NoThrow (finish url).
Proof.
  unfold finish, setProgress, setStatusMessage. total. apply stopGentleProgress_total.
Qed.

Lemma begin_total p : NoThrow (begin p).
Proof.
  unfold begin, startGentleProgress, clearTimer, setIsGenerating, setGenerateError,
    setProgress, setStatusMessage. total.
Qed.

Lemma promptPhase_total url note : NoThrow (promptPhase url note).
Proof. unfold promptPhase. total. Qed.

Lemma onError_total url e : NoThrow (onError url e).
Proof.
  unfold onError, setGenerateError, setIsGenerating. total.
  all: apply stopGentleProgress_total.
Qed.

(** No error escapes the generation step. *)
Lemma startGeneration_total img mp note : NoThrow (startGeneration img mp note).
Proof.
  unfold startGeneration, setGenerateError. total.
  - apply begin_total.
  - apply onError_total.
Qed.

Lemma enhance_begin_total : NoThrow EnhanceComponent.begin.
Proof.
  unfold EnhanceComponent.begin, EnhanceComponent.setIsEnhancing,
    EnhanceComponent.setEnhanceError, EnhanceComponent.setEnhanceProgress. total.
Qed.

Lemma enhance_onError_total pi e : NoThrow (EnhanceComponent.onError pi e).
Proof.
  unfold EnhanceComponent.onError, EnhanceComponent.setIsEnhancing,
    EnhanceComponent.setEnhanceError, EnhanceComponent.setEnhanceProgress. total.
Qed.

End Totality.

(** ** Lists of picked values *)

Lemma pick_app {B} (f : Ev -> option B) (t u : list Ev) :
  pick f (t ++ u)%list = (pick f t ++ pick f u)%list.
Proof.
  induction t as [|ev t IH]; cbn; [reflexivity|].
  destruct (f ev); cbn; now rewrite IH.
Qed.

Lemma pick_Forall {B} (f : Ev -> option B) (Q : B -> Prop) (t : list Ev) :
  Forall (fun ev => forall b, f ev = Some b -> Q b) t -> Forall Q (pick f t).
Proof.
  induction 1 as [|ev t H _ IH]; cbn; [constructor|].
  destruct (f ev) eqn:E; auto.
Qed.

Lemma pick_nil {B} (f : Ev -> option B) (t : list Ev) :
  Forall (fun ev => f ev = None) t -> pick f t = [].
Proof.
  induction 1 as [|ev t H _ IH]; cbn; [reflexivity|]. now rewrite H.
Qed.

Lemma filter_nil (f : Ev -> bool) (t : list Ev) :
  Forall (fun ev => f ev = false) t -> filter f t = [].
Proof.
  induction 1 as [|ev t H _ IH]; cbn; [reflexivity|]. now rewrite H.
Qed.

(* ================================================================== *)
(** * Generation: the alternate provider used directly *)
(* ================================================================== *)

Section ReplicateDirect.

Import GenerateComponent.

Variable env : Env.
Variable tok : string.
Hypothesis tok_nonEmpty : Js.nonEmpty tok = true.
Hypothesis token_there :
  forall h, env _ h (localStorage_getItem "REPLICATE_API_TOKEN") = Some tok.

Lemma env_tokenPresent : forall X h (e : Ext X), tokenPresent X e (env X h e).
Proof.
  intros X h e. destruct e; cbn; auto.
  intros ->. rewrite token_there. exact tok_nonEmpty.
Qed.

Lemma videoPhase_requests (url : string) (w : World) :
  Js.nonEmpty url = true ->
  exists input, In input (pick seedanceInput (trace env (videoPhase url) w)) /\
                image input = Some url /\ sd_prompt input = read gen_prompt w.
Proof.
  intros Hurl.
  unfold videoPhase, VeoService.generateVideoWithReplicate, setStatusMessage.
  safe_unfold. cbn [bind trace]. rewrite token_there. cbn [Js.truthy].
  rewrite tok_nonEmpty. cbn [bind trace]. rewrite token_there. cbn [Js.truthy negb].
  rewrite tok_nonEmpty. cbn [negb bind trace pick seedanceInput].
  eexists. split; [left; reflexivity|]. cbn. rewrite Hurl. split; reflexivity.
Qed.

End ReplicateDirect.

(** C1: when every read of the alternate credential finds a non-empty
    token, a run of the generation step neither requests anything from
    the primary video provider nor initialises its client; every request
    to the alternate one has duration 5, resolution 480p and aspect ratio
    16:9; and when there is an image, such a request is made, for that
    image. *)
Theorem replicate_used_directly
        (env : Env) (w : World) (tok : string)
        (enhancedImageUrl : option string) (motionPrompt userNote : string) :
  Js.nonEmpty tok = true ->
  (forall h, env _ h (localStorage_getItem "REPLICATE_API_TOKEN") = Some tok) ->
  let t := trace env (GenerateComponent.startGeneration enhancedImageUrl
                        motionPrompt userNote) w in
  filter touchesVeo t = [] /\
  Forall fixedParams (pick seedanceInput t) /\
  (Js.truthy enhancedImageUrl = true ->
   exists input, In input (pick seedanceInput t) /\
                 image input = enhancedImageUrl).
Proof.
  intros Htok Henv t.
  assert (Hall : Forall offVeo t).
  { apply (Safe_sound tokenPresent offVeo env (env_tokenPresent env tok Htok Henv)).
    apply startGeneration_offVeo. }
  split; [|split].
  - apply filter_nil. revert Hall. apply Forall_impl. now intros ev [H _].
  - apply pick_Forall. revert Hall. apply Forall_impl. now intros ev [_ H].
  - intros Himg. subst t. unfold GenerateComponent.startGeneration.
    rewrite Himg. cbn [negb].
    destruct enhancedImageUrl as [url|]; [|discriminate].
    assert (Hor : Js.orElse (Some url) "" = url).
    { unfold Js.orElse. now rewrite Himg. }
    rewrite Hor.
    rewrite trace_bind, (NoThrow_unit env _ (begin_total motionPrompt)).
    rewrite trace_tryCatch, trace_bind,
      (NoThrow_unit env _ (promptPhase_total url userNote)).
    rewrite !pick_app.
    destruct (videoPhase_requests env tok Htok Henv url
                (after env (GenerateComponent.promptPhase url userNote)
                   (after env (GenerateComponent.begin motionPrompt) w)) Himg)
      as (input & Hin & Himage & _).
    exists input. split; [|exact Himage].
    apply in_or_app. right. apply in_or_app. left.
    apply in_or_app. right. exact Hin.
Qed.

(** C1 with a stored token and an alternate provider that delivers. *)
Lemma replicate_used_directly_witness :
  let t := trace (scripted replicateReady)
                 (GenerateComponent.startGeneration
                    (Some "data:image/jpeg;base64,/9j/4AAQ") "" "")
                 (write gemini_ai true freshWorld) in
  filter touchesVeo t = [] /\
  Forall fixedParams (pick seedanceInput t) /\
  exists input, In input (pick seedanceInput t) /\
                image input = Some "data:image/jpeg;base64,/9j/4AAQ".
Proof.
  destruct (replicate_used_directly (scripted replicateReady)
              (write gemini_ai true freshWorld) "r8_example"
              (Some "data:image/jpeg;base64,/9j/4AAQ") "" "")
    as (H1 & H2 & H3).
  - reflexivity.
  - intros h. reflexivity.
  - split; [exact H1 | split; [exact H2 | apply H3; reflexivity]].
Defined.

(* ================================================================== *)
(** * Generation: the prompt phase *)
(* ================================================================== *)

Section PromptPhase.

Import GenerateComponent.

Variable env : Env.



End PromptPhase.



(* ================================================================== *)
(** * Enhancement: the order of the providers *)
(* ================================================================== *)

Section EnhanceOrder.

Import EnhanceComponent.

Variable env : Env.

Lemma begin_beforeFailure : Safe anyAnswer beforeFailure begin.
Proof.
  unfold begin, setIsEnhancing, setEnhanceError, setEnhanceProgress. safe_unfold.
  cbn [Safe bind]. repeat split.
Qed.

Lemma begin_noRequest : Safe anyAnswer (fun ev => isNanoBanana ev = false) begin.
Proof.
  unfold begin, setIsEnhancing, setEnhanceError, setEnhanceProgress. safe_unfold.
  cbn [Safe bind]. repeat split.
Qed.

Lemma viaReplicate_beforeFailure url tok :
  Safe anyAnswer beforeFailure (viaReplicate url tok).
Proof.
  apply (Safe_weaken anyAnswer anyAnswer quiet beforeFailure);
    [ auto | | apply viaReplicate_quiet ].
  now intros ev (_ & _ & _ & H & _).
Qed.

Lemma env_anyAnswer : forall X h (e : Ext X), anyAnswer X e (env X h e).
Proof. intros; exact I. Qed.

End EnhanceOrder.

(** C3: in a run of the enhancement step on an image, let [token] be what
    the read of the alternate credential returns.  If it is non-empty and
    the alternate provider's call throws, the step goes on, from there,
    with the primary provider's call, then settles or fails on its
    result; no error has been shown before that call.  If it is missing or
    empty, the primary provider's call comes right after the read, and
    nothing has been asked of the alternate provider. *)
Theorem primary_after_alternate
        (env : Env) (w : World) (url : string) (progressInterval : Z) :
  Js.nonEmpty url = true ->
  outcome env EnhanceComponent.begin w = inr progressInterval ->
  let w1 := after env EnhanceComponent.begin w in
  let token := env _ (log w1) (localStorage_getItem "REPLICATE_API_TOKEN") in
  let w2 := record (Called (localStorage_getItem "REPLICATE_API_TOKEN") token) w1 in
  let alternate := EnhanceComponent.viaReplicate url (Js.orElse token "") in
  let primary :=
    (geminiResult <- GeminiService.enhanceImage (Js.splitComma1 url)
                       (Js.orElse (Js.matchData url) "image/jpeg") None ;;
     Ret (hd_error (GeminiService.images geminiResult),
          GeminiService.caption geminiResult)) in
  let rest := tryCatch (result <- primary ;;
                        EnhanceComponent.settle progressInterval result)
                       (EnhanceComponent.onError progressInterval) in
  let step := EnhanceComponent.startEnhancement (Some url) in
  (Js.truthy token = true ->
   forall e, outcome env alternate w2 = inl e ->
     let w3 := after env alternate w2 in
     run env step w = run env rest w3 /\
     exists pre, trace env step w = (pre ++ trace env rest w3)%list /\
                 Forall (fun ev => enhanceError ev = None) pre) /\
  (Js.truthy token = false ->
     run env step w = run env rest w2 /\
     exists pre, trace env step w = (pre ++ trace env rest w2)%list /\
                 Forall (fun ev => enhanceError ev = None /\ isNanoBanana ev = false) pre).
Proof.
  intros Hurl Hpi w1 token w2 alternate primary rest step.
  assert (Hor : Js.orElse (Some url) "" = url).
  { unfold Js.orElse. cbn [Js.truthy]. now rewrite Hurl. }
  assert (Hstep : step = (pi <- EnhanceComponent.begin ;;
                          tryCatch (result <- EnhanceComponent.enhance url ;;
                                    EnhanceComponent.settle pi result)
                                   (EnhanceComponent.onError pi))).
  { unfold step, EnhanceComponent.startEnhancement. cbn [Js.truthy].
    rewrite Hurl. cbn [negb]. now rewrite Hor. }
  assert (Hbegin : Forall (fun ev => enhanceError ev = None /\ isNanoBanana ev = false)
                          (trace env EnhanceComponent.begin w)).
  { pose proof (Safe_sound anyAnswer _ env (env_anyAnswer env) _ begin_beforeFailure w) as H1.
    pose proof (Safe_sound anyAnswer _ env (env_anyAnswer env) _ begin_noRequest w) as H2.
    rewrite Forall_forall in *. intros ev Hev. split; [apply H1 | apply H2]; exact Hev. }
  split.
  - intros Htok e Hfail w3.
    assert (Hrun : run env (EnhanceComponent.enhance url) w1 = run env primary w3).
    { unfold EnhanceComponent.enhance, call. cbn [bind run]. fold token. rewrite Htok.
      fold w2. fold alternate. rewrite run_tryCatch, Hfail. reflexivity. }
    assert (Htr : trace env (EnhanceComponent.enhance url) w1
                  = (Called (localStorage_getItem "REPLICATE_API_TOKEN") token
                     :: trace env alternate w2 ++ trace env primary w3)%list).
    { unfold EnhanceComponent.enhance, call. cbn [bind trace]. fold token. rewrite Htok.
      fold w2. fold alternate. rewrite trace_tryCatch, Hfail. reflexivity. }
    assert (Ho : outcome env (EnhanceComponent.enhance url) w1 = outcome env primary w3)
      by (unfold outcome; now rewrite Hrun).
    assert (Ha : after env (EnhanceComponent.enhance url) w1 = after env primary w3)
      by (unfold after; now rewrite Hrun).
    split.
    + rewrite Hstep, run_bind, Hpi. fold w1.
      unfold rest. rewrite !run_tryCatch, !outcome_bind, !after_bind, Ho, Ha.
      reflexivity.
    + exists (trace env EnhanceComponent.begin w
              ++ Called (localStorage_getItem "REPLICATE_API_TOKEN") token
              :: trace env alternate w2)%list.
      split.
      * rewrite Hstep, trace_bind, Hpi. fold w1.
        unfold rest. rewrite !trace_tryCatch, !outcome_bind, !after_bind, !trace_bind,
          Ho, Ha, Htr.
        rewrite <- !app_assoc. cbn [List.app]. rewrite <- !app_assoc. reflexivity.
      * apply Forall_app. split.
        -- revert Hbegin. apply Forall_impl. now intros ev [H _].
        -- constructor; [reflexivity|].
           apply (Safe_sound anyAnswer _ env (env_anyAnswer env)).
           apply viaReplicate_beforeFailure.
  - intros Htok.
    assert (Hrun : run env (EnhanceComponent.enhance url) w1 = run env primary w2).
    { unfold EnhanceComponent.enhance, call. cbn [bind run]. fold token. rewrite Htok.
      reflexivity. }
    assert (Htr : trace env (EnhanceComponent.enhance url) w1
                  = (Called (localStorage_getItem "REPLICATE_API_TOKEN") token
                     :: trace env primary w2)%list).
    { unfold EnhanceComponent.enhance, call. cbn [bind trace]. fold token. rewrite Htok.
      reflexivity. }
    assert (Ho : outcome env (EnhanceComponent.enhance url) w1 = outcome env primary w2)
      by (unfold outcome; now rewrite Hrun).
    assert (Ha : after env (EnhanceComponent.enhance url) w1 = after env primary w2)
      by (unfold after; now rewrite Hrun).
    split.
    + rewrite Hstep, run_bind, Hpi. fold w1.
      unfold rest. rewrite !run_tryCatch, !outcome_bind, !after_bind, Ho, Ha.
      reflexivity.
    + exists (trace env EnhanceComponent.begin w
              ++ [Called (localStorage_getItem "REPLICATE_API_TOKEN") token])%list.
      split.
      * rewrite Hstep, trace_bind, Hpi. fold w1.
        unfold rest. rewrite !trace_tryCatch, !outcome_bind, !after_bind, !trace_bind,
          Ho, Ha, Htr.
        rewrite <- !app_assoc. cbn [List.app]. reflexivity.
      * apply Forall_app. split; [exact Hbegin|].
        constructor; [split; reflexivity | constructor].
Qed.

(** C3 at two runs: a stored token with an alternate provider that fails,
    where the primary provider's image ends up in the store; and no token. *)
Lemma primary_after_alternate_witness :
  (let env := scripted alternateDown in
   let w := write gemini_ai true freshWorld in
   let url := "data:image/jpeg;base64,/9j/4AAQ" in
   let w1 := after env EnhanceComponent.begin w in
   let w2 := record (Called (localStorage_getItem "REPLICATE_API_TOKEN")
                       (Some "r8_example")) w1 in
   let w3 := after env (EnhanceComponent.viaReplicate url "r8_example") w2 in
   outcome env (EnhanceComponent.viaReplicate url "r8_example") w2
     = inl (ErrorObj "Replicate API error: 500") /\
   run env (EnhanceComponent.startEnhancement (Some url)) w
     = run env (tryCatch (result <- EnhanceComponent.enhanceWithGemini url ;;
                          EnhanceComponent.settle 1 result)
                         (EnhanceComponent.onError 1)) w3 /\
   enhancedImageUrl (read theStore
                       (after env (EnhanceComponent.startEnhancement (Some url)) w))
     = Some "data:image/png;base64,iVBORw0KGgo") /\
  (let env := scripted emptyReply in
   let w := write gemini_ai true freshWorld in
   let url := "data:image/jpeg;base64,/9j/4AAQ" in
   let w2 := record (Called (localStorage_getItem "REPLICATE_API_TOKEN") None)
                    (after env EnhanceComponent.begin w) in
   run env (EnhanceComponent.startEnhancement (Some url)) w
     = run env (tryCatch (result <- EnhanceComponent.enhanceWithGemini url ;;
                          EnhanceComponent.settle 1 result)
                         (EnhanceComponent.onError 1)) w2).
Proof.
  split.
  - intros env w url w1 w2 w3.
    assert (Hfail : outcome env (EnhanceComponent.viaReplicate url "r8_example") w2
                    = inl (ErrorObj "Replicate API error: 500")) by reflexivity.
    split; [exact Hfail|]. split; [|reflexivity].
    destruct (primary_after_alternate env w url 1 eq_refl eq_refl) as [H _].
    apply (H eq_refl _ Hfail).
  - intros env w url w2.
    destruct (primary_after_alternate env w url 1 eq_refl eq_refl) as [_ H].
    apply (H eq_refl).
Defined.

(* ================================================================== *)
(** * Generation: the primary provider's poll loop and the fallback *)
(* ================================================================== *)

Section PollLoop.

Import VeoService.

Variable env : Env.

Lemma pollLoop_bound (n : nat) : forall op w,
  (length (filter isPoll (trace env (pollLoop None n op) w)) <= n)%nat.
Proof.
  induction n as [|n IH]; intros op w; cbn [pollLoop]; [cbn; lia|].
  destruct (done op); [cbn; lia|].
  unfold notify, call, get, await. cbn [bind trace filter isPoll kind].
  match goal with
  | |- context [env ?X ?h (veo_getOperation ?a ?b)] =>
      destruct (env X h (veo_getOperation a b)) as [err | r]
  end; cbn [bind trace filter length]; [lia|].
  destruct (ok r); [unfold parsed; destruct (json r)|];
    cbn [bind trace filter length]; try lia;
    match goal with |- (S (length (filter _ (trace _ (pollLoop _ _ ?o) ?w'))) <= _)%nat =>
      specialize (IH o w'); lia
    end.
Qed.

Lemma pollLoop_never_done (Hnever : NeverDone env) (n : nat) : forall op w,
  done op = false ->
  exists op', outcome env (pollLoop None n op) w = inr op' /\
              done op' = false /\
              map kind (trace env (pollLoop None n op) w) = rounds n.
Proof.
  induction n as [|n IH]; intros op w Hop; cbn [pollLoop].
  - exists op. repeat split. exact Hop.
  - rewrite Hop. unfold notify, call, get, await, outcome.
    cbn [bind trace run map kind rounds].
    match goal with
    | |- context [env ?X ?h (veo_getOperation ?a ?b)] =>
        destruct (Hnever h a b) as (r & Hr & Hok); rewrite Hr
    end.
    cbn [bind trace run].
    destruct (ok r) eqn:Eok.
    + destruct (Hok eq_refl) as (op1 & Hj & Hd). unfold parsed. rewrite Hj.
      cbn [bind trace run].
      match goal with |- context [run env (pollLoop None n op1) ?w'] =>
        destruct (IH op1 w' Hd) as (op' & Ho & Hd' & Ht)
      end.
      exists op'. unfold outcome in Ho. rewrite Ho, Ht. repeat split. exact Hd'.
    + cbn [bind trace run].
      match goal with |- context [run env (pollLoop None n op) ?w'] =>
        destruct (IH op w' Hop) as (op' & Ho & Hd' & Ht)
      end.
      exists op'. unfold outcome in Ho. rewrite Ho, Ht. repeat split. exact Hd'.
Qed.

End PollLoop.

Section PrimaryProvider.

Import VeoService.

Variable env : Env.

Lemma timeout_not_quota :
  Js.includes "Video generation timed out. Please try again." "quota" = false /\
  Js.includes "Video generation timed out. Please try again." "safety" = false /\
  Js.includes "Video generation timed out. Please try again." "Replicate" = false.
Proof. repeat split; vm_compute; reflexivity. Qed.

Lemma retrieve_pending (cur : Operation) (w : World) :
  done cur = false ->
  run env (retrieve None cur) w
    = (w, inl (ErrorObj "Video generation timed out. Please try again.")) /\
  trace env (retrieve None cur) w = [].
Proof. intros H. unfold retrieve. rewrite H. split; reflexivity. Qed.

Lemma generateVideo_timeout (Hnever : NeverDone env)
      (w : World) (imageBytes : option string) (prompt mimeType key : string)
      (r0 : Response Operation) (op0 : Operation) :
  read veo_apiKey w = Some key ->
  Js.nonEmpty key = true ->
  env _ (log w)
      (veo_predictLongRunning key
         [ {| veo_prompt := prompt; bytesBase64Encoded := imageBytes;
              veo_mimeType := mimeType |} ]) = inr r0 ->
  ok r0 = true -> json r0 = inr op0 -> done op0 = false ->
  outcome env (generateVideo imageBytes prompt None mimeType) w
    = inl (ErrorObj "Video generation timed out. Please try again.") /\
  map kind (trace env (generateVideo imageBytes prompt None mimeType) w)
    = KPredict :: rounds 30.
Proof.
  intros Hkey Hne Hstart Hok Hjson Hdone.
  destruct timeout_not_quota as (Hq & Hs & _).
  unfold generateVideo, get, notify, await, parsed, outcome.
  cbn [bind run trace]. rewrite Hkey. cbn [Js.truthy Js.show]. rewrite Hne.
  cbn [negb]. rewrite run_tryCatch, trace_tryCatch. unfold outcome, after.
  cbn [bind run trace]. rewrite ?Hkey. cbn [Js.show]. rewrite Hstart.
  cbn [bind run trace map kind]. rewrite Hok, Hjson. cbn [negb bind run trace].
  match goal with |- context [run env (bind (pollLoop None maxPolls op0) ?k) ?w'] =>
    destruct (pollLoop_never_done env Hnever maxPolls op0 w' Hdone)
      as (op' & Ho & Hd & Ht);
    rewrite (run_bind env (pollLoop None maxPolls op0) k w'),
            (trace_bind env (pollLoop None maxPolls op0) k w'), Ho
  end.
  match goal with |- context [run env (retrieve None op') ?w'] =>
    destruct (retrieve_pending op' w' Hd) as [Hr Ht2]; rewrite Hr, Ht2
  end.
  cbn [snd fst]. unfold translateError. rewrite Hq, Hs. cbn [run trace snd].
  rewrite !app_nil_r. split; [reflexivity|]. cbn [map kind]. now rewrite Ht.
Qed.

Lemma translateError_trace (e : JsError) (w : World) : trace env (translateError e) w = [].
Proof.
  destruct e as [m|t]; cbn; [|reflexivity].
  destruct (Js.includes m "quota"), (Js.includes m "safety"); reflexivity.
Qed.

Lemma retrieve_polls (cur : Operation) (w : World) :
  filter isPoll (trace env (retrieve None cur) w) = [].
Proof.
  unfold retrieve, get, notify, await, call.
  destruct (done cur); cbn [negb trace filter]; [|reflexivity].
  destruct (video cur) as [uri|]; cbn [trace filter]; [|reflexivity].
  destruct (Js.truthy uri); cbn [negb bind trace filter isPoll kind]; [|reflexivity].
  match goal with
  | |- context [env ?X ?h (fetchUrl ?u)] => destruct (env X h (fetchUrl u)) as [err | res]
  end; cbn [bind trace filter]; [reflexivity|].
  destruct (blob_ok res); cbn [negb bind trace filter isPoll kind]; reflexivity.
Qed.

(** Whatever the provider answers, one generation asks for the operation
    at most [maxPolls] times. *)
Lemma generateVideo_polls (w : World) (imageBytes : option string)
      (prompt mimeType : string) :
  (length (filter isPoll (trace env (generateVideo imageBytes prompt None mimeType) w))
   <= 30)%nat.
Proof.
  unfold generateVideo, get, notify, await, parsed.
  cbn [bind trace].
  destruct (Js.truthy (read veo_apiKey w)); cbn [negb trace filter length]; [|lia].
  rewrite trace_tryCatch, filter_app, length_app.
  match goal with |- context [match ?o with inl e => trace env (translateError e) ?w' | inr _ => [] end] =>
    replace (match o with inl e => trace env (translateError e) w' | inr _ => [] end)
      with (@nil Ev) by (destruct o; [now rewrite translateError_trace | reflexivity])
  end.
  cbn [filter length bind trace isPoll kind].
  match goal with
  | |- context [env ?X ?h (veo_predictLongRunning ?a ?b)] =>
      destruct (env X h (veo_predictLongRunning a b)) as [err | r]
  end; cbn [bind trace filter length]; [lia|].
  destruct (ok r); cbn [negb bind trace filter length]; [|lia].
  destruct (json r) as [err | op]; cbn [bind trace filter length]; [lia|].
  rewrite trace_bind, filter_app, length_app.
  match goal with |- context [trace env (pollLoop None maxPolls op) ?w'] =>
    pose proof (pollLoop_bound env maxPolls op w') as Hb
  end.
  destruct (outcome env (pollLoop None maxPolls op) _) as [e | cur].
  - cbn [filter length]. change maxPolls with 30%nat in *. lia.
  - rewrite retrieve_polls. cbn [length]. change maxPolls with 30%nat in *. lia.
Qed.

End PrimaryProvider.

Section Fallback.

Import GenerateComponent.

Variable env : Env.

Lemma attempt_unsurfaced (url note : string) (w : World) :
  Forall unsurfaced (trace env (promptPhase url note ;; videoPhase url) w).
Proof.
  apply (Safe_sound anyAnswer unsurfaced env); [intros; exact I|].
  apply Safe_bind; [apply promptPhase_unsurfaced | intros _; apply videoPhase_unsurfaced].
Qed.

Lemma begin_trace_unsurfaced (mp : string) (w : World) :
  Forall unsurfaced (trace env (begin mp) w).
Proof.
  apply (Safe_sound anyAnswer unsurfaced env); [intros; exact I|].
  apply begin_unsurfaced.
Qed.

Lemma onError_requests (url tok : string) (error : JsError) (w : World) :
  Js.nonEmpty url = true ->
  Js.nonEmpty tok = true ->
  Js.includes (messageOf error) "Replicate" = false ->
  (forall t, env _ (log w ++ t)%list (localStorage_getItem "REPLICATE_API_TOKEN")
             = Some tok) ->
  exists input answer post,
    trace env (onError url error) w
      = Called (localStorage_getItem "REPLICATE_API_TOKEN") (Some tok)
        :: Called (localStorage_getItem "REPLICATE_API_TOKEN") (Some tok)
        :: Called (replicate_seedance tok input) answer :: post /\
    fixedParams input /\ image input = Some url /\ sd_prompt input = read gen_prompt w.
Proof.
  intros Hurl Htok Hmsg Hthere.
  pose proof (Hthere []) as H0. rewrite app_nil_r in H0.
  unfold onError, VeoService.generateVideoWithReplicate. safe_unfold.
  cbn [bind trace tryCatch]. rewrite H0. cbn [Js.truthy]. rewrite Htok, Hmsg.
  cbn [negb andb bind trace tryCatch log record].
  rewrite (Hthere [_]). cbn [Js.truthy Js.orElse]. rewrite Htok.
  cbn [negb bind trace tryCatch]. rewrite Hurl.
  rewrite (orElse_some tok "" Htok).
  do 3 eexists. split; [reflexivity|]. repeat split.
Qed.

End Fallback.

(** C2: (1) whatever the provider answers, one generation asks for the
    state of the operation at most 30 times; (2) when every such request
    is answered and no answer reports the operation done, a generation
    whose job was accepted waits 10 seconds before each of exactly 30
    requests and then fails with the timeout error; (3) when the [try]
    block of the generation step fails with an error whose message does
    not contain [Replicate] (the timeout of the primary provider is one)
    and the alternate credential is there from then on, a request with the
    fixed parameters goes to the alternate provider, and no error has been
    shown to the user before it. *)
Theorem primary_timeout_and_fallback (env : Env) :
  (forall w imageBytes prompt mimeType,
     (length (filter isPoll
                (trace env (VeoService.generateVideo imageBytes prompt None mimeType) w))
      <= 30)%nat) /\
  (NeverDone env ->
   forall w imageBytes prompt mimeType key r0 op0,
     read veo_apiKey w = Some key ->
     Js.nonEmpty key = true ->
     env _ (log w)
         (veo_predictLongRunning key
            [ {| veo_prompt := prompt; bytesBase64Encoded := imageBytes;
                 veo_mimeType := mimeType |} ]) = inr r0 ->
     ok r0 = true -> json r0 = inr op0 -> done op0 = false ->
     outcome env (VeoService.generateVideo imageBytes prompt None mimeType) w
       = inl (ErrorObj "Video generation timed out. Please try again.") /\
     map kind (trace env (VeoService.generateVideo imageBytes prompt None mimeType) w)
       = KPredict :: rounds 30) /\
  (forall w url motionPrompt userNote error tok,
     Js.nonEmpty url = true ->
     Js.nonEmpty tok = true ->
     let w1 := after env (GenerateComponent.begin motionPrompt) w in
     let attempt := (GenerateComponent.promptPhase url userNote ;;
                     GenerateComponent.videoPhase url) in
     outcome env attempt w1 = inl error ->
     Js.includes (messageOf error) "Replicate" = false ->
     (forall t, env _ (log (after env attempt w1) ++ t)%list
                    (localStorage_getItem "REPLICATE_API_TOKEN") = Some tok) ->
     exists pre input answer post,
       trace env (GenerateComponent.startGeneration (Some url) motionPrompt userNote) w
         = (pre ++ Called (replicate_seedance tok input) answer :: post)%list /\
       Forall (fun ev => surfacedError ev = None) pre /\
       fixedParams input /\ image input = Some url).
Proof.
  split; [|split].
  - intros. apply generateVideo_polls.
  - intros Hnever w imageBytes prompt mimeType key r0 op0. now apply generateVideo_timeout.
  - intros w url mp note error tok Hurl Htok w1 attempt Hfail Hmsg Hthere.
    destruct (onError_requests env url tok error (after env attempt w1)
                Hurl Htok Hmsg Hthere)
      as (input & answer & post & Htr & Hfix & Himg & _).
    exists (trace env (GenerateComponent.begin mp) w ++ trace env attempt w1
            ++ [Called (localStorage_getItem "REPLICATE_API_TOKEN") (Some tok);
                Called (localStorage_getItem "REPLICATE_API_TOKEN") (Some tok)])%list,
           input, answer, post.
    split; [|split; [|split; assumption]].
    + unfold GenerateComponent.startGeneration. cbn [Js.truthy]. rewrite Hurl. cbn [negb].
      assert (Hor : Js.orElse (Some url) "" = url).
      { unfold Js.orElse. cbn [Js.truthy]. now rewrite Hurl. }
      rewrite Hor.
      rewrite trace_bind, (NoThrow_unit env _ (begin_total mp)). fold w1.
      rewrite trace_tryCatch. fold attempt. rewrite Hfail, Htr.
      rewrite <- !app_assoc. reflexivity.
    + apply Forall_app. split; [apply begin_trace_unsurfaced|].
      apply Forall_app. split; [apply attempt_unsurfaced|].
      repeat constructor.
Qed.

(** C2 at a primary provider that accepts the job and never finishes it,
    with a token stored while the job is running. *)
Lemma primary_timeout_and_fallback_witness :
  let env := scripted neverDone in
  let w := write gemini_ai true freshWorld in
  let url := "data:image/jpeg;base64,/9j/4AAQ" in
  (outcome env (VeoService.generateVideo (Some "/9j/4AAQ") "The leaves sway gently."
                  None "image/jpeg")
           (write veo_apiKey (Some "AIzaSyExample") w)
     = inl (ErrorObj "Video generation timed out. Please try again.") /\
   map kind (trace env (VeoService.generateVideo (Some "/9j/4AAQ")
                          "The leaves sway gently." None "image/jpeg")
                   (write veo_apiKey (Some "AIzaSyExample") w))
     = KPredict :: rounds 30) /\
  (outcome env (GenerateComponent.promptPhase url "" ;; GenerateComponent.videoPhase url)
           (after env (GenerateComponent.begin "") w)
     = inl (ErrorObj "Video generation timed out. Please try again.") /\
   exists pre input answer post,
     trace env (GenerateComponent.startGeneration (Some url) "" "") w
       = (pre ++ Called (replicate_seedance "r8_example" input) answer :: post)%list /\
     Forall (fun ev => surfacedError ev = None) pre /\
     fixedParams input /\ image input = Some url).
Proof.
  intros env w url.
  destruct (primary_timeout_and_fallback env) as (_ & Htimeout & Hfallback).
  assert (Hnever : NeverDone env).
  { intros h name key. exists (okResponse pendingOperation). split; [reflexivity|].
    intros _. exists pendingOperation. split; reflexivity. }
  split.
  - apply (Htimeout Hnever (write veo_apiKey (Some "AIzaSyExample") w)
             (Some "/9j/4AAQ") "The leaves sway gently." "image/jpeg" "AIzaSyExample"
             (okResponse pendingOperation) pendingOperation); reflexivity.
  - assert (Hfail : outcome env (GenerateComponent.promptPhase url "" ;;
                                 GenerateComponent.videoPhase url)
                            (after env (GenerateComponent.begin "") w)
                    = inl (ErrorObj "Video generation timed out. Please try again."))
      by (vm_compute; reflexivity).
    split; [exact Hfail|].
    apply (Hfallback w url "" "" _ "r8_example" eq_refl eq_refl Hfail).
    + vm_compute. reflexivity.
    + intros t. unfold env, scripted. cbn [String.eqb Ascii.eqb Bool.eqb neverDone replicateTokenAt].
      rewrite existsb_app.
      replace (existsb touchesVeo (log (after (scripted neverDone)
                 (GenerateComponent.promptPhase url "" ;; GenerateComponent.videoPhase url)
                 (after (scripted neverDone) (GenerateComponent.begin "") w))))
        with true by (vm_compute; reflexivity).
      reflexivity.
Defined.

(** The claim of C2 as it was worded fails: the operation never reports
    done, yet the generation does not end with the timeout error.  The
    first status request is rejected; the rejection leaves the loop, so
    one request is made and the error is the request's own. *)
Lemma poll_rejected_no_timeout :
  NeverReportsDone (scripted pollRejected) /\
  map kind (trace (scripted pollRejected)
              (VeoService.generateVideo (Some "/9j/4AAQ") "The leaves sway gently."
                 None "image/jpeg")
              (write veo_apiKey (Some "AIzaSyExample") freshWorld))
    = KPredict :: rounds 1 /\
  outcome (scripted pollRejected)
    (VeoService.generateVideo (Some "/9j/4AAQ") "The leaves sway gently." None "image/jpeg")
    (write veo_apiKey (Some "AIzaSyExample") freshWorld)
    = inl (ErrorObj "Failed to fetch") /\
  outcome (scripted pollRejected)
    (VeoService.generateVideo (Some "/9j/4AAQ") "The leaves sway gently." None "image/jpeg")
    (write veo_apiKey (Some "AIzaSyExample") freshWorld)
    <> inl (ErrorObj "Video generation timed out. Please try again.").
Proof.
  split; [intros h name key r op H; discriminate H|].
  split; [vm_compute; reflexivity|].
  assert (H : outcome (scripted pollRejected)
                (VeoService.generateVideo (Some "/9j/4AAQ") "The leaves sway gently."
                   None "image/jpeg")
                (write veo_apiKey (Some "AIzaSyExample") freshWorld)
              = inl (ErrorObj "Failed to fetch")) by (vm_compute; reflexivity).
  split; [exact H|]. rewrite H. discriminate.
Qed.

(* ================================================================== *)
(** * Progress *)
(* ================================================================== *)

Section Progress.

Import memoryStore.

Lemma clamp_inRange (p : Q) : inRange (Qmax 0 (Qmin 100 p)).
Proof.
  split.
  - apply Q.le_max_l.
  - apply Q.max_lub; [discriminate | apply Q.le_min_l].
Qed.

Lemma clamp_percentage (p : Js.Number) :
  p <> Js.NaN -> percentage (Js.Math_max 0 (Js.Math_min 100 p)).
Proof.
  destruct p as [ | | | q]; intros H; cbn [Js.Math_max Js.Math_min percentage].
  - congruence.
  - split; discriminate.
  - split; [apply Q.le_max_l | apply Q.max_lub; [discriminate | apply Qle_refl]].
  - apply clamp_inRange.
Qed.

Lemma setProgress_progress (p : Js.Number) (s : MemoryState) :
  progress (setProgress p s) = Js.Math_max 0 (Js.Math_min 100 p).
Proof. destruct s; reflexivity. Qed.

Lemma act_percentage (a : Action) (s : MemoryState) :
  setsNaN a = false -> percentage (progress s) -> percentage (progress (act s a)).
Proof.
  intros Ha H. destruct a; try (destruct s; cbn in *; first [exact H | split; discriminate]).
  change (act s (SetProgress p)) with (setProgress p s).
  rewrite setProgress_progress. apply clamp_percentage.
  intros ->. discriminate Ha.
Qed.

Lemma actions_percentage (actions : list Action) : forall s,
  forallb (fun a => negb (setsNaN a)) actions = true ->
  percentage (progress s) -> percentage (progress (fold_left act actions s)).
Proof.
  induction actions as [|a actions IH]; intros s Ha H; cbn [fold_left]; [exact H|].
  cbn [forallb] in Ha. apply andb_prop in Ha. destruct Ha as [Ha Hrest].
  apply IH; [exact Hrest|]. apply act_percentage; [|exact H].
  now destruct (setsNaN a).
Qed.

Lemma nextEnhanceProgress_le (prev : Q) :
  (EnhanceComponent.nextEnhanceProgress prev <= 90)%Q.
Proof. apply Q.le_min_r. Qed.

End Progress.

Section ProgressWrites.

Variable env : Env.

Lemma progressTick_trace (w : World) :
  trace env EnhanceComponent.progressTick w
    = [Wrote enh_enhanceProgress
         (EnhanceComponent.nextEnhanceProgress (read enh_enhanceProgress w))].
Proof. reflexivity. Qed.

Lemma gentleProgressTick_writes (startTime : Z) (w : World) :
  pick progressWrite (trace env (GenerateComponent.gentleProgressTick startTime) w)
    = [Qmin 90 (GenerateComponent.newProgress
                  (env _ (log w) Date_now - startTime))].
Proof.
  unfold GenerateComponent.gentleProgressTick, GenerateComponent.setProgress,
    GenerateComponent.clearTimer. safe_unfold.
  cbn [bind trace pick progressWrite].
  destruct (Qle_bool 90 _); cbn [bind trace pick]; [|reflexivity].
  destruct (liveTimer _); reflexivity.
Qed.

(** *** Enhancement *)

Lemma enhance_begin_writes (w : World) :
  pick enhanceProgressWrite (trace env EnhanceComponent.begin w) = [0%Q].
Proof. reflexivity. Qed.

Lemma enhance_onError_writes (pi : Z) (e : JsError) (w : World) :
  pick enhanceProgressWrite (trace env (EnhanceComponent.onError pi e) w) = [0%Q].
Proof. reflexivity. Qed.

Lemma enhance_writes (url : string) (w : World) :
  pick enhanceProgressWrite (trace env (EnhanceComponent.enhance url) w) = [].
Proof.
  apply pick_nil.
  pose proof (Safe_sound anyAnswer quiet env (fun _ _ _ => I) _
                (enhance_quiet anyAnswer url) w) as H.
  revert H. apply Forall_impl. now intros ev (_ & H & _).
Qed.

Lemma settle_writes (pi : Z) (img : option string) (caption : string) (w : World) :
  pick enhanceProgressWrite (trace env (EnhanceComponent.settle pi (img, caption)) w)
    = [100%Q] /\
  outcome env (EnhanceComponent.settle pi (img, caption)) w
    = if Js.truthy img then inr tt
      else inl (ErrorObj "No enhanced image was generated").
Proof.
  unfold outcome, EnhanceComponent.settle, EnhanceComponent.setEnhanceProgress,
    EnhanceComponent.setImageLoaded. safe_unfold.
  cbn [bind trace run pick enhanceProgressWrite].
  destruct (Js.truthy img); cbn [bind trace run pick enhanceProgressWrite snd];
    [|split; reflexivity].
  destruct (liveTimer _); cbn [bind trace run pick enhanceProgressWrite snd];
    split; reflexivity.
Qed.

(** The progress values the enhancement step shows: 0 at the start, and
    then either 0 again when the providers failed, or 100 when one of them
    returned, followed by 0 when what it returned holds no image. *)
Lemma startEnhancement_writes (url : string) (w : World) :
  Js.nonEmpty url = true ->
  pick enhanceProgressWrite (trace env (EnhanceComponent.startEnhancement (Some url)) w)
    = 0%Q ::
      match outcome env (EnhanceComponent.enhance url)
                    (after env EnhanceComponent.begin w) with
      | inl _ => [0%Q]
      | inr (img, _) => if Js.truthy img then [100%Q] else [100%Q; 0%Q]
      end.
Proof.
  intros Hurl. unfold EnhanceComponent.startEnhancement. cbn [Js.truthy].
  rewrite Hurl, (orElse_some url "" Hurl). cbn [negb].
  destruct (NoThrow_sound env _ enhance_begin_total w) as (pi & Hpi).
  rewrite trace_bind, Hpi, pick_app, enhance_begin_writes.
  set (w1 := after env EnhanceComponent.begin w).
  rewrite trace_tryCatch, trace_bind, outcome_bind, after_bind, !pick_app, enhance_writes.
  cbn [List.app]. f_equal.
  destruct (outcome env (EnhanceComponent.enhance url) w1) as [e | [img caption]].
  - cbn [List.app]. apply enhance_onError_writes.
  - destruct (settle_writes pi img caption
                (after env (EnhanceComponent.enhance url) w1)) as [Hw Ho].
    rewrite Hw, Ho. destruct (Js.truthy img); cbn [List.app]; [reflexivity|].
    now rewrite enhance_onError_writes.
Qed.

End ProgressWrites.

(** *** Generation *)

Section GenerationProgress.

Import GenerateComponent.

Variable env : Env.

Lemma PhaseOk_call {X} (e : Ext X) (k : X -> Prog unit) (w : World) :
  PhaseOk env (k (env _ (log w) e)) (record (Called e (env _ (log w) e)) w) ->
  PhaseOk env (Call e k) w.
Proof. exact (fun H => H). Qed.

Lemma PhaseOk_get {X} (c : Cell X) (k : X -> Prog unit) (w : World) :
  PhaseOk env (k (read c w)) w -> PhaseOk env (Get c k) w.
Proof. exact (fun H => H). Qed.

Lemma PhaseOk_put {X} (c : Cell X) (v : X) (k : Prog unit) (w : World) :
  progressWrite (Wrote c v) = None ->
  PhaseOk env k (record (Wrote c v) (write c v w)) -> PhaseOk env (Put c v k) w.
Proof.
  intros Hc H. unfold PhaseOk, outcome, after in *. cbn [run trace pick].
  rewrite Hc. exact H.
Qed.

Lemma PhaseOk_throw (e : JsError) (w : World) : PhaseOk env (Throw e) w.
Proof. right. exists e. split; reflexivity. Qed.

Lemma setVideoUrl_video (url : string) (s : MemoryState) :
  videoUrl (memoryStore.setVideoUrl url s) = Some url.
Proof. destruct s; reflexivity. Qed.

Lemma finish_spec (url : string) (w : World) :
  outcome env (finish url) w = inr tt /\
  pick progressWrite (trace env (finish url) w) = [100%Q] /\
  Completed (after env (finish url) w).
Proof.
  unfold Completed, outcome, after, finish, stopGentleProgress, setProgress,
    setStatusMessage. safe_unfold.
  cbn [bind run trace].
  destruct (liveTimer _); cbn [bind run trace pick progressWrite fst snd];
    (split; [reflexivity | split; [reflexivity|]]);
    eexists; unfold read; cbn [cells record write sameCell];
    apply setVideoUrl_video.
Qed.

Lemma quiet_writes {A} (p : Prog A) (w : World) :
  Safe anyAnswer quiet p -> pick progressWrite (trace env p w) = [].
Proof.
  intros Hp. apply pick_nil.
  pose proof (Safe_sound anyAnswer quiet env (fun _ _ _ => I) _ Hp w) as H.
  revert H. apply Forall_impl. now intros ev (H & _).
Qed.

Lemma PhaseOk_then_finish (p : Prog string) (w : World) :
  Safe anyAnswer quiet p -> PhaseOk env (bind p finish) w.
Proof.
  intros Hp. unfold PhaseOk.
  rewrite outcome_bind, trace_bind, after_bind, pick_app, (quiet_writes p w Hp).
  destruct (outcome env p w) as [e | v].
  - right. exists e. split; reflexivity.
  - left. destruct (finish_spec v (after env p w)) as (H1 & H2 & H3).
    cbn [List.app]. auto.
Qed.

Lemma videoPhase_progress (url : string) (w : World) : PhaseOk env (videoPhase url) w.
Proof.
  unfold videoPhase, setStatusMessage, VeoService.init. safe_unfold. cbn [bind].
  repeat match goal with
         | |- PhaseOk env (Call _ _) _ => apply PhaseOk_call; cbn beta; cbn [bind]
         | |- PhaseOk env (Get _ _) _ => apply PhaseOk_get; cbn beta; cbn [bind]
         | |- PhaseOk env (Put _ _ _) _ => apply PhaseOk_put; [reflexivity|]; cbn [bind]
         | |- PhaseOk env (Throw _) _ => apply PhaseOk_throw
         | |- PhaseOk env (if ?b then _ else _) _ => destruct b; cbn [bind]
         | |- PhaseOk env (bind (if ?b then _ else _) _) _ => destruct b; cbn [bind]
         | |- PhaseOk env (bind _ _) _ => apply PhaseOk_then_finish
         end.
  all: first [apply generateVideoWithReplicate_quiet | apply generateVideoSimple_quiet].
Qed.

Lemma attempt_progress (url note : string) (w : World) :
  PhaseOk env (promptPhase url note ;; videoPhase url) w.
Proof.
  unfold PhaseOk.
  rewrite outcome_bind, trace_bind, after_bind, pick_app,
    (quiet_writes _ w (promptPhase_quiet anyAnswer url note)),
    (NoThrow_unit env _ (promptPhase_total url note)).
  apply videoPhase_progress.
Qed.

Lemma stopGentleProgress_writes (w : World) :
  pick progressWrite (trace env stopGentleProgress w) = [] /\
  outcome env stopGentleProgress w = inr tt.
Proof.
  unfold outcome, stopGentleProgress. safe_unfold. cbn [bind run trace].
  destruct (liveTimer _); split; reflexivity.
Qed.

(** What the error handler shows: 100 with a stored video when the
    fallback delivers, no progress otherwise. *)
Lemma onError_progress (url : string) (e : JsError) (w : World) :
  (pick progressWrite (trace env (onError url e) w) = [100%Q] /\
   Completed (after env (onError url e) w)) \/
  pick progressWrite (trace env (onError url e) w) = [].
Proof.
  unfold onError, setGenerateError, setIsGenerating, after. safe_unfold.
  cbn [bind run trace pick progressWrite].
  destruct (Js.truthy _ && negb (Js.includes (messageOf e) "Replicate")).
  - rewrite run_tryCatch, trace_tryCatch, pick_app.
    match goal with |- context [outcome env ?q ?w'] =>
      change q with (bind (Get gen_prompt (fun prompt =>
                       VeoService.generateVideoWithReplicate prompt (Some url)
                         5 "480p" "16:9")) finish);
      destruct (PhaseOk_then_finish
                  (Get gen_prompt (fun prompt =>
                     VeoService.generateVideoWithReplicate prompt (Some url)
                       5 "480p" "16:9")) w')
        as [(Ho & Hp & Hc) | (e' & Ho & Hp)]
    end.
    + intro x. apply generateVideoWithReplicate_quiet.
    + rewrite Ho, Hp. left. split; [reflexivity | exact Hc].
    + rewrite Ho, Hp. right. cbn [List.app bind trace].
      match goal with |- context [trace env (bind stopGentleProgress ?k) ?w'] =>
        rewrite (trace_bind env stopGentleProgress k w'), pick_app;
        destruct (stopGentleProgress_writes w') as [Hs Hso]; rewrite Hs, Hso
      end.
      reflexivity.
  - right.
    match goal with |- context [trace env (bind stopGentleProgress ?k) ?w'] =>
      rewrite (trace_bind env stopGentleProgress k w'), pick_app;
      destruct (stopGentleProgress_writes w') as [Hs Hso]; rewrite Hs, Hso
    end.
    reflexivity.
Qed.

Lemma begin_writes (mp : string) (w : World) :
  pick progressWrite (trace env (begin mp) w) = [10%Q].
Proof.
  unfold begin, startGentleProgress, clearTimer, setIsGenerating, setGenerateError,
    setProgress, setStatusMessage. safe_unfold.
  cbn [bind trace pick progressWrite].
  destruct (liveTimer _); reflexivity.
Qed.

(** The progress values the generation step shows: 10 at the start, and
    100 after it only when a video has been stored. *)
Lemma startGeneration_writes (url mp note : string) (w : World) :
  Js.nonEmpty url = true ->
  let step := startGeneration (Some url) mp note in
  pick progressWrite (trace env step w) = [10%Q] \/
  (pick progressWrite (trace env step w) = [10%Q; 100%Q] /\
   Completed (after env step w)).
Proof.
  intros Hurl step. unfold step, startGeneration. cbn [Js.truthy].
  rewrite Hurl, (orElse_some url "" Hurl). cbn [negb].
  rewrite trace_bind, after_bind, (NoThrow_unit env _ (begin_total mp)), pick_app,
    begin_writes.
  set (w1 := after env (begin mp) w).
  rewrite trace_tryCatch, after_tryCatch, pick_app.
  destruct (attempt_progress url note w1) as [(Ho & Hp & Hc) | (e & Ho & Hp)];
    rewrite Ho, Hp.
  - right. split; [reflexivity | exact Hc].
  - destruct (onError_progress url e
                (after env (promptPhase url note ;; videoPhase url) w1))
      as [(Hp' & Hc') | Hp']; rewrite Hp'.
    + right. split; [reflexivity | exact Hc'].
    + left. reflexivity.
Qed.

End GenerationProgress.

(** The eased curve at the start, in the middle, at the end and after the
    end of its 50 seconds. *)
Example newProgress_samples :
  (GenerateComponent.newProgress 0 == 10 /\
   GenerateComponent.newProgress 12500 == 20 /\
   GenerateComponent.newProgress 25000 == 50 /\
   GenerateComponent.newProgress 50000 == 90 /\
   GenerateComponent.newProgress 60000 == 90)%Q.
Proof. repeat split; vm_compute; reflexivity. Qed.

(** C7: (1) [setProgress] stores [max(0, min(100, p))]; for every number
    [p] but [NaN] that is a finite value in [0, 100], for a finite [p] the
    clamped rational; (2) after any sequence of store actions from the
    initial state in which [setProgress] is never handed [NaN], the stored
    progress is a finite value in [0, 100]; (3) a tick of the enhancement
    ticker writes exactly [min(prev + 10, 90)], which is at most 90; (4) a
    tick of the generation ticker writes exactly [min(90, eased value)]
    for the time the clock answers, which is at most 90; (5) the
    enhancement step itself writes 0 at its start and 100 only once a
    provider has returned (then 0 again when there is no image in what it
    returned), and 0 when the providers failed; (6) the generation step
    itself writes 10 at its start and 100 only when a video has been
    stored. *)
Theorem progress_bounds :
  (forall p s,
     progress (memoryStore.setProgress p s) = Js.Math_max 0 (Js.Math_min 100 p) /\
     (p <> Js.NaN -> percentage (progress (memoryStore.setProgress p s)))) /\
  (forall (q : Q) s,
     progress (memoryStore.setProgress q s) = Js.Finite (Qmax 0 (Qmin 100 q))) /\
  (forall actions,
     forallb (fun a => negb (setsNaN a)) actions = true ->
     percentage (progress (fold_left memoryStore.act actions memoryStore.initialState))) /\
  (forall env w,
     trace env EnhanceComponent.progressTick w
       = [Wrote enh_enhanceProgress (Qmin (read enh_enhanceProgress w + 10) 90)] /\
     (Qmin (read enh_enhanceProgress w + 10) 90 <= 90)%Q) /\
  (forall (env : Env) (w : World) (startTime now : Z),
     env _ (log w) Date_now = now ->
     pick progressWrite (trace env (GenerateComponent.gentleProgressTick startTime) w)
       = [Qmin 90 (GenerateComponent.newProgress (now - startTime))] /\
     (Qmin 90 (GenerateComponent.newProgress (now - startTime)) <= 90)%Q) /\
  (forall env w url,
     Js.nonEmpty url = true ->
     pick enhanceProgressWrite
          (trace env (EnhanceComponent.startEnhancement (Some url)) w)
       = 0%Q ::
         match outcome env (EnhanceComponent.enhance url)
                       (after env EnhanceComponent.begin w) with
         | inl _ => [0%Q]
         | inr (img, _) => if Js.truthy img then [100%Q] else [100%Q; 0%Q]
         end) /\
  (forall env w url motionPrompt userNote,
     Js.nonEmpty url = true ->
     let step := GenerateComponent.startGeneration (Some url) motionPrompt userNote in
     pick progressWrite (trace env step w) = [10%Q] \/
     (pick progressWrite (trace env step w) = [10%Q; 100%Q] /\
      exists v, videoUrl (read theStore (after env step w)) = Some v)).
Proof.
  repeat apply conj.
  - intros p s. rewrite setProgress_progress. split; [reflexivity | apply clamp_percentage].
  - intros q s. rewrite setProgress_progress. reflexivity.
  - intros actions Ha. apply (actions_percentage actions _ Ha). split; discriminate.
  - intros env w. split; [apply progressTick_trace | apply nextEnhanceProgress_le].
  - intros env w startTime now Hnow. rewrite <- Hnow.
    split; [apply gentleProgressTick_writes | apply Q.le_min_l].
  - intros env w url. apply startEnhancement_writes.
  - intros env w url mp note Hurl. apply (startGeneration_writes env url mp note w Hurl).
Qed.

(** C7 (1), (2) and (4) on values: 150 is stored as 100, a sequence of
    actions that overshoots on both sides ends in [0, 100], and 12.5
    seconds after its start the generation ticker writes 20. *)
Lemma progress_bounds_witness :
  progress (memoryStore.setProgress 150 memoryStore.initialState)
    = Js.Finite (Qmax 0 (Qmin 100 150)) /\
  percentage
    (progress (fold_left memoryStore.act
                 [memoryStore.SetProgress 150; memoryStore.SetProgress Js.NegInfinity;
                  memoryStore.SetProgress (-3)]
                 memoryStore.initialState)) /\
  pick progressWrite
    (trace offline (GenerateComponent.gentleProgressTick (-12500)) freshWorld)
    = [Qmin 90 (GenerateComponent.newProgress (0 - -12500))].
Proof.
  destruct progress_bounds as (_ & H2 & H3 & _ & H5 & _).
  split; [apply H2|]. split; [apply H3; reflexivity|].
  apply (H5 offline freshWorld (-12500)%Z 0%Z). reflexivity.
Defined.

(** The claim of C7 as it was worded fails twice.  [setProgress(NaN)]
    stores [NaN], which is no value in [0, 100]; and the enhancement step
    writes 100 although nothing was completed when the provider returns
    no image: the store holds no enhanced image, the error is shown and
    the progress goes back to 0. *)
Lemma progress_not_always_bounded :
  progress (memoryStore.setProgress Js.NaN memoryStore.initialState) = Js.NaN /\
  ~ percentage (progress (memoryStore.setProgress Js.NaN memoryStore.initialState)) /\
  pick enhanceProgressWrite
    (trace (scripted alternateEmpty)
       (EnhanceComponent.startEnhancement (Some "data:image/jpeg;base64,/9j/4AAQ"))
       freshWorld) = [0%Q; 100%Q; 0%Q] /\
  enhancedImageUrl
    (read theStore
       (after (scripted alternateEmpty)
          (EnhanceComponent.startEnhancement (Some "data:image/jpeg;base64,/9j/4AAQ"))
          freshWorld)) = None /\
  pick enhanceError
    (trace (scripted alternateEmpty)
       (EnhanceComponent.startEnhancement (Some "data:image/jpeg;base64,/9j/4AAQ"))
       freshWorld) = ["No enhanced image was generated"].
Proof.
  split; [reflexivity|]. split; [intros H; exact H|].
  repeat split; vm_compute; reflexivity.
Qed.

(** C7 (5) and (6) on runs: an alternate image provider that fails with a
    primary one that delivers, and a primary video provider that times out
    with no token stored. *)
Example progress_runs :
  pick enhanceProgressWrite
       (trace (scripted alternateDown)
              (EnhanceComponent.startEnhancement (Some "data:image/jpeg;base64,/9j/4AAQ"))
              (write gemini_ai true freshWorld)) = [0%Q; 100%Q] /\
  pick progressWrite
       (trace (scripted pendingForever)
              (GenerateComponent.startGeneration (Some "data:image/jpeg;base64,/9j/4AAQ")
                 "" "")
              (write gemini_ai true freshWorld)) = [10%Q] /\
  read gen_generateError
       (after (scripted pendingForever)
              (GenerateComponent.startGeneration (Some "data:image/jpeg;base64,/9j/4AAQ")
                 "" "")
              (write gemini_ai true freshWorld))
    = Some "Video generation timed out. Please try again.".
Proof. repeat split; vm_compute; reflexivity. Qed.

(* ================================================================== *)
(** * Strings: facts the code relies on *)
(* ================================================================== *)

Section StringFacts.

Lemma append_cons (c : ascii) (s t : string) : String c s ++ t = String c (s ++ t).
Proof. reflexivity. Qed.

Lemma append_nil (t : string) : "" ++ t = t.
Proof. reflexivity. Qed.

Lemma prefix_app (p s t : string) :
  String.prefix p s = true -> String.prefix p (s ++ t) = true.
Proof.
  revert s. induction p as [|c p IH]; intros s H; [now destruct s, t|].
  destruct s as [|d s]; [discriminate|].
  rewrite append_cons. cbn in H |- *.
  destruct (Ascii.ascii_dec c d); [auto | discriminate].
Qed.

Lemma includes_eq (s sub : string) :
  Js.includes s sub =
  String.prefix sub s || match s with
                         | EmptyString => false
                         | String _ t => Js.includes t sub
                         end.
Proof. destruct s; reflexivity. Qed.

Lemma includes_prefix (s p : string) : Js.startsWith s p = true -> Js.includes s p = true.
Proof. unfold Js.startsWith. intros H. rewrite includes_eq. now rewrite H. Qed.

Lemma includes_app_l (s t sub : string) :
  Js.includes s sub = true -> Js.includes (s ++ t) sub = true.
Proof.
  induction s as [|c s IH]; rewrite includes_eq; intros H.
  - rewrite orb_false_r in H. apply (prefix_app sub "" t) in H.
    rewrite includes_eq. now rewrite H.
  - rewrite append_cons. rewrite includes_eq.
    apply orb_true_iff in H. apply orb_true_iff.
    destruct H as [H | H]; [left | right; auto].
    rewrite <- append_cons. now apply prefix_app.
Qed.

Lemma includes_app_r (s t sub : string) :
  Js.includes t sub = true -> Js.includes (s ++ t) sub = true.
Proof.
  intros H. induction s as [|c s IH]; [exact H|].
  rewrite append_cons. rewrite includes_eq. rewrite IH. apply orb_true_r.
Qed.

Lemma takeUntil_app (c : ascii) (a b : string) :
  occurs c a = false -> Js.takeUntil c (a ++ String c b) = a.
Proof.
  induction a as [|d a IH]; intros H; rewrite ?append_nil, ?append_cons; cbn.
  - now rewrite Ascii.eqb_refl.
  - cbn in H. apply orb_false_iff in H. destruct H as [H1 H2]. rewrite H1.
    now rewrite IH.
Qed.

Lemma takeUntil_absent (c : ascii) (a : string) :
  occurs c a = false -> Js.takeUntil c a = a.
Proof.
  induction a as [|d a IH]; cbn; intros H; [reflexivity|].
  apply orb_false_iff in H. destruct H as [H1 H2]. rewrite H1. now rewrite IH.
Qed.

Lemma afterFirst_app (c : ascii) (a b : string) :
  occurs c a = false -> Js.afterFirst c (a ++ String c b) = Some b.
Proof.
  induction a as [|d a IH]; intros H; rewrite ?append_nil, ?append_cons; cbn.
  - now rewrite Ascii.eqb_refl.
  - cbn in H. apply orb_false_iff in H. destruct H as [H1 H2]. rewrite H1.
    now rewrite IH.
Qed.

Lemma occurs_app (c : ascii) (a b : string) :
  occurs c (a ++ b) = occurs c a || occurs c b.
Proof.
  induction a as [|d a IH]; rewrite ?append_nil, ?append_cons; cbn; [reflexivity|].
  rewrite IH. now rewrite orb_assoc.
Qed.

Lemma drop_length_app (a b : string) : Js.drop (String.length a) (a ++ b) = b.
Proof.
  induction a as [|d a IH]; rewrite ?append_nil, ?append_cons; cbn;
    [now destruct b | exact IH].
Qed.

(** ** Trimming *)

Lemma trimEnd_empty_white (s : string) :
  Js.trimEnd s = "" -> Js.trimStart s = "".
Proof.
  induction s as [|c s IH]; cbn; [reflexivity|].
  destruct (Js.trimEnd s) eqn:E; [|discriminate].
  destruct (Js.isWhite c); [intros _; now apply IH | discriminate].
Qed.

Lemma trimEnd_idem (s : string) : Js.trimEnd (Js.trimEnd s) = Js.trimEnd s.
Proof.
  induction s as [|c s IH]; cbn; [reflexivity|].
  destruct (Js.trimEnd s) as [|d t] eqn:E.
  - destruct (Js.isWhite c) eqn:W; cbn; [reflexivity | now rewrite W].
  - cbn [Js.trimEnd]. cbn [Js.trimEnd] in IH. rewrite IH. reflexivity.
Qed.

Lemma trimStart_trimEnd (s : string) :
  Js.trimStart (Js.trimEnd (Js.trimStart s)) = Js.trimEnd (Js.trimStart s).
Proof.
  induction s as [|c s IH]; [reflexivity|].
  cbn [Js.trimStart]. destruct (Js.isWhite c) eqn:W; [exact IH|].
  cbn [Js.trimEnd]. destruct (Js.trimEnd s); rewrite ?W; cbn [Js.trimStart]; now rewrite W.
Qed.

Lemma trim_idem (s : string) : Js.trim (Js.trim s) = Js.trim s.
Proof. unfold Js.trim. rewrite trimStart_trimEnd. apply trimEnd_idem. Qed.

Lemma trimStart_nonWhite (c : ascii) (s : string) :
  Js.isWhite c = false -> Js.trimStart (String c s) = String c s.
Proof. intros W. cbn. now rewrite W. Qed.

(** Trailing white space is not part of a prefix made of other characters. *)
Lemma prefix_trimEnd (p s : string) :
  (forall c, occurs c p = true -> Js.isWhite c = false) ->
  String.prefix p s = true -> String.prefix p (Js.trimEnd s) = true.
Proof.
  revert s. induction p as [|c p IH]; intros s Hp H.
  - now destruct (Js.trimEnd s).
  - destruct s as [|d s]; [discriminate|]. cbn in H.
    destruct (Ascii.ascii_dec c d) as [<- | ]; [|discriminate].
    assert (W : Js.isWhite c = false).
    { apply Hp. cbn. now rewrite Ascii.eqb_refl. }
    assert (IH' : String.prefix p (Js.trimEnd s) = true).
    { apply IH; [|exact H]. intros c' Hc'. apply Hp. cbn. rewrite Hc'. apply orb_true_r. }
    cbn [Js.trimEnd]. destruct (Js.trimEnd s) as [|e t] eqn:E.
    + rewrite W. cbn. destruct (Ascii.ascii_dec c c); [|congruence].
      destruct p; [reflexivity | discriminate].
    + cbn. destruct (Ascii.ascii_dec c c); [exact IH' | congruence].
Qed.

End StringFacts.

(* ================================================================== *)
(** * Programs: results, request budgets, cells left alone *)
(* ================================================================== *)

Section EndsFacts.

Lemma Ends_weaken {A} (Q Q' : A -> Prop) (E E' : JsError -> Prop) (p : Prog A) :
  (forall a, Q a -> Q' a) -> (forall e, E e -> E' e) -> Ends Q E p -> Ends Q' E' p.
Proof.
  intros HQ HE.
  induction p as [a | e | X e k IH | X c k IH | X c v k IH]; cbn; auto.
Qed.

Lemma Ends_bind {A B} (Q' : A -> Prop) (Q : B -> Prop) (E : JsError -> Prop)
      (p : Prog A) (f : A -> Prog B) :
  Ends Q' E p -> (forall a, Q' a -> Ends Q E (f a)) -> Ends Q E (bind p f).
Proof.
  induction p as [a | e | X e k IH | X c k IH | X c v k IH]; cbn; intros Hp Hf; auto.
Qed.

Lemma Ends_tryCatch {A} (Q : A -> Prop) (E' E : JsError -> Prop)
      (p : Prog A) (h : JsError -> Prog A) :
  Ends Q E' p -> (forall e, E' e -> Ends Q E (h e)) -> Ends Q E (tryCatch p h).
Proof.
  induction p as [a | e | X e k IH | X c k IH | X c v k IH]; cbn; intros Hp Hh; auto.
Qed.

Lemma Ends_sound (env : Env) {A} (Q : A -> Prop) (E : JsError -> Prop) (p : Prog A) :
  Ends Q E p ->
  forall w, match outcome env p w with
            | inr a => Q a
            | inl e => E e
            end.
Proof.
  unfold outcome.
  induction p as [a | e | X e k IH | X c k IH | X c v k IH]; cbn; intros Hp w; auto.
  all: apply IH, Hp.
Qed.

Lemma NoThrow_tryFinally {A} (p : Prog A) (f : Prog unit) :
  NoThrow p -> NoThrow f -> NoThrow (tryFinally p f).
Proof.
  induction p as [a | e | X e k IH | X c k IH | X c v k IH]; cbn; intros Hp Hf;
    try contradiction; auto.
  apply NoThrow_bind; cbn; auto.
Qed.

End EndsFacts.

Section BudgetFacts.

Local Open Scope nat_scope.

Lemma Req_eqb_refl (r : Req) : Req_eqb r r = true.
Proof. destruct r; reflexivity. Qed.

Lemma Req_eqb_eq (r r' : Req) : Req_eqb r r' = true -> r = r'.
Proof. destruct r, r'; cbn; intros H; try discriminate; reflexivity. Qed.

Lemma Within_mono (b b' : Budget) {A} (p : Prog A) :
  (forall r, b r <= b' r) -> Within b p -> Within b' p.
Proof.
  revert b b'.
  induction p as [a | e | X e k IH | X c k IH | X c v k IH]; cbn [Within];
    intros b b' Hle Hp; auto.
  - intros x. specialize (Hp x). destruct (request (Called e x)) as [r|].
    + destruct Hp as [Hr Hp]. split; [specialize (Hle r); lia|].
      apply (IH x (spend b r)); [|exact Hp].
      intros r'. unfold spend. destruct (Req_eqb r r'); [specialize (Hle r'); lia | apply Hle].
    + eauto.
  - eauto.
  - eauto.
Qed.

Lemma Within_bind (b1 b2 b : Budget) {A B} (p : Prog A) (f : A -> Prog B) :
  Within b1 p -> (forall a, Within b2 (f a)) -> (forall r, b1 r + b2 r <= b r) ->
  Within b (bind p f).
Proof.
  revert b1 b.
  induction p as [a | e | X e k IH | X c k IH | X c v k IH]; cbn [Within bind];
    intros b1 b Hp Hf Hle; auto.
  - apply (Within_mono b2); [intros r; specialize (Hle r); lia | apply Hf].
  - intros x. specialize (Hp x). destruct (request (Called e x)) as [r|].
    + destruct Hp as [Hr Hp]. split; [specialize (Hle r); lia|].
      apply (IH x (spend b1 r)); [exact Hp | exact Hf |].
      intros r'. unfold spend. destruct (Req_eqb r r') eqn:E.
      * apply Req_eqb_eq in E. subst r'. specialize (Hle r). lia.
      * apply Hle.
    + eauto.
  - eauto.
  - eauto.
Qed.

Lemma Within_tryCatch (b1 b2 b : Budget) {A} (p : Prog A) (h : JsError -> Prog A) :
  Within b1 p -> (forall e, Within b2 (h e)) -> (forall r, b1 r + b2 r <= b r) ->
  Within b (tryCatch p h).
Proof.
  revert b1 b.
  induction p as [a | e | X e k IH | X c k IH | X c v k IH]; cbn [Within tryCatch];
    intros b1 b Hp Hh Hle; auto.
  - apply (Within_mono b2); [intros r; specialize (Hle r); lia | apply Hh].
  - intros x. specialize (Hp x). destruct (request (Called e x)) as [r|].
    + destruct Hp as [Hr Hp]. split; [specialize (Hle r); lia|].
      apply (IH x (spend b1 r)); [exact Hp | exact Hh |].
      intros r'. unfold spend. destruct (Req_eqb r r') eqn:E.
      * apply Req_eqb_eq in E. subst r'. specialize (Hle r). lia.
      * apply Hle.
    + eauto.
  - eauto.
  - eauto.
Qed.

Lemma Within_sound (env : Env) (b : Budget) {A} (p : Prog A) :
  Within b p -> forall w r, requests r (trace env p w) <= b r.
Proof.
  unfold requests. revert b.
  induction p as [a | e | X e k IH | X c k IH | X c v k IH]; cbn [trace Within];
    intros b Hp w r.
  - cbn. lia.
  - cbn. lia.
  - specialize (Hp (env X (log w) e)). cbn [filter]. unfold isRequest at 1.
    destruct (request (Called e (env X (log w) e))) as [r'|].
    + destruct Hp as [Hr Hp]. specialize (IH _ _ Hp (record (Called e (env X (log w) e)) w) r).
      unfold spend in IH.
      destruct (Req_eqb r r') eqn:E.
      * apply Req_eqb_eq in E. subst r'. rewrite Req_eqb_refl in IH. cbn [length]. lia.
      * assert (E' : Req_eqb r' r = false).
        { destruct r, r'; cbn in *; congruence. }
        rewrite E' in IH. exact IH.
    + apply IH, Hp.
  - apply IH, Hp.
  - cbn [filter]. unfold isRequest at 1. cbn [request]. apply IH, Hp.
Qed.

End BudgetFacts.

Lemma Within_bind_rest (b1 b : Budget) {A B} (p : Prog A) (f : A -> Prog B) :
  Within b1 p -> (forall a, Within (fun r => (b r - b1 r)%nat) (f a)) ->
  (forall r, (b1 r <= b r)%nat) -> Within b (bind p f).
Proof.
  intros Hp Hf Hle. apply (Within_bind b1 (fun r => (b r - b1 r)%nat)); auto.
  intros r. specialize (Hle r). lia.
Qed.

Lemma Within_tryCatch_rest (b1 b : Budget) {A} (p : Prog A) (h : JsError -> Prog A) :
  Within b1 p -> (forall e, Within (fun r => (b r - b1 r)%nat) (h e)) ->
  (forall r, (b1 r <= b r)%nat) -> Within b (tryCatch p h).
Proof.
  intros Hp Hh Hle. apply (Within_tryCatch b1 (fun r => (b r - b1 r)%nat)); auto.
  intros r. specialize (Hle r). lia.
Qed.

Lemma Within_tryCatch_quiet (b : Budget) {A} (p : Prog A) (h : JsError -> Prog A) :
  Within b p -> (forall e, Within (budget 0 0 0 0 0 0) (h e)) -> Within b (tryCatch p h).
Proof.
  intros Hp Hh. apply (Within_tryCatch b (budget 0 0 0 0 0 0)); auto.
  intros r. destruct r; cbn; lia.
Qed.

Lemma Within_tryFinally (b : Budget) {A} (p : Prog A) (f : Prog unit) :
  Within b p -> Within (budget 0 0 0 0 0 0) f -> Within b (tryFinally p f).
Proof.
  revert b.
  induction p as [a | e | X e k IH | X c k IH | X c v k IH]; cbn [Within tryFinally];
    intros b Hp Hf; auto.
  - apply (Within_bind (budget 0 0 0 0 0 0) (budget 0 0 0 0 0 0)); cbn; auto.
    intros []; cbn; lia.
  - apply (Within_bind (budget 0 0 0 0 0 0) (budget 0 0 0 0 0 0)); cbn; auto.
    intros []; cbn; lia.
  - intros x. specialize (Hp x). destruct (request (Called e x)) as [r|]; [|auto].
    destruct Hp as [Hr Hp]. split; auto.
Qed.

Create HintDb within.

Ltac within_le := intros []; cbv; lia.

(** What the program at the head of [p] branches on. *)
Ltac head_scrutinee p k :=
  lazymatch p with
  | bind ?q _ => head_scrutinee q k
  | tryCatch ?q _ => head_scrutinee q k
  | tryFinally ?q _ => head_scrutinee q k
  | match ?x with _ => _ end => k x
  end.

Ltac within_step :=
  match goal with
  | |- True => exact I
  | |- _ <> O => cbv; discriminate
  | |- _ /\ _ => split
  | |- forall _, _ => intro
  | |- Within _ ?p => head_scrutinee p ltac:(fun x => destruct x)
  | |- Within _ _ => progress cbn [Within bind tryCatch tryFinally request]
  | |- Within _ (bind _ _) =>
      eapply Within_bind_rest; [solve [eauto with within] | intro | within_le]
  | |- Within _ (tryCatch _ _) =>
      first [ eapply Within_tryCatch_rest; [solve [eauto with within] | intro | within_le]
            | apply Within_tryCatch_quiet; [ | intro] ]
  | |- Within _ (tryFinally _ _) => apply Within_tryFinally
  | |- Within _ _ => eapply Within_mono; [ | solve [eauto with within]]; within_le
  end.

Ltac within := safe_unfold; repeat within_step.

(* ================================================================== *)
(** * How many requests a step can make *)
(* ================================================================== *)

Section Budgets.

Import GenerateComponent.

Lemma generateVideoPromptFromImage_budget url note :
  Within (budget 1 0 0 0 0 1) (GeminiService.generateVideoPromptFromImage url note).
Proof. unfold GeminiService.generateVideoPromptFromImage. within. Qed.

Lemma gemini_enhanceImage_budget b m n :
  Within (budget 1 0 0 0 0 0) (GeminiService.enhanceImage b m n).
Proof. unfold GeminiService.enhanceImage. within. Qed.

Lemma replicate_enhanceImage_budget url note :
  Within (budget 0 0 0 0 1 0) (ReplicateService.enhanceImage url note).
Proof. unfold ReplicateService.enhanceImage. within. Qed.

Lemma generateVideoWithReplicate_budget p img d r a :
  Within (budget 0 0 0 1 0 0) (VeoService.generateVideoWithReplicate p img d r a).
Proof. unfold VeoService.generateVideoWithReplicate. within. Qed.

Lemma pollLoop_budget n : forall op,
  Within (budget 0 0 n 0 0 0) (VeoService.pollLoop None n op).
Proof.
  induction n as [|n IH]; intros op; cbn [VeoService.pollLoop]; [exact I|].
  destruct (done op); [exact I|].
  within.
  all: apply (Within_mono (budget 0 0 n 0 0 0)); [intros []; cbv; lia | apply IH].
Qed.

Lemma retrieve_budget op : Within (budget 0 0 0 0 0 1) (VeoService.retrieve None op).
Proof. unfold VeoService.retrieve. within. Qed.

#[local] Hint Resolve generateVideoPromptFromImage_budget gemini_enhanceImage_budget
  replicate_enhanceImage_budget generateVideoWithReplicate_budget pollLoop_budget
  retrieve_budget : within.

Lemma generateVideo_budget b p m :
  Within (budget 0 1 30 0 0 1) (VeoService.generateVideo b p None m).
Proof.
  unfold VeoService.generateVideo, VeoService.translateError.
  change VeoService.maxPolls with 30%nat. within.
Qed.

#[local] Hint Resolve generateVideo_budget : within.

Lemma generateVideoSimple_budget url p :
  Within (budget 0 1 30 0 0 2) (VeoService.generateVideoSimple url p).
Proof. unfold VeoService.generateVideoSimple. within. Qed.

Lemma stopGentleProgress_budget : Within (budget 0 0 0 0 0 0) stopGentleProgress.
Proof. unfold stopGentleProgress. within. Qed.

#[local] Hint Resolve generateVideoSimple_budget stopGentleProgress_budget : within.

Lemma finish_budget url : Within (budget 0 0 0 0 0 0) (finish url).
Proof. unfold finish, setProgress, setStatusMessage. within. Qed.

Lemma begin_budget mp : Within (budget 0 0 0 0 0 0) (begin mp).
Proof.
  unfold begin, startGentleProgress, clearTimer, setIsGenerating, setGenerateError,
    setProgress, setStatusMessage. within.
Qed.

#[local] Hint Resolve finish_budget begin_budget : within.

Lemma promptPhase_budget url note : Within (budget 1 0 0 0 0 1) (promptPhase url note).
Proof. unfold promptPhase, setStatusMessage. within. Qed.

Lemma videoPhase_budget url : Within (budget 0 1 30 1 0 2) (videoPhase url).
Proof. unfold videoPhase, setStatusMessage, VeoService.init. within. Qed.

Lemma onError_budget url e : Within (budget 0 0 0 1 0 0) (onError url e).
Proof. unfold onError, setGenerateError, setIsGenerating. within. Qed.

#[local] Hint Resolve promptPhase_budget videoPhase_budget onError_budget : within.

Lemma startGeneration_budget img mp note :
  Within (budget 1 1 30 2 0 3) (startGeneration img mp note).
Proof.
  unfold startGeneration, setGenerateError.
  destruct (negb (Js.truthy img)); [within|].
  eapply Within_bind_rest; [apply begin_budget | intro | within_le].
  apply (Within_tryCatch (budget 1 1 30 1 0 3) (budget 0 0 0 1 0 0)).
  - apply (Within_bind (budget 1 0 0 0 0 1) (budget 0 1 30 1 0 2));
      [apply promptPhase_budget | intro; apply videoPhase_budget | within_le].
  - intro. apply onError_budget.
  - within_le.
Qed.

Lemma enhanceWithGemini_budget url :
  Within (budget 1 0 0 0 0 0) (EnhanceComponent.enhanceWithGemini url).
Proof. unfold EnhanceComponent.enhanceWithGemini. within. Qed.

Lemma viaReplicate_budget url tok :
  Within (budget 0 0 0 0 1 0) (EnhanceComponent.viaReplicate url tok).
Proof. unfold EnhanceComponent.viaReplicate, ReplicateService.init. within. Qed.

#[local] Hint Resolve enhanceWithGemini_budget viaReplicate_budget : within.

Lemma enhance_budget url : Within (budget 1 0 0 0 1 0) (EnhanceComponent.enhance url).
Proof. unfold EnhanceComponent.enhance. within. Qed.

Lemma enhance_begin_budget : Within (budget 0 0 0 0 0 0) EnhanceComponent.begin.
Proof.
  unfold EnhanceComponent.begin, EnhanceComponent.setIsEnhancing,
    EnhanceComponent.setEnhanceError, EnhanceComponent.setEnhanceProgress. within.
Qed.

Lemma settle_budget pi result : Within (budget 0 0 0 0 0 0) (EnhanceComponent.settle pi result).
Proof.
  unfold EnhanceComponent.settle, EnhanceComponent.setEnhanceProgress,
    EnhanceComponent.setImageLoaded. within.
Qed.

Lemma enhance_onError_budget pi e :
  Within (budget 0 0 0 0 0 0) (EnhanceComponent.onError pi e).
Proof.
  unfold EnhanceComponent.onError, EnhanceComponent.setIsEnhancing,
    EnhanceComponent.setEnhanceError, EnhanceComponent.setEnhanceProgress. within.
Qed.

#[local] Hint Resolve enhance_budget enhance_begin_budget settle_budget
  enhance_onError_budget : within.

Lemma startEnhancement_budget url :
  Within (budget 1 0 0 0 1 0) (EnhanceComponent.startEnhancement url).
Proof.
  unfold EnhanceComponent.startEnhancement.
  destruct (negb (Js.truthy url)); [within|].
  eapply Within_bind_rest; [apply enhance_begin_budget | intro | within_le].
  apply Within_tryCatch_quiet; [|intro; apply enhance_onError_budget].
  eapply Within_bind_rest; [apply enhance_budget | intro | within_le].
  eapply Within_mono; [|apply settle_budget]. within_le.
Qed.

Lemma handleFile_budget file :
  Within (budget 0 0 0 0 0 0) (UploadComponent.handleFile file).
Proof.
  unfold UploadComponent.handleFile, UploadComponent.setUploadError,
    UploadComponent.setIsProcessing, imageProcessing.processImageForGemini,
    imageProcessing.fileToDataUrl. within.
Qed.

End Budgets.

(** X1: one run of the generation step, whatever the providers answer,
    asks for a motion prompt at most once, starts at most one job of the
    primary video provider and polls it at most 30 times, sends at most
    two requests to the alternate video model, fetches at most three URLs
    and never calls the alternate image model. *)
Theorem generation_request_budget
        (env : Env) (w : World) (enhancedImageUrl : option string)
        (motionPrompt userNote : string) :
  let t := trace env (GenerateComponent.startGeneration enhancedImageUrl
                        motionPrompt userNote) w in
  (requests RGemini t <= 1 /\ requests RVeoStart t <= 1 /\ requests RVeoPoll t <= 30 /\
   requests RSeedance t <= 2 /\ requests RFetch t <= 3 /\ requests RNanoBanana t = 0)%nat.
Proof.
  cbn zeta.
  pose proof (Within_sound env _ _
                (startGeneration_budget enhancedImageUrl motionPrompt userNote) w) as H.
  pose proof (H RGemini); pose proof (H RVeoStart); pose proof (H RVeoPoll);
    pose proof (H RSeedance); pose proof (H RFetch); pose proof (H RNanoBanana).
  cbn [budget] in *. repeat split; lia.
Qed.

(** X2: one run of the enhancement step calls the alternate image model
    at most once and the primary one at most once, and makes no request
    to a video provider and no fetch; handling an uploaded file calls none
    of the providers and makes no fetch. *)
Theorem enhancement_request_budget
        (env : Env) (w : World) (originalImageDataUrl : option string) (file : File) :
  let t := trace env (EnhanceComponent.startEnhancement originalImageDataUrl) w in
  let u := trace env (UploadComponent.handleFile file) w in
  (requests RNanoBanana t <= 1 /\ requests RGemini t <= 1 /\
   requests RVeoStart t = 0 /\ requests RVeoPoll t = 0 /\
   requests RSeedance t = 0 /\ requests RFetch t = 0)%nat /\
  forall r, requests r u = 0%nat.
Proof.
  cbn zeta. split.
  - pose proof (Within_sound env _ _ (startEnhancement_budget originalImageDataUrl) w) as H.
    pose proof (H RGemini); pose proof (H RVeoStart); pose proof (H RVeoPoll);
      pose proof (H RSeedance); pose proof (H RFetch); pose proof (H RNanoBanana).
    cbn [budget] in *. repeat split; lia.
  - intros r. pose proof (Within_sound env _ _ (handleFile_budget file) w r) as H.
    destruct r; cbn [budget] in H; lia.
Qed.

(* ================================================================== *)
(** * No error leaves a handler *)
(* ================================================================== *)

Section Handlers.

Lemma startEnhancement_total url : NoThrow (EnhanceComponent.startEnhancement url).
Proof.
  unfold EnhanceComponent.startEnhancement. total.
  - apply enhance_begin_total.
  - apply enhance_onError_total.
Qed.

Lemma enhance_onMount_total : NoThrow EnhanceComponent.onMount.
Proof. unfold EnhanceComponent.onMount. total. apply startEnhancement_total. Qed.

Lemma generate_onMount_total : NoThrow GenerateComponent.onMount.
Proof.
  unfold GenerateComponent.onMount, GenerateComponent.setStatusMessage. total.
  apply startGeneration_total.
Qed.

Lemma handleFile_total file : NoThrow (UploadComponent.handleFile file).
Proof.
  unfold UploadComponent.handleFile, UploadComponent.setUploadError,
    UploadComponent.setIsProcessing. total.
  apply NoThrow_tryFinally; total.
Qed.

Lemma onSelect_total files : NoThrow (UploadComponent.onSelect files).
Proof. unfold UploadComponent.onSelect. total. all: apply handleFile_total. Qed.

Lemma onNoteChange_total v : NoThrow (EnhanceComponent.onNoteChange v).
Proof. unfold EnhanceComponent.onNoteChange. total. Qed.

Lemma revokeIfBlob_total url : NoThrow (useMemoryStore.revokeIfBlob url).
Proof. unfold useMemoryStore.revokeIfBlob. total. Qed.

Lemma resetWorkflow_total : NoThrow useMemoryStore.resetWorkflow.
Proof. unfold useMemoryStore.resetWorkflow. total. all: apply revokeIfBlob_total. Qed.

Lemma clearMedia_total : NoThrow useMemoryStore.clearMedia.
Proof. unfold useMemoryStore.clearMedia. total. all: apply revokeIfBlob_total. Qed.

End Handlers.

(** X3: no exception leaves the handlers the components install: the
    generation and the enhancement step (and their mount effects and retry
    buttons), the upload handlers, the note field and the two resets of
    the store all return, whatever the browser and the providers answer. *)
Theorem handlers_return (env : Env) (w : World) :
  (forall img mp note,
     outcome env (GenerateComponent.startGeneration img mp note) w = inr tt /\
     outcome env (GenerateComponent.retry img mp note) w = inr tt) /\
  outcome env GenerateComponent.onMount w = inr tt /\
  (forall url,
     outcome env (EnhanceComponent.startEnhancement url) w = inr tt /\
     outcome env (EnhanceComponent.retry url) w = inr tt) /\
  outcome env EnhanceComponent.onMount w = inr tt /\
  (forall v, outcome env (EnhanceComponent.onNoteChange v) w = inr tt) /\
  (forall file, outcome env (UploadComponent.handleFile file) w = inr tt) /\
  (forall files, outcome env (UploadComponent.onSelect files) w = inr tt) /\
  outcome env useMemoryStore.resetWorkflow w = inr tt /\
  outcome env useMemoryStore.clearMedia w = inr tt.
Proof.
  repeat split; intros; apply NoThrow_unit.
  - apply startGeneration_total.
  - apply startGeneration_total.
  - apply generate_onMount_total.
  - apply startEnhancement_total.
  - apply startEnhancement_total.
  - apply enhance_onMount_total.
  - apply onNoteChange_total.
  - apply handleFile_total.
  - apply onSelect_total.
  - apply resetWorkflow_total.
  - apply clearMedia_total.
Qed.

(* ================================================================== *)
(** * Cells a run leaves alone *)
(* ================================================================== *)

Section Frames.

Variable env : Env.

Lemma requests_app (r : Req) (t u : list Ev) :
  requests r (t ++ u)%list = (requests r t + requests r u)%nat.
Proof. unfold requests. now rewrite filter_app, length_app. Qed.

Lemma requests_none (r : Req) (t : list Ev) :
  Forall (fun ev => request ev = None) t -> requests r t = 0%nat.
Proof.
  intros H. unfold requests. rewrite filter_nil; [reflexivity|].
  revert H. apply Forall_impl. intros ev Hev. unfold isRequest. now rewrite Hev.
Qed.

Lemma isStoreWrite_writes (ev : Ev) : isStoreWrite ev = writesCell theStore ev.
Proof. destruct ev as [X e x | X c v]; [reflexivity|]. destruct c; reflexivity. Qed.

(** A cell no event of the run writes holds afterwards what it held. *)
Lemma frame {X} (c : Cell X) {A} (p : Prog A) : forall w,
  Forall (fun ev => writesCell c ev = false) (trace env p w) ->
  read c (after env p w) = read c w.
Proof.
  unfold after.
  induction p as [a | e | Y e k IH | Y d k IH | Y d v k IH]; cbn [trace run fst];
    intros w H; try reflexivity.
  - inversion H; subst. rewrite IH by assumption. reflexivity.
  - apply IH, H.
  - inversion H as [|ev t Hd Ht]; subst. rewrite IH by assumption.
    cbn in Hd. unfold read, record, write. cbn [cells].
    destruct (sameCell d c); [discriminate | reflexivity].
Qed.

Lemma frame_store {A} (p : Prog A) (w : World) :
  Forall (fun ev => isStoreWrite ev = false) (trace env p w) ->
  read theStore (after env p w) = read theStore w.
Proof.
  intros H. apply frame. revert H. apply Forall_impl.
  intros ev Hev. now rewrite <- isStoreWrite_writes.
Qed.

Lemma quiet_store {A} (p : Prog A) (w : World) :
  Safe anyAnswer quiet p -> Forall (fun ev => isStoreWrite ev = false) (trace env p w).
Proof.
  intros Hp.
  pose proof (Safe_sound anyAnswer quiet env (fun _ _ _ => I) _ Hp w) as H.
  revert H. apply Forall_impl. now intros ev (_ & _ & _ & _ & H).
Qed.

Lemma quiet_surfaced {A} (p : Prog A) (w : World) :
  Safe anyAnswer quiet p -> pick surfacedError (trace env p w) = [].
Proof.
  intros Hp. apply pick_nil.
  pose proof (Safe_sound anyAnswer quiet env (fun _ _ _ => I) _ Hp w) as H.
  revert H. apply Forall_impl. now intros ev (_ & _ & H & _).
Qed.

End Frames.

(** Events that satisfy a predicate given by a boolean or optional reader:
    the goal is closed by evaluation. *)
Ltac reads_step :=
  match goal with
  | |- True => exact I
  | |- _ = false => reflexivity
  | |- _ = None => reflexivity
  | |- _ /\ _ => split
  | |- forall _, _ => intro
  | |- Safe _ _ ?p => head_scrutinee p ltac:(fun x => destruct x)
  | |- Safe _ _ _ => progress cbn [Safe bind tryCatch tryFinally]
  | |- Safe _ _ (bind _ _) => apply Safe_bind; [ | intro]
  | |- Safe _ _ (tryCatch _ _) => apply Safe_tryCatch; [ | intro]
  | |- Safe _ _ (tryFinally _ _) => apply Safe_tryFinally
  | |- Safe _ _ _ => solve [eauto with safe]
  end.

Ltac reads := safe_unfold; repeat reads_step.

(* ================================================================== *)
(** * Generation: what a run does, case by case *)
(* ================================================================== *)

Section GenerationRun.

Import GenerateComponent.

Variable env : Env.

Lemma begin_keeps_store mp : Safe anyAnswer (fun ev => isStoreWrite ev = false) (begin mp).
Proof.
  unfold begin, startGentleProgress, clearTimer, setIsGenerating, setGenerateError,
    setProgress, setStatusMessage. reads.
Qed.

Lemma stopGentleProgress_keeps_store :
  Safe anyAnswer (fun ev => isStoreWrite ev = false) stopGentleProgress.
Proof. unfold stopGentleProgress. reads. Qed.

(** The step on an image: the statements before the [try], the prompt
    phase, which cannot fail, then the video phase under the handler. *)
Lemma startGeneration_split (url mp note : string) (w : World) :
  Js.nonEmpty url = true ->
  let w1 := after env (begin mp) w in
  let w2 := after env (promptPhase url note) w1 in
  let rest := tryCatch (videoPhase url) (onError url) in
  run env (startGeneration (Some url) mp note) w = run env rest w2 /\
  trace env (startGeneration (Some url) mp note) w =
    (trace env (begin mp) w ++ trace env (promptPhase url note) w1
     ++ trace env rest w2)%list.
Proof.
  intros Hurl w1 w2 rest.
  unfold startGeneration. cbn [Js.truthy]. rewrite Hurl. cbn [negb].
  rewrite (orElse_some url "" Hurl).
  pose proof (NoThrow_unit env _ (begin_total mp) w) as Hb.
  pose proof (NoThrow_unit env _ (promptPhase_total url note) w1) as Hp.
  split.
  - rewrite run_bind, Hb. fold w1.
    rewrite run_tryCatch, outcome_bind, after_bind, Hp. fold w2.
    unfold rest. rewrite run_tryCatch. reflexivity.
  - rewrite trace_bind, Hb. fold w1.
    rewrite trace_tryCatch, outcome_bind, after_bind, trace_bind, Hp. fold w2.
    unfold rest. rewrite trace_tryCatch. now rewrite <- !app_assoc.
Qed.

(** Before the video phase nothing is stored, no error is shown and the
    alternate video model is not called. *)
Lemma before_videoPhase (url mp note : string) (w : World) :
  let w1 := after env (begin mp) w in
  let w2 := after env (promptPhase url note) w1 in
  let pre := (trace env (begin mp) w ++ trace env (promptPhase url note) w1)%list in
  read theStore w2 = read theStore w /\
  pick surfacedError pre = [] /\
  requests RSeedance pre = 0%nat /\
  requests RVeoStart pre = 0%nat /\
  requests RVeoPoll pre = 0%nat.
Proof.
  intros w1 w2 pre.
  split; [|split; [|split; [|split]]].
  - unfold w2. rewrite frame_store by apply quiet_store, promptPhase_quiet.
    unfold w1. apply frame_store.
    apply (Safe_sound anyAnswer _ env (fun _ _ _ => I)), begin_keeps_store.
  - unfold pre. rewrite pick_app.
    rewrite (pick_nil surfacedError (trace env (begin mp) w))
      by apply begin_trace_unsurfaced.
    apply quiet_surfaced, promptPhase_quiet.
  - unfold pre. rewrite requests_app.
    pose proof (Within_sound env _ _ (begin_budget mp) w RSeedance).
    pose proof (Within_sound env _ _ (promptPhase_budget url note) w1 RSeedance).
    cbn [budget] in *. lia.
  - unfold pre. rewrite requests_app.
    pose proof (Within_sound env _ _ (begin_budget mp) w RVeoStart).
    pose proof (Within_sound env _ _ (promptPhase_budget url note) w1 RVeoStart).
    cbn [budget] in *. lia.
  - unfold pre. rewrite requests_app.
    pose proof (Within_sound env _ _ (begin_budget mp) w RVeoPoll).
    pose proof (Within_sound env _ _ (promptPhase_budget url note) w1 RVeoPoll).
    cbn [budget] in *. lia.
Qed.

(** What a run of the step on an image shows is what its video phase,
    under the handler, shows. *)
Lemma startGeneration_summary (url mp note : string) (w : World) :
  Js.nonEmpty url = true ->
  let w2 := after env (promptPhase url note) (after env (begin mp) w) in
  let rest := tryCatch (videoPhase url) (onError url) in
  let step := startGeneration (Some url) mp note in
  outcome env step w = outcome env rest w2 /\
  after env step w = after env rest w2 /\
  read theStore w2 = read theStore w /\
  pick surfacedError (trace env step w) = pick surfacedError (trace env rest w2) /\
  requests RSeedance (trace env step w) = requests RSeedance (trace env rest w2) /\
  requests RVeoStart (trace env step w) = requests RVeoStart (trace env rest w2) /\
  requests RVeoPoll (trace env step w) = requests RVeoPoll (trace env rest w2).
Proof.
  intros Hurl w2 rest step.
  destruct (startGeneration_split url mp note w Hurl) as [Hrun Htrace].
  destruct (before_videoPhase url mp note w) as (Hstore & Hshown & Hs & Hv & Hp).
  fold w2 in Hrun, Htrace, Hstore. fold rest in Hrun, Htrace. fold step in Hrun, Htrace.
  split; [unfold outcome; now rewrite Hrun|].
  split; [unfold after; now rewrite Hrun|].
  split; [exact Hstore|].
  rewrite Htrace, app_assoc.
  set (pre := (trace env (begin mp) w
               ++ trace env (promptPhase url note) (after env (begin mp) w))%list) in *.
  rewrite pick_app, !requests_app, Hshown, Hs, Hv, Hp.
  repeat split.
Qed.

End GenerationRun.

Section DirectFailure.

Import GenerateComponent.

Variable env : Env.
Variables (tok url msg : string) (res : Response (option string)).
Hypothesis tok_nonEmpty : Js.nonEmpty tok = true.
Hypothesis url_nonEmpty : Js.nonEmpty url = true.
Hypothesis token_there :
  forall h, env _ h (localStorage_getItem "REPLICATE_API_TOKEN") = Some tok.
Hypothesis seedance_answer :
  forall h token input, env _ h (replicate_seedance token input) = inr res.
Hypothesis refused :
  (ok res = false /\
   msg = "Replicate failed (" ++ Js.showZ (status res) ++ "): " ++ text res) \/
  (ok res = true /\ (exists out, json res = inr out /\ Js.truthy out = false) /\
   msg = "Replicate did not return an output URL.").

Lemma refused_message : Js.includes msg "Replicate" = true /\ Js.nonEmpty msg = true.
Proof.
  destruct refused as [[_ ->] | (_ & _ & ->)].
  - split; [|reflexivity]. apply includes_prefix. unfold Js.startsWith.
    apply (prefix_app "Replicate" "Replicate failed ("). reflexivity.
  - split; vm_compute; reflexivity.
Qed.

Lemma videoPhase_refused (w : World) :
  outcome env (videoPhase url) w = inl (ErrorObj msg) /\
  trace env (videoPhase url) w =
    [ Called (localStorage_getItem "REPLICATE_API_TOKEN") (Some tok);
      Wrote gen_statusMessage "Generating video...";
      Called (localStorage_getItem "REPLICATE_API_TOKEN") (Some tok);
      Called (replicate_seedance tok
                {| sd_prompt := read gen_prompt w; duration := 5; resolution := "480p";
                   aspect_ratio := "16:9"; image := Some url; fps := 24;
                   camera_fixed := false |}) (inr res) ].
Proof.
  unfold outcome, videoPhase, VeoService.generateVideoWithReplicate, setStatusMessage.
  safe_unfold. cbn [bind trace run]. rewrite !token_there. cbn [Js.truthy].
  rewrite tok_nonEmpty. cbn [bind trace run]. rewrite !token_there. cbn [Js.truthy negb].
  rewrite tok_nonEmpty. cbn [negb bind trace run]. rewrite !seedance_answer.
  rewrite (orElse_some tok "" tok_nonEmpty). rewrite url_nonEmpty.
  cbn [bind trace run].
  destruct refused as [[Hok ->] | (Hok & (out & Hjson & Hout) & ->)];
    rewrite Hok; cbn [negb bind trace run snd]; [split; reflexivity|].
  rewrite Hjson. cbn [bind trace run]. rewrite Hout. cbn [negb bind trace run snd].
  split; reflexivity.
Qed.

Lemma onError_refused (w : World) :
  outcome env (onError url (ErrorObj msg)) w = inr tt /\
  trace env (onError url (ErrorObj msg)) w =
    (Called (localStorage_getItem "REPLICATE_API_TOKEN") (Some tok)
     :: trace env stopGentleProgress
          (record (Called (localStorage_getItem "REPLICATE_API_TOKEN") (Some tok)) w)
     ++ [ Wrote gen_generateError (Some msg); Wrote gen_isGenerating false ])%list.
Proof.
  destruct refused_message as [Hinc Hne].
  unfold outcome, onError, setGenerateError, setIsGenerating, stopGentleProgress.
  safe_unfold. cbn [bind trace run messageOf]. rewrite !token_there. cbn [Js.truthy].
  rewrite tok_nonEmpty, Hinc, Hne. cbn [negb andb bind trace run].
  destruct (liveTimer _); cbn [bind trace run snd List.app]; split; reflexivity.
Qed.

Lemma rest_refused (w : World) :
  let rest := tryCatch (videoPhase url) (onError url) in
  outcome env rest w = inr tt /\
  requests RSeedance (trace env rest w) = 1%nat /\
  pick surfacedError (trace env rest w) = [msg] /\
  read theStore (after env rest w) = read theStore w.
Proof.
  intros rest.
  destruct (videoPhase_refused w) as [Hvout Hvtrace].
  destruct (onError_refused (after env (videoPhase url) w)) as [Heout Hetrace].
  assert (Hstop : forall w', Forall (fun ev => isStoreWrite ev = false)
                               (trace env stopGentleProgress w')).
  { intros w'. apply (Safe_sound anyAnswer _ env (fun _ _ _ => I)),
      stopGentleProgress_keeps_store. }
  assert (Htr : trace env rest w =
                (trace env (videoPhase url) w
                 ++ trace env (onError url (ErrorObj msg))
                      (after env (videoPhase url) w))%list).
  { unfold rest. rewrite trace_tryCatch, Hvout. reflexivity. }
  split; [|split; [|split]].
  - unfold rest. rewrite outcome_tryCatch, Hvout. exact Heout.
  - rewrite Htr, requests_app, Hvtrace, Hetrace.
    pose proof (Within_sound env _ _ stopGentleProgress_budget
                  (record (Called (localStorage_getItem "REPLICATE_API_TOKEN") (Some tok))
                     (after env (videoPhase url) w)) RSeedance) as Hs.
    cbn [budget] in Hs.
    change (Called ?e ?x :: ?t ++ ?u)%list with ([Called e x] ++ t ++ u)%list.
    rewrite !requests_app.
    match goal with
    | H : (requests RSeedance ?t <= 0)%nat |- _ =>
        set (n := requests RSeedance t) in *
    end.
    clearbody n. cbn. lia.
  - rewrite Htr, pick_app, Hvtrace, Hetrace.
    cbn [List.app pick surfacedError]. rewrite pick_app.
    rewrite (pick_nil surfacedError (trace env stopGentleProgress _)).
    + reflexivity.
    + apply (Safe_sound anyAnswer unsurfaced env (fun _ _ _ => I)),
        stopGentleProgress_unsurfaced.
  - apply frame_store. rewrite Htr, Hvtrace, Hetrace.
    repeat (apply Forall_cons; [reflexivity|]).
    apply Forall_app. split; [apply Hstop|]. repeat constructor.
Qed.

End DirectFailure.

(** X4: when the alternate credential is stored and the alternate video
    model refuses the request (an HTTP status that is not OK, or a reply
    without an output URL), the generation step does not try again: that
    request is the only one, its error is the one error shown, and the
    store is left as it was. *)
Theorem replicate_refusal_not_retried
        (env : Env) (w : World) (tok url motionPrompt userNote msg : string)
        (res : Response (option string)) :
  Js.nonEmpty tok = true ->
  Js.nonEmpty url = true ->
  (forall h, env _ h (localStorage_getItem "REPLICATE_API_TOKEN") = Some tok) ->
  (forall h token input, env _ h (replicate_seedance token input) = inr res) ->
  (ok res = false /\
   msg = "Replicate failed (" ++ Js.showZ (status res) ++ "): " ++ text res) \/
  (ok res = true /\ (exists out, json res = inr out /\ Js.truthy out = false) /\
   msg = "Replicate did not return an output URL.") ->
  let step := GenerateComponent.startGeneration (Some url) motionPrompt userNote in
  outcome env step w = inr tt /\
  requests RSeedance (trace env step w) = 1%nat /\
  pick surfacedError (trace env step w) = [msg] /\
  read theStore (after env step w) = read theStore w.
Proof.
  intros Htok Hurl Hthere Hseed Href step.
  destruct (startGeneration_summary env url motionPrompt userNote w Hurl)
    as (Hout & Haft & Hstore & Hshown & Hreq & _).
  destruct (rest_refused env tok url msg res Htok Hurl Hthere Hseed Href
              (after env (GenerateComponent.promptPhase url userNote)
                 (after env (GenerateComponent.begin motionPrompt) w)))
    as (H1 & H2 & H3 & H4).
  unfold step. rewrite Hout, Haft, Hshown, Hreq, <- Hstore. auto.
Qed.

(** X4 with a stored token and an alternate video model that answers 500. *)
Lemma replicate_refusal_not_retried_witness :
  let step := GenerateComponent.startGeneration
                (Some "data:image/jpeg;base64,/9j/4AAQ") "" "" in
  outcome (scripted seedanceDown) step freshWorld = inr tt /\
  requests RSeedance (trace (scripted seedanceDown) step freshWorld) = 1%nat /\
  pick surfacedError (trace (scripted seedanceDown) step freshWorld)
    = ["Replicate failed (500): Internal Server Error"] /\
  read theStore (after (scripted seedanceDown) step freshWorld) = read theStore freshWorld.
Proof.
  apply (replicate_refusal_not_retried (scripted seedanceDown) freshWorld "r8_example"
           "data:image/jpeg;base64,/9j/4AAQ" "" ""
           "Replicate failed (500): Internal Server Error"
           (failedResponse 500 "Internal Server Error")).
  - reflexivity.
  - reflexivity.
  - intros h. reflexivity.
  - intros h token input. reflexivity.
  - left. split; reflexivity.
Defined.

Section NoCredentials.

Import GenerateComponent.

Variable env : Env.
Variable url : string.
Hypothesis nothing_stored : forall h key, env _ h (localStorage_getItem key) = None.

Lemma rest_without_credentials (w : World) :
  let rest := tryCatch (videoPhase url) (onError url) in
  outcome env rest w = inr tt /\
  pick surfacedError (trace env rest w)
    = ["API key not found. Please set your API key."] /\
  (forall r, requests r (trace env rest w) = 0%nat) /\
  read theStore (after env rest w) = read theStore w.
Proof.
  intros rest.
  assert (Hv : outcome env (videoPhase url) w
               = inl (ErrorObj "API key not found. Please set your API key.") /\
               trace env (videoPhase url) w
               = [ Called (localStorage_getItem "REPLICATE_API_TOKEN") None;
                   Called (localStorage_getItem "VEO_API_KEY") None;
                   Called (localStorage_getItem "GEMINI_API_KEY") None ]).
  { unfold outcome, videoPhase. safe_unfold.
    repeat first [ rewrite nothing_stored
                 | progress cbn [Js.truthy negb bind trace run snd] ].
    split; reflexivity. }
  destruct Hv as [Hvout Hvtrace].
  set (w' := after env (videoPhase url) w).
  assert (He : outcome env (onError url (ErrorObj
                 "API key not found. Please set your API key.")) w' = inr tt /\
               trace env (onError url (ErrorObj
                 "API key not found. Please set your API key.")) w'
               = (Called (localStorage_getItem "REPLICATE_API_TOKEN") None
                  :: trace env stopGentleProgress
                       (record (Called (localStorage_getItem "REPLICATE_API_TOKEN") None) w')
                  ++ [ Wrote gen_generateError
                         (Some "API key not found. Please set your API key.");
                       Wrote gen_isGenerating false ])%list).
  { unfold outcome, onError, setGenerateError, setIsGenerating, stopGentleProgress.
    safe_unfold. cbn [bind trace run messageOf]. rewrite !nothing_stored.
    cbn [Js.truthy Js.nonEmpty negb andb bind trace run].
    destruct (liveTimer _); cbn [bind trace run snd List.app]; split; reflexivity. }
  destruct He as [Heout Hetrace].
  assert (Htr : trace env rest w =
                (trace env (videoPhase url) w
                 ++ trace env (onError url (ErrorObj
                      "API key not found. Please set your API key.")) w')%list).
  { unfold rest. rewrite trace_tryCatch, Hvout. reflexivity. }
  split; [|split; [|split]].
  - unfold rest. rewrite outcome_tryCatch, Hvout. exact Heout.
  - rewrite Htr, pick_app, Hvtrace, Hetrace.
    cbn [List.app pick surfacedError]. rewrite pick_app.
    rewrite (pick_nil surfacedError (trace env stopGentleProgress _)).
    + reflexivity.
    + apply (Safe_sound anyAnswer unsurfaced env (fun _ _ _ => I)),
        stopGentleProgress_unsurfaced.
  - intros r. rewrite Htr, requests_app, Hvtrace, Hetrace.
    pose proof (Within_sound env _ _ stopGentleProgress_budget
                  (record (Called (localStorage_getItem "REPLICATE_API_TOKEN") None) w')
                  r) as Hs.
    change (Called ?e ?x :: ?t ++ ?u)%list with ([Called e x] ++ t ++ u)%list.
    rewrite !requests_app.
    match goal with
    | H : (requests r ?t <= _)%nat |- _ => set (n := requests r t) in *
    end.
    clearbody n. destruct r; cbn in *; lia.
  - apply frame_store. rewrite Htr, Hvtrace, Hetrace.
    repeat (apply Forall_cons; [reflexivity|]).
    apply Forall_app. split; [|repeat constructor].
    apply (Safe_sound anyAnswer _ env (fun _ _ _ => I)), stopGentleProgress_keeps_store.
Qed.

End NoCredentials.

(** X5: with no credential in the browser's storage (no alternate token,
    no VEO key, no Gemini key) the generation step asks neither video
    provider for anything: it shows the one error [API key not found.
    Please set your API key.] and leaves the store as it was. *)
Theorem generation_without_credentials
        (env : Env) (w : World) (url motionPrompt userNote : string) :
  Js.nonEmpty url = true ->
  (forall h key, env _ h (localStorage_getItem key) = None) ->
  let step := GenerateComponent.startGeneration (Some url) motionPrompt userNote in
  outcome env step w = inr tt /\
  pick surfacedError (trace env step w)
    = ["API key not found. Please set your API key."] /\
  requests RSeedance (trace env step w) = 0%nat /\
  requests RVeoStart (trace env step w) = 0%nat /\
  requests RVeoPoll (trace env step w) = 0%nat /\
  read theStore (after env step w) = read theStore w.
Proof.
  intros Hurl Hnone step.
  destruct (startGeneration_summary env url motionPrompt userNote w Hurl)
    as (Hout & Haft & Hstore & Hshown & Hs & Hv & Hp).
  destruct (rest_without_credentials env url Hnone
              (after env (GenerateComponent.promptPhase url userNote)
                 (after env (GenerateComponent.begin motionPrompt) w)))
    as (H1 & H2 & H3 & H4).
  unfold step. rewrite Hout, Haft, Hshown, Hs, Hv, Hp, <- Hstore, !H3.
  repeat split; assumption.
Qed.

(** X5 in a browser with an empty storage and no network. *)
Lemma generation_without_credentials_witness :
  let step := GenerateComponent.startGeneration
                (Some "data:image/jpeg;base64,/9j/4AAQ") "" "" in
  outcome offline step freshWorld = inr tt /\
  pick surfacedError (trace offline step freshWorld)
    = ["API key not found. Please set your API key."] /\
  requests RSeedance (trace offline step freshWorld) = 0%nat /\
  requests RVeoStart (trace offline step freshWorld) = 0%nat /\
  requests RVeoPoll (trace offline step freshWorld) = 0%nat /\
  read theStore (after offline step freshWorld) = read theStore freshWorld.
Proof.
  apply (generation_without_credentials offline freshWorld
           "data:image/jpeg;base64,/9j/4AAQ" "" "").
  - reflexivity.
  - intros h key. reflexivity.
Defined.

Section DirectSuccess.

Import GenerateComponent.

Variable env : Env.
Variables (tok url out : string) (res : Response (option string)).
Hypothesis tok_nonEmpty : Js.nonEmpty tok = true.
Hypothesis url_nonEmpty : Js.nonEmpty url = true.
Hypothesis out_nonEmpty : Js.nonEmpty out = true.
Hypothesis token_there :
  forall h, env _ h (localStorage_getItem "REPLICATE_API_TOKEN") = Some tok.
Hypothesis seedance_answer :
  forall h token input, env _ h (replicate_seedance token input) = inr res.
Hypothesis delivered : ok res = true /\ json res = inr (Some out).

Lemma rest_delivers (w : World) :
  let rest := tryCatch (videoPhase url) (onError url) in
  outcome env rest w = inr tt /\
  requests RSeedance (trace env rest w) = 1%nat /\
  pick surfacedError (trace env rest w) = [] /\
  read theStore (after env rest w) = memoryStore.setVideoUrl out (read theStore w) /\
  pick timerSet (trace env rest w) = [(AdvanceTo complete, 1200%Z)].
Proof.
  intros rest. destruct delivered as [Hok Hjson].
  unfold rest, outcome, after, videoPhase, VeoService.generateVideoWithReplicate, finish,
    stopGentleProgress, setStatusMessage, setProgress.
  safe_unfold.
  repeat first [ rewrite token_there | rewrite seedance_answer | rewrite tok_nonEmpty
               | rewrite Hok | rewrite Hjson | rewrite out_nonEmpty
               | progress cbn [Js.truthy negb bind tryCatch trace run] ].
  destruct (liveTimer _);
    cbn [bind tryCatch trace run fst snd pick surfacedError timerSet requests filter
           isRequest request Req_eqb length];
    rewrite ?(orElse_some out "" out_nonEmpty); repeat split.
Qed.

End DirectSuccess.

(** X6: when the alternate credential is stored and the alternate video
    model answers with an output URL, the generation step stores that URL
    as the video, which moves the workflow to [complete] with progress 100
    and processing off; it shows no error, made that one request, and
    arms the 1200 ms timer that confirms the [complete] step. *)
Theorem replicate_delivers_video
        (env : Env) (w : World) (tok url out motionPrompt userNote : string)
        (res : Response (option string)) :
  Js.nonEmpty tok = true ->
  Js.nonEmpty url = true ->
  Js.nonEmpty out = true ->
  (forall h, env _ h (localStorage_getItem "REPLICATE_API_TOKEN") = Some tok) ->
  (forall h token input, env _ h (replicate_seedance token input) = inr res) ->
  ok res = true /\ json res = inr (Some out) ->
  let step := GenerateComponent.startGeneration (Some url) motionPrompt userNote in
  let s' := read theStore (after env step w) in
  outcome env step w = inr tt /\
  s' = memoryStore.setVideoUrl out (read theStore w) /\
  (videoUrl s' = Some out /\ currentStep s' = complete /\
   isProcessing s' = false /\ progress s' = 100%Q) /\
  pick surfacedError (trace env step w) = [] /\
  requests RSeedance (trace env step w) = 1%nat /\
  In (AdvanceTo complete, 1200%Z) (pick timerSet (trace env step w)).
Proof.
  intros Htok Hurl Hout Hthere Hseed Hres step s'.
  destruct (startGeneration_summary env url motionPrompt userNote w Hurl)
    as (Ho & Haft & Hstore & Hshown & Hs & _).
  destruct (startGeneration_split env url motionPrompt userNote w Hurl) as [_ Htrace].
  destruct (rest_delivers env tok url out res Htok Hout Hthere Hseed Hres
              (after env (GenerateComponent.promptPhase url userNote)
                 (after env (GenerateComponent.begin motionPrompt) w)))
    as (H1 & H2 & H3 & H4 & H5).
  assert (Hs' : s' = memoryStore.setVideoUrl out (read theStore w)).
  { unfold s', step. now rewrite Haft, H4, Hstore. }
  unfold step. rewrite Ho, Hshown, Hs.
  split; [exact H1|]. split; [exact Hs'|].
  split; [rewrite Hs'; destruct (read theStore w); repeat split|].
  split; [exact H3|]. split; [exact H2|].
  rewrite Htrace, !pick_app, H5. apply in_or_app. right. apply in_or_app. right.
  left. reflexivity.
Qed.

(** X6 with a stored token and an alternate provider that delivers. *)
Lemma replicate_delivers_video_witness :
  let step := GenerateComponent.startGeneration
                (Some "data:image/jpeg;base64,/9j/4AAQ") "" "" in
  let s' := read theStore (after (scripted replicateReady) step freshWorld) in
  videoUrl s' = Some "https://replicate.delivery/out.mp4" /\
  currentStep s' = complete /\
  pick surfacedError (trace (scripted replicateReady) step freshWorld) = [].
Proof.
  destruct (replicate_delivers_video (scripted replicateReady) freshWorld "r8_example"
              "data:image/jpeg;base64,/9j/4AAQ" "https://replicate.delivery/out.mp4"
              "" "" (okResponse (Some "https://replicate.delivery/out.mp4")))
    as (_ & _ & (H1 & H2 & _) & H3 & _).
  - reflexivity.
  - reflexivity.
  - reflexivity.
  - intros h. reflexivity.
  - intros h token input. reflexivity.
  - split; reflexivity.
  - split; [exact H1 | split; [exact H2 | exact H3]].
Defined.


(* ================================================================== *)
(** * Enhancement: what a run does, case by case *)
(* ================================================================== *)

Section AlternateEnhancement.

Import EnhanceComponent.

Variable env : Env.
Variables (tok url img : string) (res : Response ReplicateOutput).
Hypothesis tok_nonEmpty : Js.nonEmpty tok = true.
Hypothesis url_nonEmpty : Js.nonEmpty url = true.
Hypothesis token_there :
  forall h, env _ h (localStorage_getItem "REPLICATE_API_TOKEN") = Some tok.
Hypothesis nanoBanana_answer :
  forall h token input, env _ h (replicate_nanoBanana token input) = inr res.
Hypothesis answered : ok res = true.
Hypothesis output :
  (exists others, json res = inr (OutArray (img :: others))) \/
  json res = inr (OutString img).

Ltac enhance_run :=
  unfold outcome, after, startEnhancement, begin, enhance, viaReplicate, settle, onError,
    ReplicateService.init, ReplicateService.enhanceImage, setIsEnhancing,
    setEnhanceError, setEnhanceProgress, setImageLoaded;
  safe_unfold;
  cbn [Js.truthy]; rewrite url_nonEmpty; rewrite (orElse_some url "" url_nonEmpty);
  repeat first [ rewrite token_there | rewrite nanoBanana_answer
               | rewrite (orElse_some tok "" tok_nonEmpty) | rewrite tok_nonEmpty
               | rewrite answered
               | progress cbn [Js.truthy negb bind tryCatch trace run read cells write
                                 record sameCell] ].

Lemma alternate_image_run (w : World) :
  Js.nonEmpty img = true ->
  let step := startEnhancement (Some url) in
  outcome env step w = inr tt /\
  read theStore (after env step w)
    = memoryStore.setEnhancedImage img (Some "Enhanced with AI") (read theStore w) /\
  read enh_hasEnhanced (after env step w) = true /\
  pick enhanceError (trace env step w) = [] /\
  pick enhanceProgressWrite (trace env step w) = [0%Q; 100%Q] /\
  pick timerSet (trace env step w) = [(AdvanceTo generate, 3500%Z)] /\
  (forall r, requests r (trace env step w)
             = match r with RNanoBanana => 1%nat | _ => 0%nat end).
Proof.
  intros Himg step. unfold step.
  destruct output as [[others Hjson] | Hjson]; enhance_run; rewrite Hjson;
    cbn [Js.truthy negb bind tryCatch trace run read cells write record sameCell
           ReplicateService.imageUrl ReplicateService.caption Js.orElse Js.nonEmpty];
    rewrite Himg;
    cbn [Js.truthy negb bind tryCatch trace run read cells write record sameCell];
    rewrite ?(orElse_some img "" Himg);
    destruct (liveTimer _);
    cbn [bind tryCatch trace run fst snd pick enhanceError enhanceProgressWrite timerSet];
    unfold read; cbn [cells write record sameCell];
    (repeat split; try (intros []; reflexivity)).
Qed.

Lemma alternate_empty_run (w : World) :
  img = "" ->
  let step := startEnhancement (Some url) in
  outcome env step w = inr tt /\
  read theStore (after env step w) = read theStore w /\
  pick enhanceError (trace env step w) = ["No enhanced image was generated"] /\
  pick enhanceProgressWrite (trace env step w) = [0%Q; 100%Q; 0%Q] /\
  pick timerSet (trace env step w) = [] /\
  (forall r, requests r (trace env step w)
             = match r with RNanoBanana => 1%nat | _ => 0%nat end).
Proof.
  intros Himg step. unfold step.
  destruct output as [[others Hjson] | Hjson]; enhance_run; rewrite Hjson, Himg;
    cbn [Js.truthy Js.nonEmpty negb bind tryCatch trace run read cells write record
           sameCell ReplicateService.imageUrl ReplicateService.caption Js.orElse
           fst snd pick enhanceError enhanceProgressWrite timerSet];
    unfold read; cbn [cells write record sameCell];
    (repeat split; try (intros []; reflexivity)).
Qed.

End AlternateEnhancement.

(** X7: when the alternate credential is stored and the alternate image
    model answers with a non-empty image URL (the first of an array, or a
    string), the enhancement step stores it with the caption [Enhanced
    with AI], which moves the workflow to [generate]; the primary
    provider is not asked, no error is shown, the step itself writes 0
    and then 100 as progress (the ticks of the interval it armed are no
    part of its run), and the 3500 ms timer that advances to [generate]
    is armed. *)
Theorem alternate_image_stored
        (env : Env) (w : World) (tok url img : string) (res : Response ReplicateOutput) :
  Js.nonEmpty tok = true ->
  Js.nonEmpty url = true ->
  Js.nonEmpty img = true ->
  (forall h, env _ h (localStorage_getItem "REPLICATE_API_TOKEN") = Some tok) ->
  (forall h token input, env _ h (replicate_nanoBanana token input) = inr res) ->
  ok res = true ->
  (exists others, json res = inr (OutArray (img :: others))) \/
  json res = inr (OutString img) ->
  let step := EnhanceComponent.startEnhancement (Some url) in
  let s' := read theStore (after env step w) in
  outcome env step w = inr tt /\
  (enhancedImageUrl s' = Some img /\ enhancedImageCaption s' = Some "Enhanced with AI" /\
   currentStep s' = generate) /\
  requests RGemini (trace env step w) = 0%nat /\
  requests RNanoBanana (trace env step w) = 1%nat /\
  pick enhanceError (trace env step w) = [] /\
  pick enhanceProgressWrite (trace env step w) = [0%Q; 100%Q] /\
  pick timerSet (trace env step w) = [(AdvanceTo generate, 3500%Z)].
Proof.
  intros Htok Hurl Himg Hthere Hnb Hok Hout step s'.
  destruct (alternate_image_run env tok url img res Htok Hurl Hthere Hnb Hok Hout w Himg)
    as (H1 & H2 & _ & H4 & H5 & H6 & H7).
  split; [exact H1|].
  split.
  { unfold s', step. rewrite H2. destruct (read theStore w). repeat split. }
  unfold step. rewrite (H7 RGemini), (H7 RNanoBanana). auto 10.
Qed.

(** X7 with a stored token and an alternate provider that delivers. *)
Lemma alternate_image_stored_witness :
  let step := EnhanceComponent.startEnhancement (Some "data:image/jpeg;base64,/9j/4AAQ") in
  let s' := read theStore (after (scripted replicateReady) step freshWorld) in
  enhancedImageUrl s' = Some "https://replicate.delivery/out.png" /\
  currentStep s' = generate /\
  requests RGemini (trace (scripted replicateReady) step freshWorld) = 0%nat.
Proof.
  destruct (alternate_image_stored (scripted replicateReady) freshWorld "r8_example"
              "data:image/jpeg;base64,/9j/4AAQ" "https://replicate.delivery/out.png"
              (okResponse (OutArray ["https://replicate.delivery/out.png"])))
    as (_ & (H1 & _ & H2) & H3 & _).
  - reflexivity.
  - reflexivity.
  - reflexivity.
  - intros h. reflexivity.
  - intros h token input. reflexivity.
  - reflexivity.
  - left. exists []. reflexivity.
  - split; [exact H1 | split; [exact H2 | exact H3]].
Defined.

(** X8: when the alternate image model answers with an empty URL, the
    enhancement step does not fall back to the primary provider: it shows
    [No enhanced image was generated], resets the progress to 0, arms no
    timer and leaves the store as it was. *)
Theorem alternate_empty_image
        (env : Env) (w : World) (tok url : string) (res : Response ReplicateOutput) :
  Js.nonEmpty tok = true ->
  Js.nonEmpty url = true ->
  (forall h, env _ h (localStorage_getItem "REPLICATE_API_TOKEN") = Some tok) ->
  (forall h token input, env _ h (replicate_nanoBanana token input) = inr res) ->
  ok res = true ->
  (exists others, json res = inr (OutArray ("" :: others))) \/
  json res = inr (OutString "") ->
  let step := EnhanceComponent.startEnhancement (Some url) in
  outcome env step w = inr tt /\
  read theStore (after env step w) = read theStore w /\
  pick enhanceError (trace env step w) = ["No enhanced image was generated"] /\
  pick enhanceProgressWrite (trace env step w) = [0%Q; 100%Q; 0%Q] /\
  pick timerSet (trace env step w) = [] /\
  requests RGemini (trace env step w) = 0%nat.
Proof.
  intros Htok Hurl Hthere Hnb Hok Hout step.
  destruct (alternate_empty_run env tok url "" res Htok Hurl Hthere Hnb Hok Hout w eq_refl)
    as (H1 & H2 & H3 & H4 & H5 & H6).
  unfold step. rewrite (H6 RGemini). auto 10.
Qed.

(** X8 with an alternate image model whose output is the empty string. *)
Lemma alternate_empty_image_witness :
  let step := EnhanceComponent.startEnhancement (Some "data:image/jpeg;base64,/9j/4AAQ") in
  pick enhanceError (trace (scripted alternateEmpty) step freshWorld)
    = ["No enhanced image was generated"] /\
  requests RGemini (trace (scripted alternateEmpty) step freshWorld) = 0%nat.
Proof.
  destruct (alternate_empty_image (scripted alternateEmpty) freshWorld "r8_example"
              "data:image/jpeg;base64,/9j/4AAQ" (okResponse (OutString "")))
    as (_ & _ & H1 & _ & _ & H2).
  - reflexivity.
  - reflexivity.
  - intros h. reflexivity.
  - intros h token input. reflexivity.
  - reflexivity.
  - right. reflexivity.
  - split; [exact H1 | exact H2].
Defined.

(* ================================================================== *)
(** * The provider clients: missing credentials and malformed input *)
(* ================================================================== *)

(** X9: a client that has not been given its credential fails with its
    own message before anything leaves the browser: the primary video
    client without a key, the Gemini client before [init] (for the
    enhancement and for both requests of a motion prompt), the alternate
    image client without a token; and the alternate video call, which
    reads its token from the storage, sends no request when none is
    there. *)
Theorem clients_without_credentials (env : Env) (w : World) :
  (Js.truthy (read veo_apiKey w) = false ->
   forall imageBytes prompt onProgress mimeType,
     run env (VeoService.generateVideo imageBytes prompt onProgress mimeType) w
     = (w, inl (ErrorObj "VEO service not initialized. Please provide an API key."))) /\
  (read gemini_ai w = false ->
   let e := ErrorObj "Gemini service not initialized. Please provide an API key." in
   (forall base64Image mimeType userNote,
      run env (GeminiService.enhanceImage base64Image mimeType userNote) w = (w, inl e)) /\
   (forall imageDataUrl userNote,
      run env (GeminiService.generateVideoPromptFromImage imageDataUrl userNote) w
      = (w, inl e)) /\
   (forall imageDescription userNote,
      run env (GeminiService.generateMotionPrompt imageDescription userNote) w
      = (w, inl e))) /\
  (Js.truthy (read replicate_apiToken w) = false ->
   forall imageDataUrl userNote,
     run env (ReplicateService.enhanceImage imageDataUrl userNote) w
     = (w, inl (ErrorObj "Replicate API token not set"))) /\
  (Js.truthy (env _ (log w) (localStorage_getItem "REPLICATE_API_TOKEN")) = false ->
   forall prompt imageUrl duration resolution aspectRatio,
     let attempt := VeoService.generateVideoWithReplicate prompt imageUrl duration
                      resolution aspectRatio in
     outcome env attempt w
     = inl (ErrorObj "Missing Replicate API token. Set REPLICATE_API_TOKEN in localStorage.")
     /\ (forall r, requests r (trace env attempt w) = 0%nat)).
Proof.
  split; [|split; [|split]].
  - intros H imageBytes prompt onProgress mimeType.
    unfold VeoService.generateVideo, get. cbn [bind run]. now rewrite H.
  - intros H e. repeat split; intros;
      unfold GeminiService.enhanceImage, GeminiService.generateVideoPromptFromImage,
        GeminiService.generateMotionPrompt, get; cbn [bind run]; now rewrite H.
  - intros H imageDataUrl userNote.
    unfold ReplicateService.enhanceImage, get. cbn [bind run]. now rewrite H.
  - intros H prompt imageUrl duration resolution aspectRatio attempt.
    unfold attempt, outcome, VeoService.generateVideoWithReplicate, call.
    cbn [bind run trace]. rewrite H. cbn [negb bind run trace snd].
    split; [reflexivity|]. intros []; reflexivity.
Qed.

(** X9 when the page has just loaded and the storage is empty. *)
Lemma clients_without_credentials_witness :
  run offline (VeoService.generateVideo (Some "/9j/4AAQ") "The leaves sway." None
                 "image/jpeg") freshWorld
  = (freshWorld, inl (ErrorObj "VEO service not initialized. Please provide an API key."))
  /\
  run offline (GeminiService.generateMotionPrompt "A garden" "") freshWorld
  = (freshWorld,
     inl (ErrorObj "Gemini service not initialized. Please provide an API key."))
  /\
  run offline (ReplicateService.enhanceImage "data:image/jpeg;base64,/9j/4AAQ" None)
      freshWorld
  = (freshWorld, inl (ErrorObj "Replicate API token not set")).
Proof.
  destruct (clients_without_credentials offline freshWorld) as (H1 & H2 & H3 & _).
  split; [apply H1; reflexivity|].
  split; [apply (H2 eq_refl) | apply H3; reflexivity].
Defined.

(** X10: [generateVideoSimple] rejects, without any request, an image
    reference that is neither a data URL nor an HTTP URL, and a data URL
    with nothing after its first comma. *)
Theorem generateVideoSimple_rejects (env : Env) (w : World) (url prompt : string) :
  (Js.startsWith url "data:" = false -> Js.startsWith url "http" = false ->
   run env (VeoService.generateVideoSimple url prompt) w
   = (w, inl (ErrorObj "Invalid image format: must be either a data URL or HTTP URL"))) /\
  (Js.startsWith url "data:" = true -> Js.truthy (Js.splitComma1 url) = false ->
   run env (VeoService.generateVideoSimple url prompt) w
   = (w, inl (ErrorObj "Invalid data URL: missing base64 data"))).
Proof.
  unfold VeoService.generateVideoSimple. split.
  - intros H1 H2. now rewrite H1, H2.
  - intros H1 H2. now rewrite H1, H2.
Qed.

(** X10 at a blob URL and at a data URL without payload. *)
Lemma generateVideoSimple_rejects_witness :
  run offline (VeoService.generateVideoSimple "blob:http://localhost/1f" "p") freshWorld
  = (freshWorld,
     inl (ErrorObj "Invalid image format: must be either a data URL or HTTP URL")) /\
  run offline (VeoService.generateVideoSimple "data:image/png;base64" "p") freshWorld
  = (freshWorld, inl (ErrorObj "Invalid data URL: missing base64 data")).
Proof.
  split.
  - apply (generateVideoSimple_rejects offline freshWorld "blob:http://localhost/1f" "p");
      reflexivity.
  - apply (generateVideoSimple_rejects offline freshWorld "data:image/png;base64" "p");
      reflexivity.
Defined.

Lemma prefix_self_app (s t : string) : String.prefix s (s ++ t) = true.
Proof.
  induction s as [|c s IH]; rewrite ?append_nil, ?append_cons; [now destruct t|].
  cbn. destruct (Ascii.ascii_dec c c); [exact IH | congruence].
Qed.

Lemma prefix_refl (s : string) : String.prefix s s = true.
Proof.
  induction s as [|c s IH]; [reflexivity|].
  cbn. destruct (Ascii.ascii_dec c c); [exact IH | congruence].
Qed.

(** X11: the URL a generated video is downloaded from always contains the
    text [key=]: a URI that contains it, wherever, is used as it is, any
    other URI is extended, after [&] when it contains a [?] and after [?]
    otherwise, by [key=] and the encoded key. *)
Theorem downloadUrl_has_key (fileUri : string) (apiKey : option string) :
  let u := VeoService.downloadUrl fileUri apiKey in
  Js.includes u "key=" = true /\
  Js.startsWith u fileUri = true /\
  (Js.includes fileUri "key=" = true -> u = fileUri) /\
  (Js.includes fileUri "key=" = false ->
   u = fileUri ++ (if Js.includes fileUri "?" then "&" else "?") ++ "key="
       ++ Js.encodeURIComponent (Js.orElse apiKey "")).
Proof.
  cbn zeta. unfold VeoService.downloadUrl, Js.startsWith.
  destruct (Js.includes fileUri "key=") eqn:E.
  - split; [exact E|]. split; [apply prefix_refl|]. split; [reflexivity | discriminate].
  - split; [|split; [apply prefix_self_app | split; [discriminate | reflexivity]]].
    apply includes_app_r, includes_app_r, includes_prefix. unfold Js.startsWith.
    apply (prefix_app "key=" "key="). reflexivity.
Qed.

(** X11 at a URI with a query and no key, and at one that has its key. *)
Lemma downloadUrl_has_key_witness :
  VeoService.downloadUrl "https://generativelanguage.googleapis.com/v1/files/7:download?alt=media"
    (Some "AIza key&1")
  = "https://generativelanguage.googleapis.com/v1/files/7:download?alt=media&key=AIza%20key%261"
  /\
  VeoService.downloadUrl "https://example.org/v.mp4?key=abc" (Some "AIzaOther")
  = "https://example.org/v.mp4?key=abc".
Proof.
  split.
  - apply (downloadUrl_has_key
             "https://generativelanguage.googleapis.com/v1/files/7:download?alt=media"
             (Some "AIza key&1")). reflexivity.
  - apply (downloadUrl_has_key "https://example.org/v.mp4?key=abc" (Some "AIzaOther")).
    reflexivity.
Defined.

Section ReadyAtOnce.

Variable env : Env.
Variables (key uri objectUrl : string) (r0 : Response Operation) (op0 : Operation)
          (download : BlobResponse).
Hypothesis key_nonEmpty : Js.nonEmpty key = true.
Hypothesis start_answer :
  forall h k instances, env _ h (veo_predictLongRunning k instances) = inr r0.
Hypothesis accepted : ok r0 = true /\ json r0 = inr op0.
Hypothesis ready : done op0 = true.

Lemma generateVideo_ready (w : World) (imageBytes : option string)
      (prompt mimeType : string) :
  read veo_apiKey w = Some key ->
  let w1 := record (Called (veo_predictLongRunning key
                              [ {| veo_prompt := prompt; bytesBase64Encoded := imageBytes;
                                   veo_mimeType := mimeType |} ]) (inr r0)) w in
  run env (VeoService.generateVideo imageBytes prompt None mimeType) w
  = run env (tryCatch (VeoService.retrieve None op0) VeoService.translateError) w1 /\
  trace env (VeoService.generateVideo imageBytes prompt None mimeType) w
  = Called (veo_predictLongRunning key
              [ {| veo_prompt := prompt; bytesBase64Encoded := imageBytes;
                   veo_mimeType := mimeType |} ]) (inr r0)
    :: trace env (tryCatch (VeoService.retrieve None op0) VeoService.translateError) w1.
Proof.
  intros Hkey w1. destruct accepted as [Hok Hjson].
  unfold VeoService.generateVideo. safe_unfold. cbn [bind run trace tryCatch].
  rewrite Hkey. cbn [Js.truthy Js.show]. rewrite key_nonEmpty.
  cbn [negb bind run trace tryCatch]. rewrite start_answer.
  cbn [bind run trace tryCatch]. rewrite Hok. cbn [negb bind run trace tryCatch].
  rewrite Hjson. change VeoService.maxPolls with 30%nat.
  cbn [bind run trace tryCatch VeoService.pollLoop]. rewrite ready.
  cbn [bind run trace tryCatch]. rewrite ?Hkey. cbn [Js.show]. split; reflexivity.
Qed.

End ReadyAtOnce.

Lemma retrieve_calm (op : Operation) :
  Safe anyAnswer (fun ev => kind ev = KOther)
       (tryCatch (VeoService.retrieve None op) VeoService.translateError).
Proof.
  unfold VeoService.retrieve, VeoService.translateError. safe_unfold.
  repeat first [reads_step | reflexivity].
Qed.

(** X12: when the primary video provider accepts the job and the
    operation it returns is already done, [generateVideo] neither waits
    nor polls: after the start request it only downloads.  Without a
    video in the operation it fails with [No video was generated.],
    without a URI with [No downloadable video URI was returned.], and
    when the download succeeds it returns the object URL made of the
    downloaded blob, fetched from the URI with the key appended. *)
Theorem operation_ready_at_once
        (env : Env) (w : World) (key : string) (r0 : Response Operation)
        (op0 : Operation) (imageBytes : option string) (prompt mimeType : string) :
  read veo_apiKey w = Some key ->
  Js.nonEmpty key = true ->
  (forall h k instances, env _ h (veo_predictLongRunning k instances) = inr r0) ->
  ok r0 = true /\ json r0 = inr op0 ->
  done op0 = true ->
  let attempt := VeoService.generateVideo imageBytes prompt None mimeType in
  (hd_error (map kind (trace env attempt w)) = Some KPredict /\
   Forall (fun ev => kind ev = KOther) (tl (trace env attempt w))) /\
  (video op0 = None ->
   outcome env attempt w = inl (ErrorObj "No video was generated.")) /\
  (forall u, video op0 = Some u -> Js.truthy u = false ->
   outcome env attempt w = inl (ErrorObj "No downloadable video URI was returned.")) /\
  (forall uri download objectUrl,
     video op0 = Some (Some uri) -> Js.nonEmpty uri = true ->
     (forall h, env _ h (fetchUrl (VeoService.downloadUrl uri (Some key))) = inr download) ->
     blob_ok download = true ->
     (forall h, env _ h (URL_createObjectURL (blob download)) = objectUrl) ->
     outcome env attempt w = inr objectUrl).
Proof.
  intros Hkey Hne Hstart Hacc Hdone attempt.
  destruct (generateVideo_ready env key r0 op0 Hne Hstart Hacc Hdone w imageBytes
              prompt mimeType Hkey) as [Hrun Htrace].
  fold attempt in Hrun, Htrace.
  set (w1 := record _ w) in *.
  assert (Hk1 : read veo_apiKey w1 = Some key) by exact Hkey.
  split; [|split; [|split]].
  - rewrite Htrace. split; [reflexivity|].
    cbn [tl]. apply (Safe_sound anyAnswer _ env (fun _ _ _ => I)), retrieve_calm.
  - intros Hv. unfold outcome. rewrite Hrun.
    unfold VeoService.retrieve. rewrite Hdone, Hv. reflexivity.
  - intros u Hv Hu. unfold outcome. rewrite Hrun.
    unfold VeoService.retrieve. rewrite Hdone, Hv. cbn [negb]. rewrite Hu. reflexivity.
  - intros uri download objectUrl Hv Huri Hfetch Hok Hobj. unfold outcome. rewrite Hrun.
    unfold VeoService.retrieve. rewrite Hdone, Hv. safe_unfold.
    cbn [negb Js.truthy]. rewrite Huri. cbn [negb bind tryCatch run]. rewrite Hk1.
    rewrite (orElse_some uri "" Huri), Hfetch. cbn [bind tryCatch run]. rewrite Hok.
    cbn [negb bind tryCatch run snd]. now rewrite Hobj.
Qed.

(** X12 at an operation that is done at once and holds no video. *)
Lemma operation_ready_at_once_witness :
  let attempt := VeoService.generateVideo (Some "/9j/4AAQ") "The leaves sway gently."
                   None "image/jpeg" in
  let w := write veo_apiKey (Some "AIzaSyExample") freshWorld in
  map kind (trace (scripted doneWithoutVideo) attempt w) = [KPredict] /\
  outcome (scripted doneWithoutVideo) attempt w = inl (ErrorObj "No video was generated.").
Proof.
  destruct (operation_ready_at_once (scripted doneWithoutVideo)
              (write veo_apiKey (Some "AIzaSyExample") freshWorld) "AIzaSyExample"
              (okResponse {| op_name := "operations/veo-2"; done := true; video := None |})
              {| op_name := "operations/veo-2"; done := true; video := None |}
              (Some "/9j/4AAQ") "The leaves sway gently." "image/jpeg")
    as (_ & H & _).
  - reflexivity.
  - reflexivity.
  - intros h k instances. reflexivity.
  - split; reflexivity.
  - reflexivity.
  - split; [reflexivity | apply H; reflexivity].
Defined.

(* ================================================================== *)
(** * What the clients return and throw *)
(* ================================================================== *)

Ltac ends_step :=
  match goal with
  | |- True => exact I
  | |- forall _, _ => intro
  | |- Ends _ _ ?p => head_scrutinee p ltac:(fun x => destruct x eqn:?)
  | |- Ends _ _ _ => progress cbn [Ends bind tryCatch]
  end.

Ltac ends := safe_unfold; repeat ends_step.

Ltac one_of :=
  eexists; split; [reflexivity|]; cbn [In]; tauto.

Section ClientResults.

Lemma isLf_eqb (c : ascii) : Js.isLf c = Ascii.eqb c (ascii_of_nat 10).
Proof.
  unfold Js.isLf. destruct (Nat.eqb_spec (nat_of_ascii c) 10) as [H | H].
  - rewrite <- H, ascii_nat_embedding. symmetry. apply Ascii.eqb_refl.
  - symmetry. apply Ascii.eqb_neq. intros ->. apply H. reflexivity.
Qed.

Lemma joinLines_no_lf (s : string) : occurs (ascii_of_nat 10) (Js.joinLines s) = false.
Proof.
  induction s as [|c s IH]; [reflexivity|].
  cbn [Js.joinLines]. destruct (Js.isLf c) eqn:Hc.
  - destruct s as [|d s]; [reflexivity|].
    destruct (Js.isLf d); [exact IH|].
    cbn [occurs]. rewrite IH. reflexivity.
  - cbn [occurs]. rewrite IH. rewrite isLf_eqb in Hc. now rewrite Hc.
Qed.

Lemma occurs_trimStart (c : ascii) (s : string) :
  occurs c s = false -> occurs c (Js.trimStart s) = false.
Proof.
  induction s as [|d s IH]; [reflexivity|]. intros H. cbn [Js.trimStart].
  destruct (Js.isWhite d); [|exact H].
  apply IH. cbn in H. now apply orb_false_iff in H.
Qed.

Lemma occurs_trimEnd (c : ascii) (s : string) :
  occurs c s = false -> occurs c (Js.trimEnd s) = false.
Proof.
  induction s as [|d s IH]; [reflexivity|]. intros H. cbn in H.
  apply orb_false_iff in H. destruct H as [H1 H2]. specialize (IH H2).
  cbn [Js.trimEnd]. destruct (Js.trimEnd s) as [|e t].
  - destruct (Js.isWhite d); [reflexivity|]. cbn. now rewrite H1.
  - cbn [occurs] in *. now rewrite H1, IH.
Qed.

Lemma occurs_trim (c : ascii) (s : string) :
  occurs c s = false -> occurs c (Js.trim s) = false.
Proof. intros H. unfold Js.trim. now apply occurs_trimEnd, occurs_trimStart. Qed.

(** A motion prompt as the clients clean it: one line, trimmed. *)
Lemma cleaned_prompt (text : string) :
  let p := Js.trim (Js.joinLines (Js.stripQuotes text)) in
  occurs (ascii_of_nat 10) p = false /\ Js.trim p = p.
Proof. split; [apply occurs_trim, joinLines_no_lf | apply trim_idem]. Qed.

Lemma collect_images_data (parts : list CandidatePart) : forall acc,
  Forall (fun i => Js.startsWith i "data:" = true) (fst acc) ->
  Forall (fun i => Js.startsWith i "data:" = true)
         (fst (fold_left GeminiService.collectPart parts acc)).
Proof.
  induction parts as [|p parts IH]; intros [imgs cap] H; [exact H|].
  cbn [fold_left]. apply IH. unfold GeminiService.collectPart. cbn [fst] in *.
  destruct (part_inlineData p) as [inline|]; [|exact H].
  destruct (GeminiService.hasImage p); [|exact H].
  apply Forall_app. split; [exact H|]. constructor; [|constructor].
  unfold Js.startsWith. apply (prefix_app "data:" "data:"). reflexivity.
Qed.

Lemma enhanceImage_ends (base64Image : option string) (mimeType : string)
      (userNote : option string) :
  Ends (fun r => GeminiService.images r <> [] /\
                 Forall (fun i => Js.startsWith i "data:" = true) (GeminiService.images r) /\
                 Js.trim (GeminiService.caption r) = GeminiService.caption r)
       (oneOf [ "Gemini service not initialized. Please provide an API key.";
                "API quota exceeded. Please check your Gemini API usage limits.";
                "Image was rejected for safety reasons. Please try a different image.";
                "Invalid API key. Please check your Gemini API key.";
                "Failed to enhance image. Please try again." ])
       (GeminiService.enhanceImage base64Image mimeType userNote).
Proof.
  unfold GeminiService.enhanceImage. safe_unfold. cbn [Ends bind tryCatch].
  intros ai. destruct ai; cbn [negb Ends bind tryCatch]; [|one_of].
  intros [err | response]; cbn [Ends bind tryCatch].
  - destruct err as [m | t0]; [|one_of].
    destruct (Js.includes m "quota"); [one_of|].
    destruct (Js.includes m "safety"); [one_of|].
    destruct (Js.includes m "key"); one_of.
  - pose proof (collect_images_data (GeminiService.partsOf response) ([], "")
                  (Forall_nil _)) as Hall.
    destruct (fold_left GeminiService.collectPart (GeminiService.partsOf response)
                ([], "")) as [imgs cap].
    cbn [fst] in Hall. destruct imgs as [|i imgs]; cbn [Ends GeminiService.images
                                                         GeminiService.caption List.app].
    + split; [discriminate|]. split; [|apply trim_idem].
      constructor; [|constructor].
      unfold Js.startsWith. apply (prefix_app "data:" "data:"). reflexivity.
    + split; [discriminate|]. split; [exact Hall | apply trim_idem].
Qed.

Lemma generateMotionPrompt_ends (imageDescription userNote : string) :
  Ends (fun p => occurs (ascii_of_nat 10) p = false /\ Js.trim p = p)
       (oneOf [ "Gemini service not initialized. Please provide an API key.";
                "API quota exceeded. Please check your Gemini API usage limits.";
                "Failed to generate motion prompt. Please try again." ])
       (GeminiService.generateMotionPrompt imageDescription userNote).
Proof.
  unfold GeminiService.generateMotionPrompt. ends;
    first [apply cleaned_prompt | one_of].
Qed.

Lemma generateVideoPromptFromImage_ends (imageDataUrl : string) (userNote : option string) :
  Ends (fun p => occurs (ascii_of_nat 10) p = false /\ Js.trim p = p)
       (fun e => match e with
                 | ErrorObj m =>
                     m = "Gemini service not initialized. Please provide an API key." \/
                     Js.startsWith m "ApiError:" = true
                 | Thrown _ => True
                 end)
       (GeminiService.generateVideoPromptFromImage imageDataUrl userNote).
Proof.
  unfold GeminiService.generateVideoPromptFromImage. ends;
    first [ apply cleaned_prompt
          | exact I
          | now left
          | right; assumption
          | right; unfold Js.startsWith; apply (prefix_app "ApiError:" "ApiError: ");
            reflexivity ].
Qed.

Lemma generateVideoWithReplicate_ends p img d r a :
  Ends (fun u => Js.nonEmpty u = true) (fun _ => True)
       (VeoService.generateVideoWithReplicate p img d r a).
Proof.
  unfold VeoService.generateVideoWithReplicate. ends.
  match goal with
  | H : negb (Js.truthy ?o) = false |- Js.nonEmpty (Js.orElse ?o _) = true =>
      destruct o as [[|c s]|]; try discriminate H; reflexivity
  end.
Qed.

End ClientResults.

(** X13: whatever the provider answers, when the primary enhancement
    returns it returns at least one image, every image is a data URL and
    the caption is trimmed; when it throws, the error carries one of its
    five fixed messages. *)
Theorem enhanceImage_result
        (env : Env) (w : World) (base64Image : option string) (mimeType : string)
        (userNote : option string) :
  match outcome env (GeminiService.enhanceImage base64Image mimeType userNote) w with
  | inr r =>
      GeminiService.images r <> [] /\
      Forall (fun i => Js.startsWith i "data:" = true) (GeminiService.images r) /\
      Js.trim (GeminiService.caption r) = GeminiService.caption r
  | inl e =>
      oneOf [ "Gemini service not initialized. Please provide an API key.";
              "API quota exceeded. Please check your Gemini API usage limits.";
              "Image was rejected for safety reasons. Please try a different image.";
              "Invalid API key. Please check your Gemini API key.";
              "Failed to enhance image. Please try again." ] e
  end.
Proof. apply Ends_sound, enhanceImage_ends. Qed.

(** X14: a motion prompt either client returns is one line (it holds no
    line feed) with no white space at its ends.  The text-only request
    throws nothing but three fixed messages, its own [No motion prompt
    was generated] being replaced by the generic one; the request with
    the image throws, as an [Error], only the message of a client that is
    not initialised or a message that starts with [ApiError:]. *)
Theorem motion_prompt_result
        (env : Env) (w : World) (imageDataUrl imageDescription note : string)
        (userNote : option string) :
  match outcome env (GeminiService.generateVideoPromptFromImage imageDataUrl userNote) w with
  | inr p => occurs (ascii_of_nat 10) p = false /\ Js.trim p = p
  | inl (ErrorObj m) =>
      m = "Gemini service not initialized. Please provide an API key." \/
      Js.startsWith m "ApiError:" = true
  | inl (Thrown _) => True
  end /\
  match outcome env (GeminiService.generateMotionPrompt imageDescription note) w with
  | inr p => occurs (ascii_of_nat 10) p = false /\ Js.trim p = p
  | inl e =>
      oneOf [ "Gemini service not initialized. Please provide an API key.";
              "API quota exceeded. Please check your Gemini API usage limits.";
              "Failed to generate motion prompt. Please try again." ] e
  end.
Proof.
  split.
  - pose proof (Ends_sound env _ _ _
                  (generateVideoPromptFromImage_ends imageDataUrl userNote) w) as H.
    destruct (outcome env _ w) as [[m | t0] | p]; exact H.
  - apply Ends_sound, generateMotionPrompt_ends.
Qed.

Section PrimaryEnhancement.

Import EnhanceComponent.

Variable env : Env.
Variable url : string.
Hypothesis url_nonEmpty : Js.nonEmpty url = true.
Hypothesis no_token :
  forall h, env _ h (localStorage_getItem "REPLICATE_API_TOKEN") = None.

Lemma quiet_enhanceError {A} (p : Prog A) (w : World) :
  Safe anyAnswer quiet p -> pick enhanceError (trace env p w) = [].
Proof.
  intros Hp. apply pick_nil.
  pose proof (Safe_sound anyAnswer quiet env (fun _ _ _ => I) _ Hp w) as H.
  revert H. apply Forall_impl. now intros ev (_ & _ & _ & H & _).
Qed.

Lemma startsWith_nonEmpty (s p : string) :
  Js.nonEmpty p = true -> Js.startsWith s p = true -> Js.nonEmpty s = true.
Proof. unfold Js.startsWith. destruct p, s; cbn; intros; try discriminate; reflexivity. Qed.

Lemma settle_run (pi : Z) (img caption : string) (w : World) :
  Js.nonEmpty img = true ->
  outcome env (settle pi (Some img, caption)) w = inr tt /\
  read theStore (after env (settle pi (Some img, caption)) w)
    = memoryStore.setEnhancedImage img (Some caption) (read theStore w) /\
  pick enhanceError (trace env (settle pi (Some img, caption)) w) = [] /\
  forall r, requests r (trace env (settle pi (Some img, caption)) w) = 0%nat.
Proof.
  intros Himg.
  unfold outcome, after, settle, setEnhanceProgress, setImageLoaded. safe_unfold.
  cbn [Js.truthy]. rewrite Himg, (orElse_some img "" Himg).
  cbn [bind run trace read cells write record sameCell].
  destruct (liveTimer _); cbn [bind run trace fst snd pick enhanceError];
    unfold read; cbn [cells write record sameCell];
    (repeat split; try (intros []; reflexivity)).
Qed.

Lemma enhance_onError_run (pi : Z) (m : string) (w : World) :
  outcome env (onError pi (ErrorObj m)) w = inr tt /\
  read theStore (after env (onError pi (ErrorObj m)) w) = read theStore w /\
  pick enhanceError (trace env (onError pi (ErrorObj m)) w) = [m] /\
  forall r, requests r (trace env (onError pi (ErrorObj m)) w) = 0%nat.
Proof.
  unfold outcome, after, onError, setEnhanceProgress, setEnhanceError, setIsEnhancing.
  safe_unfold. cbn [bind run trace fst snd pick enhanceError].
  split; [reflexivity|]. split; [reflexivity|].
  split; [reflexivity | intros []; reflexivity].
Qed.

Lemma primary_body (pi : Z) (w : World) :
  let g := GeminiService.enhanceImage (Js.splitComma1 url)
             (Js.orElse (Js.matchData url) "image/jpeg") None in
  let body := tryCatch (result <- enhanceWithGemini url ;; settle pi result)
                       (onError pi) in
  outcome env body w = inr tt /\
  requests RNanoBanana (trace env body w) = 0%nat /\
  ((exists r img,
      outcome env g w = inr r /\ hd_error (GeminiService.images r) = Some img /\
      Js.startsWith img "data:" = true /\
      pick enhanceError (trace env body w) = [] /\
      read theStore (after env body w)
        = memoryStore.setEnhancedImage img (Some (GeminiService.caption r))
            (read theStore w)) \/
   (exists m,
      In m [ "Gemini service not initialized. Please provide an API key.";
             "API quota exceeded. Please check your Gemini API usage limits.";
             "Image was rejected for safety reasons. Please try a different image.";
             "Invalid API key. Please check your Gemini API key.";
             "Failed to enhance image. Please try again." ] /\
      outcome env g w = inl (ErrorObj m) /\
      pick enhanceError (trace env body w) = [m] /\
      read theStore (after env body w) = read theStore w)).
Proof.
  intros g body.
  pose proof (Ends_sound env _ _ _
                (enhanceImage_ends (Js.splitComma1 url)
                   (Js.orElse (Js.matchData url) "image/jpeg") None) w) as Hg.
  fold g in Hg.
  pose proof (quiet_enhanceError g w (gemini_enhanceImage_quiet _ _ _ _)) as Hquiet.
  pose proof (frame_store env g w (quiet_store env g w
                                     (gemini_enhanceImage_quiet _ _ _ _))) as Hframe.
  pose proof (Within_sound env _ _
                (gemini_enhanceImage_budget (Js.splitComma1 url)
                   (Js.orElse (Js.matchData url) "image/jpeg") None) w RNanoBanana) as Hnb.
  fold g in Hnb. cbn [budget] in Hnb.
  unfold body. clear body. set (p := enhanceWithGemini url).
  assert (Hewg : p = (geminiResult <- g ;;
                      Ret (hd_error (GeminiService.images geminiResult),
                           GeminiService.caption geminiResult))) by reflexivity.
  assert (Hp_out : outcome env p w
                   = match outcome env g w with
                     | inr r => inr (hd_error (GeminiService.images r),
                                     GeminiService.caption r)
                     | inl e => inl e
                     end).
  { rewrite Hewg, outcome_bind. destruct (outcome env g w); reflexivity. }
  assert (Hp_aft : after env p w = after env g w).
  { rewrite Hewg, after_bind. destruct (outcome env g w); reflexivity. }
  assert (Hp_tr : trace env p w = trace env g w).
  { rewrite Hewg, trace_bind. destruct (outcome env g w); apply app_nil_r. }
  clearbody p.
  rewrite outcome_tryCatch, after_tryCatch, trace_tryCatch.
  rewrite !outcome_bind, !after_bind, !trace_bind, Hp_out, Hp_aft, Hp_tr.
  destruct (outcome env g w) as [e | r] eqn:Hout; cbv beta iota.
  - destruct Hg as (m & -> & Hin).
    destruct (enhance_onError_run pi m (after env g w)) as (H1 & H2 & H3 & H4).
    split; [exact H1|]. rewrite app_nil_r.
    split; [rewrite requests_app, H4; lia|].
    right. exists m. split; [exact Hin|]. split; [reflexivity|].
    split; [now rewrite pick_app, Hquiet, H3|].
    now rewrite H2.
  - destruct Hg as (Hnil & Hall & _).
    destruct (GeminiService.images r) as [|img imgs] eqn:Himgs; [now elim Hnil|].
    assert (Hdata : Js.startsWith img "data:" = true) by now inversion Hall.
    assert (Himg : Js.nonEmpty img = true)
      by now apply (startsWith_nonEmpty img "data:").
    cbn [hd_error].
    destruct (settle_run pi img (GeminiService.caption r) (after env g w) Himg)
      as (H1 & H2 & H3 & H4).
    rewrite H1. split; [reflexivity|]. rewrite app_nil_r.
    split; [rewrite requests_app, H4; lia|].
    left. exists r, img. rewrite Himgs.
    split; [reflexivity|]. split; [reflexivity|]. split; [exact Hdata|].
    split; [now rewrite pick_app, Hquiet, H3|].
    now rewrite H2, Hframe.
Qed.

End PrimaryEnhancement.

(** X16: without an alternate credential, the enhancement step ends in
    one of two ways, whatever the primary provider answers: either it
    shows no error and stores a data URL as the enhanced image, which
    moves the workflow to [generate], or it shows exactly one of the
    primary client's five messages and leaves the store as it was.  The
    alternate image model is not called. *)
Theorem primary_enhancement_outcomes (env : Env) (w : World) (url : string) :
  Js.nonEmpty url = true ->
  (forall h, env _ h (localStorage_getItem "REPLICATE_API_TOKEN") = None) ->
  let step := EnhanceComponent.startEnhancement (Some url) in
  let s' := read theStore (after env step w) in
  outcome env step w = inr tt /\
  requests RNanoBanana (trace env step w) = 0%nat /\
  ((pick enhanceError (trace env step w) = [] /\
    exists img, Js.startsWith img "data:" = true /\
                enhancedImageUrl s' = Some img /\ currentStep s' = generate) \/
   (exists m,
      In m [ "Gemini service not initialized. Please provide an API key.";
             "API quota exceeded. Please check your Gemini API usage limits.";
             "Image was rejected for safety reasons. Please try a different image.";
             "Invalid API key. Please check your Gemini API key.";
             "Failed to enhance image. Please try again." ] /\
      pick enhanceError (trace env step w) = [m] /\
      s' = read theStore w)).
Proof.
  intros Hurl Hnone step s'. unfold s', step. clear s' step.
  unfold outcome, after, EnhanceComponent.startEnhancement, EnhanceComponent.begin,
    EnhanceComponent.enhance, EnhanceComponent.setIsEnhancing,
    EnhanceComponent.setEnhanceError, EnhanceComponent.setEnhanceProgress.
  safe_unfold. cbn [Js.truthy]. rewrite Hurl, (orElse_some url "" Hurl).
  cbn [negb bind tryCatch run trace]. rewrite Hnone.
  cbn [Js.truthy bind tryCatch run trace].
  match goal with
  | |- context [run env (tryCatch ?b (EnhanceComponent.onError ?pi)) ?w2] =>
      destruct (primary_body env url pi w2) as (H1 & H2 & H3);
      set (body := tryCatch b (EnhanceComponent.onError pi)) in *;
      set (w' := w2) in *;
      assert (Hw' : read theStore w' = read theStore w) by reflexivity
  end.
  change (snd (run env body w')) with (outcome env body w').
  change (fst (run env body w')) with (after env body w').
  split; [exact H1|].
  split.
  { unfold requests in *. cbn [filter isRequest request]. exact H2. }
  cbn [pick enhanceError].
  destruct H3 as [(r & img & _ & _ & Hdata & Hshown & Hstore)
                 | (m & Hin & _ & Hshown & Hstore)].
  - left. split; [exact Hshown|]. exists img. split; [exact Hdata|].
    rewrite Hstore. destruct (read theStore w'). split; reflexivity.
  - right. exists m. split; [exact Hin|]. split; [exact Hshown|].
    now rewrite Hstore.
Qed.

(** X16 in a browser without any credential: the step returns and the
    alternate image model is not called. *)
Lemma primary_enhancement_outcomes_witness :
  let step := EnhanceComponent.startEnhancement (Some "data:image/jpeg;base64,/9j/4AAQ") in
  outcome offline step freshWorld = inr tt /\
  requests RNanoBanana (trace offline step freshWorld) = 0%nat.
Proof.
  destruct (primary_enhancement_outcomes offline freshWorld
              "data:image/jpeg;base64,/9j/4AAQ") as (H1 & H2 & _).
  - reflexivity.
  - intros h. reflexivity.
  - split; [exact H1 | exact H2].
Defined.

(* ================================================================== *)
(** * Data URLs: what the primary client builds, the callers read back *)
(* ================================================================== *)

Section DataUrls.

Lemma append_assoc (a b c : string) : (a ++ b) ++ c = a ++ b ++ c.
Proof.
  induction a as [|x a IH]; rewrite ?append_nil, ?append_cons; [reflexivity|].
  now rewrite IH.
Qed.

Lemma lower_app (a b : string) : Js.lower (a ++ b) = Js.lower a ++ Js.lower b.
Proof.
  induction a as [|c a IH]; rewrite ?append_nil, ?append_cons; cbn [Js.lower];
    [reflexivity|]. now rewrite IH, append_cons.
Qed.

Lemma splitComma1_data (mime payload : string) :
  occurs "," mime = false -> occurs "," payload = false ->
  Js.splitComma1 ("data:" ++ mime ++ ";base64," ++ payload) = Some payload.
Proof.
  intros Hm Hp. unfold Js.splitComma1.
  replace ("data:" ++ mime ++ ";base64," ++ payload)
    with (("data:" ++ mime ++ ";base64") ++ String "," payload)
    by (rewrite !append_assoc; reflexivity).
  rewrite afterFirst_app.
  - now rewrite takeUntil_absent.
  - rewrite !occurs_app, Hm. reflexivity.
Qed.

Lemma takeUntil_mime (mime payload : string) :
  occurs ";" mime = false ->
  Js.takeUntil ";" (mime ++ ";base64," ++ payload) = mime.
Proof. intros Hm. apply (takeUntil_app ";" mime ("base64," ++ payload) Hm). Qed.

Lemma matchData_eq (c : ascii) (t : string) :
  Js.matchData (String c t) =
  if String.prefix "data:" (String c t)
     && Js.nonEmpty (Js.takeUntil ";" (Js.drop 5 (String c t)))
  then Some (Js.takeUntil ";" (Js.drop 5 (String c t)))
  else Js.matchData t.
Proof. reflexivity. Qed.

Lemma matchData_data (mime payload : string) :
  Js.nonEmpty mime = true -> occurs ";" mime = false ->
  Js.matchData ("data:" ++ mime ++ ";base64," ++ payload) = Some mime.
Proof.
  intros Hne Hm.
  pose proof (prefix_app "data:" "data:" (mime ++ ";base64," ++ payload) eq_refl) as Hp.
  change ("data:" ++ mime ++ ";base64," ++ payload)
    with (String "d" (String "a" (String "t" (String "a" (String ":"
            (mime ++ ";base64," ++ payload)))))) in *.
  rewrite matchData_eq, Hp. cbn [Js.drop].
  rewrite (takeUntil_mime mime payload Hm), Hne. reflexivity.
Qed.

Lemma matchDataBase64_data (mime payload : string) :
  Js.nonEmpty mime = true -> occurs ";" mime = false ->
  Js.matchDataBase64 ("data:" ++ mime ++ ";base64," ++ payload) = Some mime.
Proof.
  intros Hne Hm. unfold Js.matchDataBase64, Js.prefixCI.
  rewrite (lower_app "data:").
  rewrite (prefix_app (Js.lower "data:") (Js.lower "data:") _ eq_refl).
  change ("data:" ++ mime ++ ";base64," ++ payload)
    with (String "d" (String "a" (String "t" (String "a" (String ":"
            (mime ++ ";base64," ++ payload)))))).
  cbn [Js.drop]. rewrite (takeUntil_mime mime payload Hm), Hne.
  rewrite drop_length_app, lower_app.
  rewrite (prefix_self_app (Js.lower ";base64,") (Js.lower payload)). reflexivity.
Qed.

End DataUrls.

(** X17: the data URL the primary client makes of an inline image,
    [data:] then the mime type then [;base64,] then the payload, is read
    back by its callers: the part after the first comma is the payload,
    and both patterns for the mime type find it, provided the mime type
    is not empty and has no [;] or comma and the payload has no comma. *)
Theorem dataUrl_round_trip (part : CandidatePart) (inline : InlineData) :
  part_inlineData part = Some inline ->
  GeminiService.hasImage part = true ->
  occurs ";" (mimeType inline) = false ->
  occurs "," (mimeType inline) = false ->
  occurs "," (data inline) = false ->
  exists u,
    fst (GeminiService.collectPart ([], "") part) = [u] /\
    Js.startsWith u "data:" = true /\
    Js.splitComma1 u = Some (data inline) /\
    Js.matchData u = Some (mimeType inline) /\
    Js.matchDataBase64 u = Some (mimeType inline).
Proof.
  intros Hinline Himage Hsemi Hcomma Hdata.
  assert (Hne : Js.nonEmpty (mimeType inline) = true).
  { unfold GeminiService.hasImage in Himage. rewrite Hinline in Himage.
    now apply andb_true_iff in Himage. }
  exists ("data:" ++ mimeType inline ++ ";base64," ++ data inline).
  split; [|split; [|split; [|split]]].
  - unfold GeminiService.collectPart. rewrite Hinline, Himage.
    destruct (Js.truthy (part_text part)); reflexivity.
  - unfold Js.startsWith. apply (prefix_app "data:" "data:"). reflexivity.
  - now apply splitComma1_data.
  - now apply matchData_data.
  - now apply matchDataBase64_data.
Qed.

(** X17 at a PNG part. *)
Lemma dataUrl_round_trip_witness :
  exists u,
    fst (GeminiService.collectPart ([], "")
           (mkPart None (Some {| mimeType := "image/png"; data := "iVBORw0KGgo" |})))
    = [u] /\
    Js.startsWith u "data:" = true /\
    Js.splitComma1 u = Some "iVBORw0KGgo" /\
    Js.matchData u = Some "image/png" /\
    Js.matchDataBase64 u = Some "image/png".
Proof.
  apply (dataUrl_round_trip
           (mkPart None (Some {| mimeType := "image/png"; data := "iVBORw0KGgo" |}))
           {| mimeType := "image/png"; data := "iVBORw0KGgo" |}); reflexivity.
Defined.

(* ================================================================== *)
(** * The store: the credential, and which steps are open *)
(* ================================================================== *)

Section StoreInvariants.

Import memoryStore.

Lemma act_keeps_key (a : Action) (s : MemoryState) :
  changesKey a = false -> apiKey (act s a) = apiKey s.
Proof. destruct a, s; cbn; intros H; try discriminate; reflexivity. Qed.

End StoreInvariants.

(** X18: the API key is changed by [setApiKey] and [clearApiKey] only:
    every other action of the store, the two resets included, keeps it,
    and so does any sequence of them.  The key [setApiKey] stores is
    trimmed. *)
Theorem apiKey_kept (actions : list memoryStore.Action) (s : MemoryState) (key : string) :
  forallb (fun a => negb (changesKey a)) actions = true ->
  let s' := fold_left memoryStore.act actions (memoryStore.setApiKey key s) in
  apiKey s' = Some (Js.trim key) /\
  (forall k, apiKey s' = Some k -> Js.trim k = k) /\
  apiKey (memoryStore.clearApiKey s') = None.
Proof.
  intros H s'.
  assert (Hkeep : forall l t, forallb (fun a => negb (changesKey a)) l = true ->
                              apiKey (fold_left memoryStore.act l t) = apiKey t).
  { induction l as [|a l IH]; intros t Hl; [reflexivity|]. cbn in Hl.
    apply andb_true_iff in Hl. destruct Hl as [Ha Hl]. cbn [fold_left].
    rewrite IH by exact Hl. apply act_keeps_key. now apply negb_true_iff in Ha. }
  assert (Hs' : apiKey s' = Some (Js.trim key)).
  { unfold s'. rewrite Hkeep by exact H. destruct s; reflexivity. }
  split; [exact Hs'|]. split.
  - intros k Hk. rewrite Hs' in Hk. inversion Hk; subst. apply trim_idem.
  - destruct s'; reflexivity.
Qed.

(** X18 on an upload, a reset and a clearing of the media after the key
    was set. *)
Lemma apiKey_kept_witness :
  apiKey (fold_left memoryStore.act
            [ memoryStore.SetOriginalImage (mkFile "cat.png" "image/png" 2048)
                "data:image/png;base64,iVBORw0KGgo";
              memoryStore.ResetWorkflow; memoryStore.ClearMedia ]
            (memoryStore.setApiKey "  AIzaSyExample " memoryStore.initialState))
  = Some "AIzaSyExample".
Proof.
  apply (apiKey_kept
           [ memoryStore.SetOriginalImage (mkFile "cat.png" "image/png" 2048)
               "data:image/png;base64,iVBORw0KGgo";
             memoryStore.ResetWorkflow; memoryStore.ClearMedia ]
           memoryStore.initialState "  AIzaSyExample "). reflexivity.
Defined.

(** X19: which steps the store lets the user enter after each change of
    media.  A new upload opens [enhance] and closes [prompt], [generate]
    and [complete]; a reset leaves only [upload] open; an enhanced image
    with a non-empty URL opens [prompt], a video with a non-empty URL
    opens [complete]; clearing the media closes [enhance], [prompt] and
    [complete] but leaves [generate] as it was, since the motion prompt
    is kept. *)
Theorem steps_open_after (s : MemoryState) :
  (forall file url,
     let s' := memoryStore.setOriginalImage file url s in
     memoryStore.canProceedToStep enhance s' = true /\
     memoryStore.canProceedToStep prompt s' = false /\
     memoryStore.canProceedToStep generate s' = false /\
     memoryStore.canProceedToStep complete s' = false) /\
  (let s' := memoryStore.resetWorkflowSet s s in
   forall step, memoryStore.canProceedToStep step s'
                = match step with upload => true | _ => false end) /\
  (forall url caption,
     memoryStore.canProceedToStep prompt (memoryStore.setEnhancedImage url caption s)
     = Js.nonEmpty url) /\
  (forall url,
     memoryStore.canProceedToStep complete (memoryStore.setVideoUrl url s)
     = Js.nonEmpty url) /\
  (let s' := memoryStore.clearMediaSet s in
   memoryStore.canProceedToStep enhance s' = false /\
   memoryStore.canProceedToStep prompt s' = false /\
   memoryStore.canProceedToStep complete s' = false /\
   memoryStore.canProceedToStep generate s' = memoryStore.canProceedToStep generate s).
Proof.
  destruct s. repeat split; try reflexivity.
Qed.

(** The URLs a reset releases: the original image's and the video's, in
    this order, each only when it is a [blob:] URL. *)
Lemma revoked_urls (env : Env) (w : World) :
  let s := read theStore w in
  let blob (url : option string) :=
    match url with
    | Some u => if Js.startsWith u "blob:" then [u] else []
    | None => []
    end in
  let expected := (blob (originalImageUrl s) ++ blob (videoUrl s))%list in
  pick revoked (trace env useMemoryStore.resetWorkflow w) = expected /\
  pick revoked (trace env useMemoryStore.clearMedia w) = expected.
Proof.
  cbn zeta.
  unfold useMemoryStore.resetWorkflow, useMemoryStore.clearMedia,
    useMemoryStore.revokeIfBlob, dispatch, get, put, call, when.
  cbn [bind run trace]. unfold read.
  destruct (cells w MemoryState theStore)
    as [st oi oiu oid eiu eic vu un mp ip pr er ak pst etr].
  cbn [originalImageUrl videoUrl].
  destruct oiu as [u|], vu as [v|];
    repeat match goal with
           | |- context [Js.startsWith ?x ?p] => destruct (Js.startsWith x p) eqn:?
           end;
    cbn [bind trace pick revoked List.app];
    split; reflexivity.
Qed.

(** X20: [clearMedia] returns; it empties the original image, its URL,
    the enhanced image URL and the video URL, goes back to [upload] with
    progress 0 and no error, and keeps everything else: the API key, but
    also the original's data URL, the caption, the note and the motion
    prompt.  Like [resetWorkflow] it releases the original's and the
    video's URL when, and only when, they are [blob:] URLs. *)
Theorem clearMedia_spec (env : Env) (w : World) :
  let s := read theStore w in
  let s' := read theStore (after env useMemoryStore.clearMedia w) in
  outcome env useMemoryStore.clearMedia w = inr tt /\
  (originalImage s' = None /\ originalImageUrl s' = None /\
   enhancedImageUrl s' = None /\ videoUrl s' = None /\
   currentStep s' = upload /\ progress s' = 0%Q /\ error s' = None) /\
  (apiKey s' = apiKey s /\
   originalImageDataUrl s' = originalImageDataUrl s /\
   enhancedImageCaption s' = enhancedImageCaption s /\
   userNote s' = userNote s /\ motionPrompt s' = motionPrompt s /\
   isProcessing s' = isProcessing s /\
   processingStartTime s' = processingStartTime s /\
   estimatedTimeRemaining s' = estimatedTimeRemaining s) /\
  (forall u, In u (pick revoked (trace env useMemoryStore.clearMedia w)) <->
             Js.startsWith u "blob:" = true /\
             (originalImageUrl s = Some u \/ videoUrl s = Some u)) /\
  pick revoked (trace env useMemoryStore.resetWorkflow w)
    = pick revoked (trace env useMemoryStore.clearMedia w).
Proof.
  cbn zeta.
  destruct (revoked_urls env w) as [Hr Hc]. cbn zeta in Hr, Hc.
  split; [apply NoThrow_unit, clearMedia_total|].
  assert (Hstore : read theStore (after env useMemoryStore.clearMedia w)
                   = memoryStore.clearMediaSet (read theStore w)).
  { unfold after, useMemoryStore.clearMedia, get. cbn [bind run].
    rewrite !run_bind.
    destruct (revokeIfBlob_run env (originalImageUrl (read theStore w)) w)
      as (H1 & H2 & _).
    rewrite H1.
    destruct (revokeIfBlob_run env (videoUrl (read theStore w))
                (after env (useMemoryStore.revokeIfBlob
                              (originalImageUrl (read theStore w))) w))
      as (H3 & H4 & _).
    rewrite H3. rewrite dispatch_run. cbn [fst].
    match goal with
    | |- context [memoryStore.clearMediaSet (read theStore ?w')] =>
        replace (read theStore w') with (read theStore w)
          by (change (cells w MemoryState theStore = cells w' MemoryState theStore);
              now rewrite H4, H2)
    end.
    reflexivity. }
  rewrite Hstore, Hr, Hc.
  split; [destruct (read theStore w); repeat split|].
  split; [destruct (read theStore w); repeat split|].
  split; [|reflexivity].
  destruct (originalImageUrl (read theStore w)) as [a|],
           (videoUrl (read theStore w)) as [b|];
    repeat match goal with
           | |- context [Js.startsWith ?x "blob:"] =>
               destruct (Js.startsWith x "blob:") eqn:?
           end;
    cbn [List.app In]; intros u;
    (split;
     [ intros H; repeat (destruct H as [<- | H]; [solve [auto]|]); destruct H
     | intros [Hu [[= <-] | [= <-]]]; auto; congruence ]).
Qed.

(* ================================================================== *)
(** * The API key form *)
(* ================================================================== *)

Section KeyForm.

Import ApiKeyModal.

Lemma trim_keeps_prefix (s p : string) :
  Js.nonEmpty p = true ->
  (forall c, occurs c p = true -> Js.isWhite c = false) ->
  Js.startsWith s p = true -> Js.startsWith (Js.trim s) p = true.
Proof.
  unfold Js.startsWith, Js.trim. intros Hne Hp H.
  destruct p as [|c p]; [discriminate|].
  destruct s as [|d s]; [discriminate|].
  assert (Hd : Js.isWhite d = false).
  { cbn in H. destruct (Ascii.ascii_dec c d) as [<- | ]; [|discriminate].
    apply Hp. cbn. now rewrite Ascii.eqb_refl. }
  rewrite (trimStart_nonWhite d s Hd). now apply prefix_trimEnd.
Qed.

Lemma AIza_nonWhite (c : ascii) : occurs c "AIza" = true -> Js.isWhite c = false.
Proof.
  cbn [occurs]. intros H. repeat (apply orb_true_iff in H; destruct H as [H | H]);
    try discriminate; apply Ascii.eqb_eq in H; subst; reflexivity.
Qed.

Lemma requiresApiKey_trimmed (key : string) :
  Js.nonEmpty (Js.trim key) = true ->
  App.requiresApiKey (Some (Js.trim key)) = false.
Proof.
  intros H. unfold App.requiresApiKey. rewrite trim_idem, H.
  destruct (Js.trim key); [discriminate | reflexivity].
Qed.

Variable stringify : option string -> string -> string.

Lemma sameKey_refl (a : option string) : App.sameKey a a = true.
Proof. destruct a as [k|]; [apply String.eqb_refl | reflexivity]. Qed.

Lemma sameKey_eq (a b : option string) : App.sameKey a b = true -> a = b.
Proof.
  destruct a as [x|], b as [y|]; cbn; intros H; try discriminate; [|reflexivity].
  apply String.eqb_eq in H. now subst.
Qed.

Lemma setApiKey_apiKey (key : string) (s : MemoryState) :
  apiKey (memoryStore.setApiKey key s) = Some (Js.trim key) /\
  userNote (memoryStore.setApiKey key s) = userNote s.
Proof. destruct s; split; reflexivity. Qed.

Lemma clearApiKey_apiKey (s : MemoryState) :
  apiKey (memoryStore.clearApiKey s) = None /\
  userNote (memoryStore.clearApiKey s) = userNote s.
Proof. destruct s; split; reflexivity. Qed.

(** A render in which no dependency of an effect has changed runs none. *)
Lemma effects_quiet (before p : Page) :
  showApiKeyModal before = showApiKeyModal p ->
  apiKey (store before) = apiKey (store p) ->
  App.effects before p = p.
Proof.
  intros Hs Hk. unfold App.effects, App.needsKey.
  now rewrite Hs, Hk, !Bool.eqb_reflx, sameKey_refl.
Qed.

Lemma openEffect_keeps (p : Page) :
  showApiKeyModal (openEffect p) = showApiKeyModal p /\
  store (openEffect p) = store p /\
  localStorage (openEffect p) = localStorage p.
Proof. unfold openEffect. destruct (showApiKeyModal p) eqn:E; repeat split; exact E. Qed.

(** The renders after a handler that leaves a key in the store: the form's
    effect runs once when [isOpen] or the key is another value. *)
Lemma settle_keyed (p h : Page) :
  App.needsKey h = false ->
  App.settle p h
    = if Bool.eqb (showApiKeyModal p) (showApiKeyModal h)
         && App.sameKey (apiKey (store p)) (apiKey (store h))
      then h else openEffect h.
Proof.
  intros Hn. unfold App.settle.
  assert (He : App.effects p h
               = if Bool.eqb (showApiKeyModal p) (showApiKeyModal h)
                    && App.sameKey (apiKey (store p)) (apiKey (store h))
                 then h else openEffect h).
  { unfold App.effects, App.keyEffect. rewrite Hn.
    now destruct (Bool.eqb (App.needsKey p) false). }
  rewrite He.
  destruct (Bool.eqb (showApiKeyModal p) (showApiKeyModal h)
            && App.sameKey (apiKey (store p)) (apiKey (store h))).
  - now apply effects_quiet.
  - destruct (openEffect_keeps h) as (H1 & H2 & _).
    apply effects_quiet; [now rewrite H1 | now rewrite H2].
Qed.

(** The page a submit leaves, case by case. *)
Lemma submit_key_refused (p : Page) :
  Js.nonEmpty (Js.trim (geminiKey (fields p))) = false \/
  Js.startsWith (geminiKey (fields p)) "AIza" = false ->
  App.submit stringify p
    = setValidationError
        (Some (if Js.nonEmpty (Js.trim (geminiKey (fields p))) then badGeminiKey
               else "Please enter your Gemini API key")) p.
Proof.
  intros H.
  assert (E : forall e, App.settle p (setValidationError e p) = setValidationError e p).
  { intros e. unfold App.settle. rewrite (effects_quiet p) by reflexivity.
    now apply effects_quiet. }
  unfold App.submit, handleSubmit.
  destruct (Js.nonEmpty (Js.trim (geminiKey (fields p)))) eqn:Hk; cbn [negb].
  - destruct H as [H | H]; [discriminate|]. rewrite H. cbn [negb]. apply E.
  - apply E.
Qed.

Lemma submit_token_refused (p : Page) :
  showApiKeyModal p = true ->
  Js.nonEmpty (Js.trim (geminiKey (fields p))) = true ->
  Js.startsWith (geminiKey (fields p)) "AIza" = true ->
  Js.nonEmpty (Js.trim (replicateToken (fields p))) = true ->
  Js.startsWith (replicateToken (fields p)) "r8_" = false ->
  let saved := storeSet stringify (memoryStore.setApiKey (geminiKey (fields p))) p in
  let h := setValidationError (Some badReplicateToken)
             (setStorage (setItem "GEMINI_API_KEY" (geminiKey (fields p))
                            (localStorage saved)) saved) in
  App.submit stringify p
    = if App.sameKey (apiKey (store p)) (Some (Js.trim (geminiKey (fields p))))
      then h else onOpen h.
Proof.
  intros Hshow Hk Ha Ht Hr saved h.
  unfold App.submit, handleSubmit. rewrite Hk, Ha, Ht, Hr. cbn [negb andb].
  fold saved. fold h.
  assert (Hkey : apiKey (store h) = Some (Js.trim (geminiKey (fields p))))
    by apply setApiKey_apiKey.
  rewrite settle_keyed
    by (unfold App.needsKey; rewrite Hkey; now apply requiresApiKey_trimmed).
  rewrite Hkey.
  change (showApiKeyModal h) with (showApiKeyModal p). rewrite Bool.eqb_reflx.
  cbn [andb]. unfold openEffect.
  change (showApiKeyModal h) with (showApiKeyModal p). now rewrite Hshow.
Qed.

Lemma submit_accepted_page (p : Page) :
  showApiKeyModal p = true ->
  Js.nonEmpty (Js.trim (geminiKey (fields p))) = true ->
  Js.startsWith (geminiKey (fields p)) "AIza" = true ->
  Js.nonEmpty (Js.trim (replicateToken (fields p))) = false \/
  Js.startsWith (replicateToken (fields p)) "r8_" = true ->
  let saved := storeSet stringify (memoryStore.setApiKey (geminiKey (fields p))) p in
  let keyed := setStorage (setItem "GEMINI_API_KEY" (geminiKey (fields p))
                             (localStorage saved)) saved in
  let both := if Js.nonEmpty (Js.trim (replicateToken (fields p)))
              then setStorage (setItem "REPLICATE_API_TOKEN" (replicateToken (fields p))
                                 (localStorage keyed)) keyed
              else keyed in
  let h := setFields {| geminiKey := ""; replicateToken := "";
                        showReplicateSetup := false;
                        validationError := validationError (fields p) |} both in
  App.submit stringify p
    = if App.needsKey p then onOpen h else App.setShowApiKeyModal false h.
Proof.
  intros Hshow Hk Ha Ht saved keyed both h.
  assert (Hgate : Js.nonEmpty (Js.trim (replicateToken (fields p)))
                  && negb (Js.startsWith (replicateToken (fields p)) "r8_") = false).
  { destruct Ht as [-> | ->]; [reflexivity | apply andb_false_r]. }
  unfold App.submit, handleSubmit. rewrite Hk, Ha, Hgate. cbn [negb].
  fold saved. fold keyed. fold both.
  assert (Hval : validationError (fields both) = validationError (fields p))
    by (unfold both; destruct (Js.nonEmpty (Js.trim (replicateToken (fields p))));
        reflexivity).
  rewrite Hval. fold h.
  assert (Hkey : apiKey (store h) = Some (Js.trim (geminiKey (fields p)))).
  { unfold h, both. destruct (Js.nonEmpty (Js.trim (replicateToken (fields p))));
      apply setApiKey_apiKey. }
  assert (Hsh : showApiKeyModal h = true).
  { unfold h, both. destruct (Js.nonEmpty (Js.trim (replicateToken (fields p))));
      exact Hshow. }
  assert (Hneeds : App.requiresApiKey (Some (Js.trim (geminiKey (fields p)))) = false)
    by now apply requiresApiKey_trimmed.
  destruct (App.needsKey p) eqn:Hn; unfold App.onClose.
  - rewrite settle_keyed by (unfold App.needsKey; now rewrite Hkey).
    rewrite Hkey, Hsh, Hshow. cbn [Bool.eqb andb].
    destruct (App.sameKey (apiKey (store p)) (Some (Js.trim (geminiKey (fields p)))))
      eqn:Hsame.
    + apply sameKey_eq in Hsame. unfold App.needsKey in Hn. rewrite Hsame in Hn.
      congruence.
    + unfold openEffect. now rewrite Hsh.
  - rewrite settle_keyed by (unfold App.needsKey; cbn [App.setShowApiKeyModal store];
                             now rewrite Hkey).
    cbn [App.setShowApiKeyModal showApiKeyModal]. rewrite Hshow. reflexivity.
Qed.

Lemma clearKeys_page (p : Page) :
  showApiKeyModal p = true ->
  App.clearKeys stringify p = handleClearKeys stringify p.
Proof.
  intros Hshow. unfold App.clearKeys, App.settle.
  destruct p as [f ls s sh]. cbn [showApiKeyModal] in Hshow. subst sh.
  set (p := mkPage f ls s true).
  set (h := handleClearKeys stringify p).
  assert (Hkey : apiKey (store h) = None) by apply clearApiKey_apiKey.
  assert (Hopen : onOpen h = h) by (destruct s; reflexivity).
  assert (He : App.effects p h = h).
  { unfold App.effects, App.keyEffect, openEffect, App.needsKey.
    rewrite Hkey. change (showApiKeyModal h) with true. rewrite Hopen.
    cbn [App.requiresApiKey Bool.eqb showApiKeyModal p].
    destruct (true && App.sameKey (apiKey (store p)) None);
      destruct (Bool.eqb (App.requiresApiKey (apiKey (store p))) true);
      reflexivity. }
  rewrite He. now apply effects_quiet.
Qed.

End KeyForm.

(** X21: on the page with the key form displayed, a submit closes the
    form exactly when the Gemini key is not blank and starts with [AIza],
    the Replicate token is blank or starts with [r8_], and the app held a
    key already.  Whenever key and token pass, the store holds the
    trimmed key, which still starts with [AIza], so the app no longer
    requires a key; the storage holds the key as typed, the token when one
    was typed (the stored token is left alone otherwise), the text
    [persist] writes for the new key, and its other entries as they were.
    When the app held a key, the form is closed with both fields empty;
    on the first setup [onClose] does nothing, the form stays displayed
    and its effect reloads the trimmed key and the stored token into the
    fields. *)
Theorem submit_accepted (stringify : option string -> string -> string)
        (p : ApiKeyModal.Page) :
  ApiKeyModal.showApiKeyModal p = true ->
  let key := ApiKeyModal.geminiKey (ApiKeyModal.fields p) in
  let token := ApiKeyModal.replicateToken (ApiKeyModal.fields p) in
  let p' := App.submit stringify p in
  (ApiKeyModal.showApiKeyModal p' = false <->
   (Js.nonEmpty (Js.trim key) = true /\ Js.startsWith key "AIza" = true /\
    (Js.nonEmpty (Js.trim token) = false \/ Js.startsWith token "r8_" = true)) /\
   App.needsKey p = false) /\
  (Js.nonEmpty (Js.trim key) = true -> Js.startsWith key "AIza" = true ->
   Js.nonEmpty (Js.trim token) = false \/ Js.startsWith token "r8_" = true ->
   apiKey (ApiKeyModal.store p') = Some (Js.trim key) /\
   Js.startsWith (Js.trim key) "AIza" = true /\
   App.needsKey p' = false /\
   ApiKeyModal.localStorage p' "GEMINI_API_KEY" = Some key /\
   ApiKeyModal.localStorage p' "REPLICATE_API_TOKEN"
     = (if Js.nonEmpty (Js.trim token) then Some token
        else ApiKeyModal.localStorage p "REPLICATE_API_TOKEN") /\
   ApiKeyModal.localStorage p' ApiKeyModal.persistName
     = Some (stringify (Some (Js.trim key)) (userNote (ApiKeyModal.store p))) /\
   (forall k, k <> "GEMINI_API_KEY" -> k <> "REPLICATE_API_TOKEN" ->
              k <> ApiKeyModal.persistName ->
              ApiKeyModal.localStorage p' k = ApiKeyModal.localStorage p k) /\
   (if App.needsKey p
    then ApiKeyModal.geminiKey (ApiKeyModal.fields p') = Js.trim key /\
         ApiKeyModal.replicateToken (ApiKeyModal.fields p')
           = Js.orElse (ApiKeyModal.localStorage p' "REPLICATE_API_TOKEN") ""
    else ApiKeyModal.geminiKey (ApiKeyModal.fields p') = "" /\
         ApiKeyModal.replicateToken (ApiKeyModal.fields p') = "")).
Proof.
  intros Hshow. cbn zeta. split.
  - destruct (Js.nonEmpty (Js.trim (ApiKeyModal.geminiKey (ApiKeyModal.fields p))))
      eqn:Hk.
    2:{ rewrite (submit_key_refused stringify p (or_introl Hk)).
        cbn [ApiKeyModal.showApiKeyModal ApiKeyModal.setValidationError
               ApiKeyModal.setFields]. rewrite Hshow.
        split; [discriminate | intros ((H & _) & _); discriminate H]. }
    destruct (Js.startsWith (ApiKeyModal.geminiKey (ApiKeyModal.fields p)) "AIza")
      eqn:Ha.
    2:{ rewrite (submit_key_refused stringify p (or_intror Ha)).
        cbn [ApiKeyModal.showApiKeyModal ApiKeyModal.setValidationError
               ApiKeyModal.setFields]. rewrite Hshow.
        split; [discriminate | intros ((_ & H & _) & _); discriminate H]. }
    destruct (Js.nonEmpty (Js.trim (ApiKeyModal.replicateToken (ApiKeyModal.fields p))))
      eqn:Ht;
      [destruct (Js.startsWith (ApiKeyModal.replicateToken (ApiKeyModal.fields p)) "r8_")
         eqn:Hr|].
    + rewrite (submit_accepted_page stringify p Hshow Hk Ha (or_intror Hr)).
      destruct (App.needsKey p); rewrite Ht;
        cbn [ApiKeyModal.showApiKeyModal ApiKeyModal.onOpen ApiKeyModal.setFields
               ApiKeyModal.setStorage ApiKeyModal.storeSet App.setShowApiKeyModal];
        rewrite ?Hshow.
      * split; [discriminate | intros (_ & H); discriminate H].
      * split; auto.
    + rewrite (submit_token_refused stringify p Hshow Hk Ha Ht Hr).
      destruct (App.sameKey _ _);
        cbn [ApiKeyModal.showApiKeyModal ApiKeyModal.onOpen ApiKeyModal.setFields
               ApiKeyModal.setStorage ApiKeyModal.storeSet
               ApiKeyModal.setValidationError];
        rewrite Hshow;
        (split; [discriminate | intros ((_ & _ & [H | H]) & _); discriminate H]).
    + rewrite (submit_accepted_page stringify p Hshow Hk Ha (or_introl Ht)).
      destruct (App.needsKey p); rewrite Ht;
        cbn [ApiKeyModal.showApiKeyModal ApiKeyModal.onOpen ApiKeyModal.setFields
               ApiKeyModal.setStorage ApiKeyModal.storeSet App.setShowApiKeyModal];
        rewrite ?Hshow.
      * split; [discriminate | intros (_ & H); discriminate H].
      * split; auto.
  - intros Hk Ha Ht.
    rewrite (submit_accepted_page stringify p Hshow Hk Ha Ht).
    pose proof (setApiKey_apiKey (ApiKeyModal.geminiKey (ApiKeyModal.fields p))
                  (ApiKeyModal.store p)) as [Hkey Hnote].
    assert (Hpre : Js.startsWith (Js.trim (ApiKeyModal.geminiKey (ApiKeyModal.fields p)))
                     "AIza" = true)
      by (apply trim_keeps_prefix; [reflexivity | apply AIza_nonWhite | exact Ha]).
    assert (Hneeds : App.requiresApiKey
                       (Some (Js.trim (ApiKeyModal.geminiKey (ApiKeyModal.fields p))))
                     = false) by now apply requiresApiKey_trimmed.
    assert (Hother : forall (v : string) (ls : ApiKeyModal.Storage) k key,
               k <> key -> ApiKeyModal.setItem key v ls k = ls k).
    { intros v ls k key H. unfold ApiKeyModal.setItem.
      apply String.eqb_neq in H. now rewrite H. }
    destruct (App.needsKey p);
      destruct (Js.nonEmpty (Js.trim (ApiKeyModal.replicateToken (ApiKeyModal.fields p))));
      unfold App.needsKey;
      cbn [ApiKeyModal.showApiKeyModal ApiKeyModal.onOpen ApiKeyModal.setFields
             ApiKeyModal.setStorage ApiKeyModal.storeSet App.setShowApiKeyModal
             ApiKeyModal.store ApiKeyModal.localStorage ApiKeyModal.fields
             ApiKeyModal.geminiKey ApiKeyModal.replicateToken];
      rewrite ?Hkey, ?Hnote;
      (split; [reflexivity|]); (split; [exact Hpre|]); (split; [exact Hneeds|]);
      (split; [reflexivity|]); (split; [reflexivity|]); (split; [reflexivity|]);
      (split; [intros k H1 H2 H3; rewrite ?Hother by assumption; reflexivity|]).
    all: try (split; reflexivity).
    all: split; [|reflexivity];
      unfold ApiKeyModal.firstTruthy; cbn [Js.truthy]; rewrite Hk; now apply orElse_some.
Qed.

(** X21 on the first setup, where the form stays displayed with the
    trimmed key, and on a page that held a key, where it closes. *)
Lemma submit_accepted_witness :
  (let p' := App.submit plainJson (filledForm "AIzaSyExample " "") in
   ApiKeyModal.showApiKeyModal p' = true /\
   apiKey (ApiKeyModal.store p') = Some "AIzaSyExample" /\
   ApiKeyModal.localStorage p' "GEMINI_API_KEY" = Some "AIzaSyExample " /\
   ApiKeyModal.geminiKey (ApiKeyModal.fields p') = "AIzaSyExample") /\
  (let p' := App.submit plainJson (keyedForm "AIzaSySecond" "r8_token") in
   ApiKeyModal.showApiKeyModal p' = false /\
   apiKey (ApiKeyModal.store p') = Some "AIzaSySecond" /\
   ApiKeyModal.localStorage p' "REPLICATE_API_TOKEN" = Some "r8_token" /\
   ApiKeyModal.geminiKey (ApiKeyModal.fields p') = "").
Proof.
  split; cbn zeta.
  - destruct (submit_accepted plainJson (filledForm "AIzaSyExample " "") eq_refl)
      as [_ H].
    destruct H as (H1 & _ & _ & H4 & _ & _ & _ & H8 & _);
      [reflexivity | reflexivity | left; reflexivity|].
    split; [reflexivity|]. split; [exact H1|]. split; [exact H4 | exact H8].
  - destruct (submit_accepted plainJson (keyedForm "AIzaSySecond" "r8_token") eq_refl)
      as [Hc H].
    destruct H as (H1 & _ & _ & _ & H5 & _ & _ & H8 & _);
      [reflexivity | reflexivity | right; reflexivity|].
    split.
    { apply Hc. repeat split; try reflexivity. right; reflexivity. }
    split; [exact H1|]. split; [exact H5 | exact H8].
Defined.

(** X22: on the page with the key form displayed, a submit refused for
    the Gemini key (blank, or not starting with [AIza]) saves nothing and
    leaves the form as typed, with the reason shown.  A submit refused for
    the Replicate token has already saved the Gemini key, in the store
    and in the storage (with the text [persist] writes), and leaves the
    stored token alone; the form stays displayed with the reason; its
    fields stay as typed only when the store held that very key already:
    otherwise the form's effect reloads them, the key field with the
    trimmed key and the token field with the stored token, so the token
    typed is gone. *)
Theorem submit_refused (stringify : option string -> string -> string)
        (p : ApiKeyModal.Page) :
  ApiKeyModal.showApiKeyModal p = true ->
  let key := ApiKeyModal.geminiKey (ApiKeyModal.fields p) in
  let token := ApiKeyModal.replicateToken (ApiKeyModal.fields p) in
  let p' := App.submit stringify p in
  (Js.nonEmpty (Js.trim key) = false \/ Js.startsWith key "AIza" = false ->
   ApiKeyModal.store p' = ApiKeyModal.store p /\
   ApiKeyModal.localStorage p' = ApiKeyModal.localStorage p /\
   ApiKeyModal.showApiKeyModal p' = true /\
   ApiKeyModal.geminiKey (ApiKeyModal.fields p') = key /\
   ApiKeyModal.replicateToken (ApiKeyModal.fields p') = token /\
   ApiKeyModal.validationError (ApiKeyModal.fields p')
     = Some (if Js.nonEmpty (Js.trim key) then ApiKeyModal.badGeminiKey
             else "Please enter your Gemini API key")) /\
  (Js.nonEmpty (Js.trim key) = true -> Js.startsWith key "AIza" = true ->
   Js.nonEmpty (Js.trim token) = true -> Js.startsWith token "r8_" = false ->
   apiKey (ApiKeyModal.store p') = Some (Js.trim key) /\
   ApiKeyModal.localStorage p' "GEMINI_API_KEY" = Some key /\
   ApiKeyModal.localStorage p' ApiKeyModal.persistName
     = Some (stringify (Some (Js.trim key)) (userNote (ApiKeyModal.store p))) /\
   ApiKeyModal.localStorage p' "REPLICATE_API_TOKEN"
     = ApiKeyModal.localStorage p "REPLICATE_API_TOKEN" /\
   ApiKeyModal.showApiKeyModal p' = true /\
   ApiKeyModal.validationError (ApiKeyModal.fields p')
     = Some ApiKeyModal.badReplicateToken /\
   (if App.sameKey (apiKey (ApiKeyModal.store p)) (Some (Js.trim key))
    then ApiKeyModal.geminiKey (ApiKeyModal.fields p') = key /\
         ApiKeyModal.replicateToken (ApiKeyModal.fields p') = token
    else ApiKeyModal.geminiKey (ApiKeyModal.fields p') = Js.trim key /\
         ApiKeyModal.replicateToken (ApiKeyModal.fields p')
           = Js.orElse (ApiKeyModal.localStorage p "REPLICATE_API_TOKEN") "")).
Proof.
  intros Hshow. cbn zeta. split.
  - intros H. rewrite (submit_key_refused stringify p H).
    cbn [ApiKeyModal.setValidationError ApiKeyModal.setFields ApiKeyModal.store
           ApiKeyModal.localStorage ApiKeyModal.showApiKeyModal ApiKeyModal.fields
           ApiKeyModal.geminiKey ApiKeyModal.replicateToken
           ApiKeyModal.validationError].
    repeat split. exact Hshow.
  - intros Hk Ha Ht Hr.
    rewrite (submit_token_refused stringify p Hshow Hk Ha Ht Hr).
    pose proof (setApiKey_apiKey (ApiKeyModal.geminiKey (ApiKeyModal.fields p))
                  (ApiKeyModal.store p)) as [Hkey Hnote].
    destruct (App.sameKey _ _);
      cbn [ApiKeyModal.showApiKeyModal ApiKeyModal.onOpen ApiKeyModal.setFields
             ApiKeyModal.setStorage ApiKeyModal.storeSet ApiKeyModal.setValidationError
             ApiKeyModal.store ApiKeyModal.localStorage ApiKeyModal.fields
             ApiKeyModal.geminiKey ApiKeyModal.replicateToken
             ApiKeyModal.validationError];
      rewrite ?Hkey, ?Hnote;
      (split; [reflexivity|]); (split; [reflexivity|]); (split; [reflexivity|]);
      (split; [reflexivity|]); (split; [exact Hshow|]); (split; [reflexivity|]).
    + split; reflexivity.
    + split; [|reflexivity].
      unfold ApiKeyModal.firstTruthy. cbn [Js.truthy]. rewrite Hk. now apply orElse_some.
Qed.

(** X22 on a first setup with a good key and a token of the wrong form:
    the key is saved, the form stays, and the token typed is gone. *)
Lemma submit_refused_witness :
  let p' := App.submit plainJson (filledForm "AIzaSyExample" "token-123") in
  apiKey (ApiKeyModal.store p') = Some "AIzaSyExample" /\
  ApiKeyModal.localStorage p' "GEMINI_API_KEY" = Some "AIzaSyExample" /\
  ApiKeyModal.localStorage p' "REPLICATE_API_TOKEN" = None /\
  ApiKeyModal.showApiKeyModal p' = true /\
  ApiKeyModal.replicateToken (ApiKeyModal.fields p') = "".
Proof.
  destruct (submit_refused plainJson (filledForm "AIzaSyExample" "token-123") eq_refl)
    as [_ H].
  destruct H as (H1 & H2 & _ & H4 & H5 & _ & _ & H8); try reflexivity.
  repeat split; assumption.
Defined.

(** X23: on the page with the key form displayed, clearing the keys
    removes the key from the store and both credentials from the storage,
    rewrites the entry [persist] keeps and leaves every other entry as it
    was; the app requires a key again and the form stays displayed, empty
    and without a message.  And when a submit has closed the form, the
    header's button opens it with the trimmed key and the stored token in
    its fields. *)
Theorem keys_cleared_and_reloaded (stringify : option string -> string -> string)
        (p : ApiKeyModal.Page) :
  ApiKeyModal.showApiKeyModal p = true ->
  (let q := App.clearKeys stringify p in
   apiKey (ApiKeyModal.store q) = None /\
   App.needsKey q = true /\
   ApiKeyModal.showApiKeyModal q = true /\
   ApiKeyModal.localStorage q "GEMINI_API_KEY" = None /\
   ApiKeyModal.localStorage q "REPLICATE_API_TOKEN" = None /\
   ApiKeyModal.localStorage q ApiKeyModal.persistName
     = Some (stringify None (userNote (ApiKeyModal.store p))) /\
   (forall k, k <> "GEMINI_API_KEY" -> k <> "REPLICATE_API_TOKEN" ->
              k <> ApiKeyModal.persistName ->
              ApiKeyModal.localStorage q k = ApiKeyModal.localStorage p k) /\
   ApiKeyModal.fields q
     = {| ApiKeyModal.geminiKey := ""; ApiKeyModal.replicateToken := "";
          ApiKeyModal.showReplicateSetup := false;
          ApiKeyModal.validationError := None |}) /\
  (let key := ApiKeyModal.geminiKey (ApiKeyModal.fields p) in
   let token := ApiKeyModal.replicateToken (ApiKeyModal.fields p) in
   let p' := App.submit stringify p in
   let r := App.openKeyForm p' in
   ApiKeyModal.showApiKeyModal p' = false ->
   ApiKeyModal.showApiKeyModal r = true /\
   ApiKeyModal.geminiKey (ApiKeyModal.fields r) = Js.trim key /\
   ApiKeyModal.replicateToken (ApiKeyModal.fields r)
     = Js.orElse (ApiKeyModal.localStorage p' "REPLICATE_API_TOKEN") "").
Proof.
  intros Hshow. split; cbn zeta.
  - rewrite (clearKeys_page stringify p Hshow).
    pose proof (clearApiKey_apiKey (ApiKeyModal.store p)) as [Hkey Hnote].
    unfold App.needsKey.
    cbn [ApiKeyModal.handleClearKeys ApiKeyModal.setFields ApiKeyModal.setStorage
           ApiKeyModal.storeSet ApiKeyModal.store ApiKeyModal.localStorage
           ApiKeyModal.fields ApiKeyModal.showApiKeyModal].
    rewrite Hkey, Hnote.
    split; [reflexivity|]. split; [reflexivity|]. split; [exact Hshow|].
    split; [reflexivity|]. split; [reflexivity|]. split; [reflexivity|].
    split; [|reflexivity].
    intros k H1 H2 H3. apply String.eqb_neq in H1, H2, H3.
    unfold ApiKeyModal.removeItem, ApiKeyModal.setItem. now rewrite H1, H2, H3.
  - intros Hclosed.
    destruct (Js.nonEmpty (Js.trim (ApiKeyModal.geminiKey (ApiKeyModal.fields p))))
      eqn:Hk.
    2:{ rewrite (submit_key_refused stringify p (or_introl Hk)) in Hclosed.
        cbn in Hclosed. congruence. }
    destruct (Js.startsWith (ApiKeyModal.geminiKey (ApiKeyModal.fields p)) "AIza")
      eqn:Ha.
    2:{ rewrite (submit_key_refused stringify p (or_intror Ha)) in Hclosed.
        cbn in Hclosed. congruence. }
    assert (Ht : Js.nonEmpty (Js.trim (ApiKeyModal.replicateToken (ApiKeyModal.fields p)))
                 = false \/
                 Js.startsWith (ApiKeyModal.replicateToken (ApiKeyModal.fields p)) "r8_"
                 = true).
    { destruct (Js.nonEmpty (Js.trim (ApiKeyModal.replicateToken (ApiKeyModal.fields p))))
        eqn:Ht; [|now left].
      destruct (Js.startsWith (ApiKeyModal.replicateToken (ApiKeyModal.fields p)) "r8_")
        eqn:Hr; [now right|].
      rewrite (submit_token_refused stringify p Hshow Hk Ha Ht Hr) in Hclosed.
      destruct (App.sameKey _ _); cbn in Hclosed; congruence. }
    rewrite (submit_accepted_page stringify p Hshow Hk Ha Ht) in *.
    destruct (App.needsKey p).
    { exfalso. revert Hclosed.
      destruct (Js.nonEmpty (Js.trim (ApiKeyModal.replicateToken (ApiKeyModal.fields p))));
        cbn; congruence. }
    clear Hclosed. unfold App.openKeyForm.
    pose proof (setApiKey_apiKey (ApiKeyModal.geminiKey (ApiKeyModal.fields p))
                  (ApiKeyModal.store p)) as [Hkey _].
    assert (Hneeds : App.requiresApiKey
                       (Some (Js.trim (ApiKeyModal.geminiKey (ApiKeyModal.fields p))))
                     = false) by now apply requiresApiKey_trimmed.
    rewrite settle_keyed;
      destruct (Js.nonEmpty (Js.trim (ApiKeyModal.replicateToken (ApiKeyModal.fields p))));
      try (unfold App.needsKey;
           cbn [App.setShowApiKeyModal ApiKeyModal.setFields ApiKeyModal.setStorage
                  ApiKeyModal.storeSet ApiKeyModal.store];
           rewrite Hkey; exact Hneeds).
    all: cbn [App.setShowApiKeyModal ApiKeyModal.setFields ApiKeyModal.setStorage
                ApiKeyModal.storeSet ApiKeyModal.store ApiKeyModal.showApiKeyModal
                ApiKeyModal.openEffect ApiKeyModal.onOpen ApiKeyModal.localStorage
                ApiKeyModal.fields ApiKeyModal.geminiKey ApiKeyModal.replicateToken
                Bool.eqb andb];
      rewrite Hkey; (split; [reflexivity|]); (split; [|reflexivity]);
      unfold ApiKeyModal.firstTruthy; cbn [Js.truthy]; rewrite Hk; now apply orElse_some.
Qed.

(** X23 on a page that holds a key: a second key is submitted, the form
    closes, and the header's button shows that key. *)
Lemma keys_cleared_and_reloaded_witness :
  ApiKeyModal.geminiKey
    (ApiKeyModal.fields (App.openKeyForm (App.submit plainJson (keyedForm "AIzaSySecond " ""))))
  = "AIzaSySecond".
Proof.
  apply (keys_cleared_and_reloaded plainJson (keyedForm "AIzaSySecond " "") eq_refl).
  reflexivity.
Defined.

(* ================================================================== *)
(** * Upload: a valid file *)
(* ================================================================== *)

(** X24: for a file that passes the validation, [handleFile] ends, with
    the processing flag off, in one of two ways: either the store gets
    the file with a non-empty data URL, which moves the workflow to
    [enhance], and no error is shown; or the store is left as it was and
    the error shown is [Failed to process image. Please try a different
    image.], whatever made the compression or the reading fail. *)
Theorem handleFile_valid (env : Env) (w : World) (file : File) :
  imageProcessing.isValid (imageProcessing.validateImageFile file) = true ->
  let w' := after env (UploadComponent.handleFile file) w in
  outcome env (UploadComponent.handleFile file) w = inr tt /\
  read upl_isProcessing w' = false /\
  ((read upl_uploadError w' = None /\
    exists d,
      Js.nonEmpty d = true /\
      read theStore w' = memoryStore.setOriginalImage file d (read theStore w) /\
      currentStep (read theStore w') = enhance) \/
   (read upl_uploadError w'
      = Some "Failed to process image. Please try a different image." /\
    read theStore w' = read theStore w)).
Proof.
  intros Hvalid.
  unfold outcome, after, UploadComponent.handleFile, UploadComponent.setUploadError,
    UploadComponent.setIsProcessing, imageProcessing.processImageForGemini,
    imageProcessing.fileToDataUrl.
  rewrite Hvalid. safe_unfold. cbn [negb bind tryCatch tryFinally run log record write].
  destruct (env _ _ (imageCompression file imageProcessing.DEFAULT_PROCESSING_OPTIONS))
    as [e | compressed] eqn:Hc;
    cbn [negb bind tryCatch tryFinally run].
  - split; [reflexivity|]. split; [reflexivity|]. right. split; reflexivity.
  - destruct (env _ _ (readFileAsDataURL compressed)) as [e | [d|]];
      cbn [negb bind tryCatch tryFinally run Js.truthy];
      try (split; [reflexivity|]; split; [reflexivity|]; right; split; reflexivity).
    destruct (Js.nonEmpty d) eqn:Hd;
      cbn [negb bind tryCatch tryFinally run Js.truthy imageProcessing.dataUrl];
      try (split; [reflexivity|]; split; [reflexivity|]; right; split; reflexivity).
    split; [reflexivity|]. split; [reflexivity|]. left. split; [reflexivity|].
    exists d. split; [exact Hd|].
    rewrite (orElse_some d "" Hd).
    split; [reflexivity|].
    cbn [fst]. unfold read. cbn [cells write record sameCell].
    destruct (cells w MemoryState theStore); reflexivity.
Qed.

(** X24 without network: the compression fails, the handler returns with
    the processing flag off. *)
Lemma handleFile_valid_witness :
  let step := UploadComponent.handleFile (mkFile "cat.png" "image/png" 2048) in
  outcome offline step freshWorld = inr tt /\
  read upl_isProcessing (after offline step freshWorld) = false.
Proof.
  destruct (handleFile_valid offline freshWorld (mkFile "cat.png" "image/png" 2048))
    as (H1 & H2 & _).
  - reflexivity.
  - split; [exact H1 | exact H2].
Defined.

(* ================================================================== *)
(** * The mount effects run their step once *)
(* ================================================================== *)

Section ServiceFootprint.

Variable R : forall X : Type, Ext X -> X -> Prop.

Ltac own_step :=
  match goal with
  | |- True => exact I
  | |- ownEvent _ => reflexivity
  | |- _ /\ _ => split
  | |- forall _, _ => intro
  | |- Safe _ _ ?p => head_scrutinee p ltac:(fun x => destruct x)
  | |- Safe _ _ _ => progress cbn [Safe bind tryCatch tryFinally]
  | |- Safe _ _ (bind _ _) => apply Safe_bind; [ | intro]
  | |- Safe _ _ (tryCatch _ _) => apply Safe_tryCatch; [ | intro]
  | |- Safe _ _ _ => solve [eauto]
  end.

Lemma gemini_enhanceImage_own b m n : Safe R ownEvent (GeminiService.enhanceImage b m n).
Proof. unfold GeminiService.enhanceImage. safe_unfold. repeat own_step. Qed.

Lemma generateVideoPromptFromImage_own url note :
  Safe R ownEvent (GeminiService.generateVideoPromptFromImage url note).
Proof. unfold GeminiService.generateVideoPromptFromImage. safe_unfold. repeat own_step. Qed.

Lemma replicate_enhanceImage_own url note :
  Safe R ownEvent (ReplicateService.enhanceImage url note).
Proof. unfold ReplicateService.enhanceImage. safe_unfold. repeat own_step. Qed.

Lemma generateVideoWithReplicate_own p img d r a :
  Safe R ownEvent (VeoService.generateVideoWithReplicate p img d r a).
Proof. unfold VeoService.generateVideoWithReplicate. safe_unfold. repeat own_step. Qed.

Lemma pollLoop_own n : forall op, Safe R ownEvent (VeoService.pollLoop None n op).
Proof.
  induction n as [|n IH]; intros op; cbn [VeoService.pollLoop]; [exact I|].
  destruct (done op); [exact I|].
  safe_unfold. repeat own_step.
Qed.

Lemma generateVideo_own b p m : Safe R ownEvent (VeoService.generateVideo b p None m).
Proof.
  unfold VeoService.generateVideo, VeoService.retrieve, VeoService.translateError.
  safe_unfold. pose proof pollLoop_own. repeat own_step.
Qed.

Lemma generateVideoSimple_own url p : Safe R ownEvent (VeoService.generateVideoSimple url p).
Proof.
  unfold VeoService.generateVideoSimple. safe_unfold. pose proof generateVideo_own.
  repeat own_step.
Qed.

End ServiceFootprint.

Section MountOnce.

Variable env : Env.

Lemma own_keeps {X} (c : Cell X) {A} (p : Prog A) :
  (forall Y (d : Cell Y) v, serviceEvent (Wrote d v) = true -> writesCell c (Wrote d v) = false) ->
  Safe anyAnswer ownEvent p -> Safe anyAnswer (keeps c) p.
Proof.
  intros Hc. apply Safe_weaken; [auto|].
  intros [Y e x | Y d v] H; [reflexivity | now apply Hc].
Qed.

Lemma started_not_own Y (d : Cell Y) v :
  serviceEvent (Wrote d v) = true ->
  writesCell enh_enhancementStarted (Wrote d v) = false.
Proof. destruct d; cbn; intros H; try discriminate; reflexivity. Qed.

Lemma generationStarted_not_own Y (d : Cell Y) v :
  serviceEvent (Wrote d v) = true ->
  writesCell gen_generationStarted (Wrote d v) = false.
Proof. destruct d; cbn; intros H; try discriminate; reflexivity. Qed.

Ltac keeps_step :=
  match goal with
  | |- True => exact I
  | |- keeps _ _ => reflexivity
  | |- _ /\ _ => split
  | |- forall _, _ => intro
  | |- Safe _ _ ?p => head_scrutinee p ltac:(fun x => destruct x)
  | |- Safe _ _ _ => progress cbn [Safe bind tryCatch tryFinally]
  | |- Safe _ _ (bind _ _) => apply Safe_bind; [ | intro]
  | |- Safe _ _ (tryCatch _ _) => apply Safe_tryCatch; [ | intro]
  | |- Safe _ _ (GeminiService.enhanceImage _ _ _) =>
      apply own_keeps; [first [apply started_not_own | apply generationStarted_not_own]
                       | apply gemini_enhanceImage_own]
  | |- Safe _ _ (ReplicateService.enhanceImage _ _) =>
      apply own_keeps; [first [apply started_not_own | apply generationStarted_not_own]
                       | apply replicate_enhanceImage_own]
  | |- Safe _ _ (GeminiService.generateVideoPromptFromImage _ _) =>
      apply own_keeps; [first [apply started_not_own | apply generationStarted_not_own]
                       | apply generateVideoPromptFromImage_own]
  | |- Safe _ _ (VeoService.generateVideoWithReplicate _ _ _ _ _) =>
      apply own_keeps; [first [apply started_not_own | apply generationStarted_not_own]
                       | apply generateVideoWithReplicate_own]
  | |- Safe _ _ (VeoService.generateVideoSimple _ _) =>
      apply own_keeps; [first [apply started_not_own | apply generationStarted_not_own]
                       | apply generateVideoSimple_own]
  end.

Lemma startEnhancement_keeps_flag url :
  Safe anyAnswer (keeps enh_enhancementStarted) (EnhanceComponent.startEnhancement url).
Proof.
  unfold EnhanceComponent.startEnhancement, EnhanceComponent.begin,
    EnhanceComponent.enhance, EnhanceComponent.viaReplicate,
    EnhanceComponent.enhanceWithGemini, EnhanceComponent.settle,
    EnhanceComponent.onError, ReplicateService.init, EnhanceComponent.setIsEnhancing,
    EnhanceComponent.setEnhanceError, EnhanceComponent.setEnhanceProgress,
    EnhanceComponent.setImageLoaded.
  safe_unfold. repeat keeps_step.
Qed.

Lemma startGeneration_keeps_flag img mp note :
  Safe anyAnswer (keeps gen_generationStarted)
       (GenerateComponent.startGeneration img mp note).
Proof.
  unfold GenerateComponent.startGeneration, GenerateComponent.begin,
    GenerateComponent.promptPhase, GenerateComponent.videoPhase,
    GenerateComponent.onError, GenerateComponent.finish,
    GenerateComponent.startGentleProgress, GenerateComponent.stopGentleProgress,
    GenerateComponent.clearTimer, VeoService.init, GenerateComponent.setIsGenerating,
    GenerateComponent.setGenerateError, GenerateComponent.setProgress,
    GenerateComponent.setStatusMessage.
  safe_unfold. repeat keeps_step.
Qed.

End MountOnce.

(** X25: a mount effect starts its step at most once: when the effect of
    the enhancement component, or of the generation component, runs again
    after it has run (as it does twice in React's strict mode), the
    second run does nothing, whatever the first one did. *)
Theorem mount_effects_once (env : Env) (w : World) :
  trace env EnhanceComponent.onMount (after env EnhanceComponent.onMount w) = [] /\
  trace env GenerateComponent.onMount (after env GenerateComponent.onMount w) = [].
Proof.
  split.
  - unfold EnhanceComponent.onMount, after, get, when. cbn [bind run trace fst].
    destruct (Js.truthy (originalImageDataUrl (read theStore w))
              && negb (Js.truthy (enhancedImageUrl (read theStore w)))
              && negb (read enh_enhancementStarted w)) eqn:Hcond.
    + unfold dispatch, get, put. cbn [bind run trace fst].
      match goal with
      | |- context [fst (run env (EnhanceComponent.startEnhancement ?u) ?w3)] =>
          change (fst (run env (EnhanceComponent.startEnhancement u) w3))
            with (after env (EnhanceComponent.startEnhancement u) w3);
          pose proof (frame env enh_enhancementStarted
                        (EnhanceComponent.startEnhancement u) w3
                        (Safe_sound anyAnswer _ env (fun _ _ _ => I) _
                           (startEnhancement_keeps_flag u) w3)) as Hflag;
          change (read enh_enhancementStarted w3) with true in Hflag
      end.
      rewrite Hflag. cbn [negb]. rewrite andb_false_r. reflexivity.
    + cbn [run fst]. rewrite Hcond. reflexivity.
  - unfold GenerateComponent.onMount, after, get, when. cbn [bind run trace fst].
    destruct (negb (Js.truthy (videoUrl (read theStore w)))
              && Js.truthy (enhancedImageUrl (read theStore w))
              && negb (read gen_generationStarted w)) eqn:Hcond.
    + unfold put, GenerateComponent.setStatusMessage, call, put. cbn [bind run trace fst].
      destruct (Js.nonEmpty (userNote (read theStore w))
                && (0 <? String.length (Js.trim (userNote (read theStore w))))%nat).
      * cbn [bind run trace fst]. unfold read. cbn [cells write record sameCell].
        cbn [negb]. rewrite andb_false_r. reflexivity.
      * match goal with
        | |- context [fst (run env (GenerateComponent.startGeneration ?u ?mp ?n) ?w3)] =>
            change (fst (run env (GenerateComponent.startGeneration u mp n) w3))
              with (after env (GenerateComponent.startGeneration u mp n) w3);
            pose proof (frame env gen_generationStarted
                          (GenerateComponent.startGeneration u mp n) w3
                          (Safe_sound anyAnswer _ env (fun _ _ _ => I) _
                             (startGeneration_keeps_flag u mp n) w3)) as Hflag;
            change (read gen_generationStarted w3) with true in Hflag
        end.
        rewrite Hflag. cbn [negb]. rewrite andb_false_r. reflexivity.
    + cbn [run fst]. rewrite Hcond. reflexivity.
Qed.

(* ================================================================== *)
(** * Generation through the alternate provider: every outcome *)
(* ================================================================== *)

Section AlternateGeneration.

Import GenerateComponent.

Variable env : Env.
Variables (tok url : string).
Hypothesis tok_nonEmpty : Js.nonEmpty tok = true.
Hypothesis token_there :
  forall h, env _ h (localStorage_getItem "REPLICATE_API_TOKEN") = Some tok.

Lemma finish_run (u : string) (w : World) :
  outcome env (finish u) w = inr tt /\
  read theStore (after env (finish u) w) = memoryStore.setVideoUrl u (read theStore w) /\
  pick surfacedError (trace env (finish u) w) = [].
Proof.
  unfold outcome, after, finish, stopGentleProgress, setProgress, setStatusMessage.
  safe_unfold. cbn [bind run trace].
  destruct (liveTimer _); cbn [bind run trace fst snd pick surfacedError];
    unfold read; cbn [cells write record sameCell]; repeat split.
Qed.

Lemma show_error_run (m : string) (w : World) :
  let tail := (stopGentleProgress ;; setGenerateError (Some m) ;; setIsGenerating false) in
  outcome env tail w = inr tt /\
  read theStore (after env tail w) = read theStore w /\
  pick surfacedError (trace env tail w) = [m].
Proof.
  unfold outcome, after, stopGentleProgress, setGenerateError, setIsGenerating.
  safe_unfold. cbn [bind run trace].
  destruct (liveTimer _); cbn [bind run trace fst snd pick surfacedError];
    unfold read; cbn [cells write record sameCell]; repeat split.
Qed.

(** A quiet request for a video followed by [finish], under a handler. *)
Lemma attempt_then_finish (g : Prog string) (h : JsError -> Prog unit) (w : World) :
  Safe anyAnswer quiet g ->
  Ends (fun u => Js.nonEmpty u = true) (fun _ => True) g ->
  let p := tryCatch (videoUrl <- g ;; finish videoUrl) h in
  match outcome env g w with
  | inr u =>
      outcome env p w = inr tt /\
      stored (trace env p w) (read theStore w) (read theStore (after env p w))
  | inl e =>
      outcome env p w = outcome env (h e) (after env g w) /\
      after env p w = after env (h e) (after env g w) /\
      pick surfacedError (trace env p w)
        = pick surfacedError (trace env (h e) (after env g w)) /\
      read theStore (after env g w) = read theStore w
  end.
Proof.
  intros Hq He p.
  pose proof (Ends_sound env _ _ _ He w) as Hu.
  pose proof (quiet_surfaced env g w Hq) as Hs.
  pose proof (frame_store env g w (quiet_store env g w Hq)) as Hf.
  unfold p. rewrite outcome_tryCatch, after_tryCatch, trace_tryCatch.
  rewrite !outcome_bind, !after_bind, !trace_bind.
  destruct (outcome env g w) as [e | u]; cbv beta iota.
  - rewrite app_nil_r, pick_app, Hs. repeat split. exact Hf.
  - destruct (finish_run u (after env g w)) as (H1 & H2 & H3).
    rewrite H1. split; [reflexivity|]. unfold stored. rewrite app_nil_r, pick_app, Hs, H3.
    split; [reflexivity|]. exists u. split; [exact Hu|]. now rewrite H2, Hf.
Qed.

Lemma onError_outcomes (e : JsError) (w : World) :
  outcome env (onError url e) w = inr tt /\
  (stored (trace env (onError url e) w) (read theStore w)
          (read theStore (after env (onError url e) w)) \/
   failed (trace env (onError url e) w) (read theStore w)
          (read theStore (after env (onError url e) w))).
Proof.
  unfold onError, call. unfold outcome at 1. unfold after.
  cbn [bind run trace]. rewrite token_there. cbn [Js.truthy]. rewrite tok_nonEmpty.
  cbn [andb]. set (w1 := record _ w).
  assert (Hw1 : read theStore w1 = read theStore w) by reflexivity.
  destruct (negb (Js.includes (messageOf e) "Replicate")).
  - unfold get. cbn [bind tryCatch run trace].
    match goal with
    | |- context [run env (tryCatch (bind ?g ?k) ?h) w1] =>
        pose proof (attempt_then_finish g h w1
                      (generateVideoWithReplicate_quiet _ _ _ _ _ _)
                      (generateVideoWithReplicate_ends _ _ _ _ _)) as Hatt;
        set (p := tryCatch (bind g k) h) in *;
        destruct (outcome env g w1) as [e2 | u] eqn:Hg
    end.
    + destruct Hatt as (Ho & Ha & Hs & Hf).
      change (snd (run env p w1)) with (outcome env p w1).
      change (fst (run env p w1)) with (after env p w1).
      match type of Ho with
      | _ = outcome env ?tail ?w2 =>
          match tail with
          | context [setGenerateError (Some ?m)] =>
              destruct (show_error_run m w2) as (T1 & T2 & T3)
          end
      end.
      rewrite Ho, Ha. unfold failed. cbn [pick surfacedError]. rewrite Hs.
      split; [exact T1|]. right. eexists. split; [exact T3|].
      now rewrite T2, Hf.
    + destruct Hatt as (Ho & Hst).
      change (snd (run env p w1)) with (outcome env p w1).
      change (fst (run env p w1)) with (after env p w1).
      split; [exact Ho|]. left. rewrite <- Hw1. unfold stored in *.
      cbn [pick surfacedError]. exact Hst.
  - match goal with
    | |- context [setGenerateError (Some ?m)] =>
        destruct (show_error_run m w1) as (T1 & T2 & T3)
    end.
    cbv zeta in T1, T2, T3.
    split; [exact T1|]. right. unfold failed. cbn [pick surfacedError].
    eexists. split; [exact T3|]. exact T2.
Qed.

Lemma rest_outcomes (w : World) :
  let rest := tryCatch (videoPhase url) (onError url) in
  outcome env rest w = inr tt /\
  (stored (trace env rest w) (read theStore w) (read theStore (after env rest w)) \/
   failed (trace env rest w) (read theStore w) (read theStore (after env rest w))).
Proof.
  intros rest. unfold rest, videoPhase, setStatusMessage, call, put, get.
  unfold outcome at 1. unfold after.
  cbn [bind tryCatch run trace]. rewrite token_there. cbn [Js.truthy].
  rewrite tok_nonEmpty. cbn [bind tryCatch run trace].
  set (w1 := record (Wrote gen_statusMessage _) _).
  assert (Hw1 : read theStore w1 = read theStore w) by reflexivity.
  match goal with
  | |- context [run env (tryCatch (bind ?g ?k) ?h) w1] =>
      pose proof (attempt_then_finish g h w1
                    (generateVideoWithReplicate_quiet _ _ _ _ _ _)
                    (generateVideoWithReplicate_ends _ _ _ _ _)) as Hatt;
      set (p := tryCatch (bind g k) h) in *;
      destruct (outcome env g w1) as [e | u] eqn:Hg
  end;
    change (snd (run env p w1)) with (outcome env p w1);
    change (fst (run env p w1)) with (after env p w1);
    cbn [pick surfacedError].
  - destruct Hatt as (Ho & Ha & Hs & Hf).
    match type of Ho with
    | _ = outcome env _ ?w2 => destruct (onError_outcomes e w2) as (O1 & O2)
    end.
    rewrite Ho, Ha. unfold stored, failed in *. cbn [pick surfacedError].
    rewrite Hs, <- Hw1, <- Hf. split; [exact O1 | exact O2].
  - destruct Hatt as (Ho & Hst). split; [exact Ho|]. left. rewrite <- Hw1.
    unfold stored in *. cbn [pick surfacedError]. exact Hst.
Qed.

End AlternateGeneration.

(** X15: with the alternate credential stored, the generation step ends
    in one of two ways, whatever the providers answer: either it shows no
    error and stores a video with a non-empty URL, so that the [complete]
    step can be entered, or it shows exactly one error and leaves the
    store as it was. *)
Theorem alternate_generation_outcomes
        (env : Env) (w : World) (tok url motionPrompt userNote : string) :
  Js.nonEmpty tok = true ->
  Js.nonEmpty url = true ->
  (forall h, env _ h (localStorage_getItem "REPLICATE_API_TOKEN") = Some tok) ->
  let step := GenerateComponent.startGeneration (Some url) motionPrompt userNote in
  let s' := read theStore (after env step w) in
  outcome env step w = inr tt /\
  ((pick surfacedError (trace env step w) = [] /\
    exists u, u <> "" /\ s' = memoryStore.setVideoUrl u (read theStore w) /\
              memoryStore.canProceedToStep complete s' = true) \/
   (exists m, pick surfacedError (trace env step w) = [m] /\ s' = read theStore w)).
Proof.
  intros Htok Hurl Hthere step s'.
  destruct (startGeneration_summary env url motionPrompt userNote w Hurl)
    as (Hout & Haft & Hstore & Hshown & _).
  destruct (rest_outcomes env tok url Htok Hthere
              (after env (GenerateComponent.promptPhase url userNote)
                 (after env (GenerateComponent.begin motionPrompt) w)))
    as (H1 & H2).
  unfold s', step. rewrite Hout, Haft, Hshown.
  split; [exact H1|]. rewrite Hstore in H2.
  destruct H2 as [(Hs & u & Hu & Heq) | (m & Hs & Heq)].
  - left. split; [exact Hs|]. exists u. split; [now apply nonEmpty_spec|].
    split; [exact Heq|]. rewrite Heq. destruct (read theStore w). exact Hu.
  - right. exists m. split; assumption.
Qed.

(** X15 with an alternate provider that delivers. *)
Lemma alternate_generation_outcomes_witness :
  outcome (scripted replicateReady)
          (GenerateComponent.startGeneration (Some "data:image/jpeg;base64,/9j/4AAQ") "" "")
          freshWorld = inr tt.
Proof.
  apply (alternate_generation_outcomes (scripted replicateReady) freshWorld "r8_example"
           "data:image/jpeg;base64,/9j/4AAQ" "" "").
  - reflexivity.
  - reflexivity.
  - intros h. reflexivity.
Defined.

(* ================================================================== *)
(** * The note field *)
(* ================================================================== *)

(** X26: typing in the note field puts the text in the component and in
    the store, and changes nothing else of the store.  While the image is
    not enhanced no timer is touched; once it is, every keystroke cancels
    the pending advance to [generate], if there is one, and arms a new
    one, 2000 ms later, whose id it keeps. *)
Theorem note_typed (env : Env) (w : World) (value : string) :
  let step := EnhanceComponent.onNoteChange value in
  let w' := after env step w in
  read enh_userNote w' = value /\
  read theStore w' = memoryStore.setUserNote value (read theStore w) /\
  (read enh_hasEnhanced w = false ->
   pick timerSet (trace env step w) = [] /\ pick timerCleared (trace env step w) = [] /\
   read enh_autoAdvanceTimer w' = read enh_autoAdvanceTimer w) /\
  (read enh_hasEnhanced w = true ->
   pick timerSet (trace env step w) = [(AdvanceTo generate, 2000%Z)] /\
   pick timerCleared (trace env step w)
     = match liveTimer (read enh_autoAdvanceTimer w) with
       | Some id => [id]
       | None => []
       end /\
   exists id, read enh_autoAdvanceTimer w' = Some id /\
              In (Called (setTimeout (AdvanceTo generate) 2000) id) (trace env step w)).
Proof.
  cbn zeta. unfold after, EnhanceComponent.onNoteChange. safe_unfold.
  cbn [bind run trace fst].
  repeat match goal with
         | |- context [read enh_hasEnhanced ?w0] =>
             lazymatch w0 with
             | w => fail
             | _ => change (read enh_hasEnhanced w0) with (read enh_hasEnhanced w)
             end
         end.
  destruct (read enh_hasEnhanced w) eqn:He.
  - cbn [bind run trace fst].
    repeat match goal with
           | |- context [read enh_autoAdvanceTimer ?w0] =>
               lazymatch w0 with
               | w => fail
               | _ => change (read enh_autoAdvanceTimer w0)
                        with (read enh_autoAdvanceTimer w)
               end
           end.
    destruct (liveTimer (read enh_autoAdvanceTimer w)) as [id|] eqn:Ht;
      cbn [bind run trace fst pick timerSet timerCleared];
      (split; [reflexivity|]); (split; [reflexivity|]);
      (split; [discriminate|]); intros _;
      (split; [reflexivity|]); (split; [reflexivity|]);
      eexists; (split; [reflexivity|]); cbn [In]; auto.
  - cbn [bind run trace fst pick timerSet timerCleared].
    split; [reflexivity|]. split; [reflexivity|].
    split; [intros _; repeat split | discriminate].
Qed.

(** X26 after an enhancement whose advance timer, of id 7, is pending. *)
Lemma note_typed_witness :
  let w := write enh_hasEnhanced true (write enh_autoAdvanceTimer (Some 7%Z) freshWorld) in
  pick timerCleared (trace offline (EnhanceComponent.onNoteChange "At the lake") w) = [7%Z] /\
  pick timerSet (trace offline (EnhanceComponent.onNoteChange "At the lake") w)
    = [(AdvanceTo generate, 2000%Z)] /\
  userNote (read theStore (after offline (EnhanceComponent.onNoteChange "At the lake") w))
    = "At the lake".
Proof.
  destruct (note_typed offline
              (write enh_hasEnhanced true (write enh_autoAdvanceTimer (Some 7%Z) freshWorld))
              "At the lake") as (_ & H2 & _ & H4).
  destruct (H4 eq_refl) as (H5 & H6 & _).
  split; [exact H6|]. split; [exact H5|]. cbn zeta. now rewrite H2.
Defined.

(* ================================================================== *)
(** * The primary video client: a refused job *)
(* ================================================================== *)

(** X27: when the primary video provider answers the start request with
    a status that is not OK, [generateVideo] polls nothing and fails at
    once: with the quota message when the body of the answer mentions
    [quota], else with the safety message when it mentions [safety], and
    else with [ApiError: ] followed by the body. *)
Theorem start_refused
        (env : Env) (w : World) (key : string) (r0 : Response Operation)
        (imageBytes : option string) (prompt mimeType : string) :
  read veo_apiKey w = Some key ->
  Js.nonEmpty key = true ->
  (forall h k instances, env _ h (veo_predictLongRunning k instances) = inr r0) ->
  ok r0 = false ->
  let attempt := VeoService.generateVideo imageBytes prompt None mimeType in
  let m := "ApiError: " ++ text r0 in
  map kind (trace env attempt w) = [KPredict] /\
  outcome env attempt w
    = inl (ErrorObj
             (if Js.includes m "quota"
              then "API quota exceeded. Please check your API usage limits."
              else if Js.includes m "safety"
              then "Content was rejected for safety reasons. Please try different content."
              else m)) /\
  (Js.includes (text r0) "quota" = true -> Js.includes m "quota" = true) /\
  (Js.includes (text r0) "safety" = true -> Js.includes m "safety" = true).
Proof.
  intros Hkey Hne Hstart Hok attempt m.
  unfold attempt, outcome, VeoService.generateVideo, VeoService.translateError.
  safe_unfold. cbn [bind run trace tryCatch]. rewrite Hkey. cbn [Js.truthy Js.show].
  rewrite Hne. cbn [negb bind run trace tryCatch]. rewrite !Hstart.
  cbn [bind run trace tryCatch]. rewrite Hok. cbn [negb bind run trace tryCatch map kind].
  fold m. split; [|split].
  - destruct (Js.includes m "quota"); [reflexivity|].
    destruct (Js.includes m "safety"); reflexivity.
  - destruct (Js.includes m "quota"); [reflexivity|].
    destruct (Js.includes m "safety"); reflexivity.
  - split; intros H; apply includes_app_r; exact H.
Qed.

(** X27 at a 429 whose body mentions the quota. *)
Lemma start_refused_witness :
  outcome (scripted {| replicateTokenAt := fun _ => None;
                       geminiKey := None;
                       geminiAnswer := inl (ErrorObj "Failed to fetch");
                       veoStart := inr (failedResponse 429 "You exceeded your quota.");
                       veoPoll := inl (ErrorObj "Failed to fetch");
                       seedanceAnswer := inl (ErrorObj "Failed to fetch");
                       nanoBananaAnswer := inl (ErrorObj "Failed to fetch") |})
          (VeoService.generateVideo (Some "/9j/4AAQ") "The leaves sway gently." None
             "image/jpeg")
          (write veo_apiKey (Some "AIzaSyExample") freshWorld)
  = inl (ErrorObj "API quota exceeded. Please check your API usage limits.").
Proof.
  apply (start_refused _ (write veo_apiKey (Some "AIzaSyExample") freshWorld)
           "AIzaSyExample" (failedResponse 429 "You exceeded your quota.")
           (Some "/9j/4AAQ") "The leaves sway gently." "image/jpeg").
  - reflexivity.
  - reflexivity.
  - intros h k instances. reflexivity.
  - reflexivity.
Defined.

(* ================================================================== *)
(** * The progress curve of the generation step *)
(* ================================================================== *)

Section ProgressCurve.

Import GenerateComponent.

Lemma Qmin_cases (x y : Q) :
  (Qmin x y = x /\ x <= y)%Q \/ (Qmin x y = y /\ y < x)%Q.
Proof.
  unfold Qmin, GenericMinMax.gmin. destruct (x ?= y)%Q eqn:C.
  - left. split; [reflexivity|]. apply Qeq_alt in C. lra.
  - left. split; [reflexivity|]. apply Qlt_alt in C. lra.
  - right. split; [reflexivity|]. apply Qgt_alt in C. exact C.
Qed.

Lemma newProgress_curve (elapsed : Z) :
  (0 <= elapsed)%Z ->
  (10 <= newProgress elapsed /\ newProgress elapsed <= 90)%Q /\
  ((50000 <= elapsed)%Z -> (newProgress elapsed == 90)%Q) /\
  ((elapsed < 50000)%Z -> (newProgress elapsed < 90)%Q).
Proof.
  intros H. unfold newProgress, startProgress, endProgress, duration_ms, Qltb.
  set (x := (inject_Z elapsed / 50000)%Q).
  assert (Hx0 : (0 <= x)%Q).
  { unfold x. apply Qle_shift_div_l; [reflexivity|]. rewrite Qmult_0_l.
    change 0%Q with (inject_Z 0). rewrite <- Zle_Qle. exact H. }
  assert (Hx1 : (50000 <= elapsed)%Z -> (1 <= x)%Q).
  { intros Hl. unfold x. apply Qle_shift_div_l; [reflexivity|]. rewrite Qmult_1_l.
    change 50000%Q with (inject_Z 50000). rewrite <- Zle_Qle. exact Hl. }
  assert (Hx2 : (elapsed < 50000)%Z -> (x < 1)%Q).
  { intros Hl. unfold x. apply Qlt_shift_div_r; [reflexivity|]. rewrite Qmult_1_l.
    change 50000%Q with (inject_Z 50000). rewrite <- Zlt_Qlt. exact Hl. }
  clearbody x.
  destruct (Qmin_cases x 1) as [[-> Hle] | [-> Hlt]].
  - destruct (Qle_bool (1#2) x) eqn:E; cbn [negb].
    + apply Qle_bool_iff in E. simpl Qpower.
      set (y := (-2 * x + 2)%Q).
      assert (Hy : (0 <= y /\ y <= 1)%Q) by (unfold y; split; lra).
      assert (Hz : (0 <= y * y /\ y * y <= 1)%Q) by (split; nra).
      assert (Hz' : (x < 1 -> 0 < y * y)%Q).
      { intros Hl. assert (0 < y)%Q by (unfold y; lra). nra. }
      assert (Hz'' : (1 <= x -> y * y == 0)%Q).
      { intros Hl. assert (y == 0)%Q by (unfold y; lra). nra. }
      set (z := (y * y)%Q) in *. clearbody z.
      setoid_replace (z / 2)%Q with (z * (1#2))%Q by field.
      split; [split; lra|]. split.
      * intros Hl. apply Hx1, Hz'' in Hl. lra.
      * intros Hl. apply Hx2, Hz' in Hl. lra.
    + assert (E' : (x < 1#2)%Q).
      { apply Qnot_le_lt. intros C. apply Qle_bool_iff in C. congruence. }
      assert (Hz : (0 <= 2 * x * x /\ 2 * x * x < 1#2)%Q).
      { assert (0 <= x * x)%Q by nra. assert (x * x < 1#4)%Q by nra. split; lra. }
      set (z := (2 * x * x)%Q) in *. clearbody z.
      split; [split; lra|]. split.
      * intros Hl. apply Hx1 in Hl. lra.
      * intros _. lra.
  - replace (Qle_bool (1#2) 1) with true by reflexivity. cbn [negb].
    split; [split; vm_compute; congruence|]. split.
    + intros _. vm_compute. reflexivity.
    + intros Hl. apply Hx2 in Hl. lra.
Qed.

End ProgressCurve.

(** X28: when the clock has not gone back since the progress animation
    started, the value computed for the bar lies between 10 and 90; it is
    below 90 during the first 50 seconds, and then a tick writes it and
    leaves the interval running; from 50 seconds on it is 90, and a tick
    writes 90 and clears the interval. *)
Theorem gentle_progress_curve (env : Env) (w : World) (startTime now : Z) :
  (startTime <= now)%Z ->
  env _ (log w) Date_now = now ->
  let elapsed := (now - startTime)%Z in
  let p := GenerateComponent.newProgress elapsed in
  let tick := GenerateComponent.gentleProgressTick startTime in
  let w1 := record (Wrote gen_progress (Qmin 90 p))
              (write gen_progress (Qmin 90 p) (record (Called Date_now now) w)) in
  (10 <= p /\ p <= 90)%Q /\
  ((elapsed < 50000)%Z ->
   (p < 90)%Q /\ Qmin 90 p = p /\
   trace env tick w = [Called Date_now now; Wrote gen_progress p]) /\
  ((50000 <= elapsed)%Z ->
   (p == 90)%Q /\
   trace env tick w
     = (Called Date_now now :: Wrote gen_progress (Qmin 90 p)
        :: trace env GenerateComponent.clearTimer w1)%list).
Proof.
  intros Hclock Hnow elapsed p tick w1.
  assert (H0 : (0 <= elapsed)%Z) by (unfold elapsed; lia).
  destruct (newProgress_curve elapsed H0) as (Hb & Hhi & Hlo). fold p in Hb, Hhi, Hlo.
  split; [exact Hb|].
  unfold tick, GenerateComponent.gentleProgressTick, GenerateComponent.setProgress.
  safe_unfold. cbn [bind trace]. rewrite Hnow. fold elapsed. fold p.
  split.
  - intros Hl. specialize (Hlo Hl).
    assert (Hmin : Qmin 90 p = p).
    { destruct (Qmin_cases 90 p) as [[_ Hc] | [Hm _]]; [lra | exact Hm]. }
    split; [exact Hlo|]. split; [exact Hmin|].
    rewrite Hmin.
    assert (Hb' : Qle_bool 90 p = false).
    { destruct (Qle_bool 90 p) eqn:C; [|reflexivity]. apply Qle_bool_iff in C. lra. }
    rewrite Hb'. reflexivity.
  - intros Hl. specialize (Hhi Hl). split; [exact Hhi|].
    assert (Hb' : Qle_bool 90 p = true) by (apply Qle_bool_iff; lra).
    rewrite Hb'. reflexivity.
Qed.

(** X28 at 12.5 seconds: the bar shows 20 and the interval stays. *)
Lemma gentle_progress_curve_witness :
  let env : Env := fun X h e => match e in Ext X return X with
                                | Date_now => 13500%Z
                                | e' => offline _ h e'
                                end in
  (GenerateComponent.newProgress 12500 == 20)%Q /\
  length (trace env (GenerateComponent.gentleProgressTick 1000) freshWorld) = 2%nat.
Proof.
  intros env.
  destruct (gentle_progress_curve env freshWorld 1000 13500) as (_ & H & _).
  - lia.
  - reflexivity.
  - destruct H as (_ & _ & Ht); [reflexivity|].
    split; [vm_compute; reflexivity|]. rewrite Ht. reflexivity.
Defined.

(* ================================================================== *)
(** * The progress intervals *)
(* ================================================================== *)

Ltac still_step :=
  match goal with
  | |- True => exact I
  | |- still _ => repeat split
  | |- _ /\ _ => split
  | |- forall _, _ => intro
  | |- Safe _ _ ?p => head_scrutinee p ltac:(fun x => destruct x)
  | |- Safe _ _ _ => progress cbn [Safe bind tryCatch tryFinally]
  | |- Safe _ _ (bind _ _) => apply Safe_bind; [ | intro]
  | |- Safe _ _ (tryCatch _ _) => apply Safe_tryCatch; [ | intro]
  | |- Safe _ _ _ => solve [eauto]
  end.

Section StillServices.

Variable R : forall X : Type, Ext X -> X -> Prop.

Lemma gemini_enhanceImage_still b m n : Safe R still (GeminiService.enhanceImage b m n).
Proof. unfold GeminiService.enhanceImage. safe_unfold. repeat still_step. Qed.

Lemma generateVideoPromptFromImage_still url note :
  Safe R still (GeminiService.generateVideoPromptFromImage url note).
Proof. unfold GeminiService.generateVideoPromptFromImage. safe_unfold. repeat still_step. Qed.

Lemma replicate_enhanceImage_still url note :
  Safe R still (ReplicateService.enhanceImage url note).
Proof. unfold ReplicateService.enhanceImage. safe_unfold. repeat still_step. Qed.

Lemma generateVideoWithReplicate_still p img d r a :
  Safe R still (VeoService.generateVideoWithReplicate p img d r a).
Proof. unfold VeoService.generateVideoWithReplicate. safe_unfold. repeat still_step. Qed.

Lemma pollLoop_still n : forall op, Safe R still (VeoService.pollLoop None n op).
Proof.
  induction n as [|n IH]; intros op; cbn [VeoService.pollLoop]; [exact I|].
  destruct (done op); [exact I|].
  safe_unfold. repeat still_step.
Qed.

Lemma generateVideo_still b p m : Safe R still (VeoService.generateVideo b p None m).
Proof.
  unfold VeoService.generateVideo, VeoService.retrieve, VeoService.translateError.
  safe_unfold. pose proof pollLoop_still. repeat still_step.
Qed.

Lemma generateVideoSimple_still url p : Safe R still (VeoService.generateVideoSimple url p).
Proof.
  unfold VeoService.generateVideoSimple. safe_unfold. pose proof generateVideo_still.
  repeat still_step.
Qed.

End StillServices.

Section GenerationInterval.

Import GenerateComponent.

Variable env : Env.

Lemma still_sound {A} (p : Prog A) (w : World) :
  Safe anyAnswer still p ->
  pick intervalSet (trace env p w) = [] /\
  pick intervalCleared (trace env p w) = [] /\
  read gen_timerRef (after env p w) = read gen_timerRef w.
Proof.
  intros H.
  pose proof (Safe_sound anyAnswer still env (fun _ _ _ => I) p H w) as F.
  split; [|split].
  - apply pick_nil. revert F. apply Forall_impl. intros ev Hev. apply Hev.
  - apply pick_nil. revert F. apply Forall_impl. intros ev Hev. apply Hev.
  - apply frame. revert F. apply Forall_impl. intros ev Hev. apply Hev.
Qed.

Lemma releases_bind {A B} (p : Prog A) (k : A -> Prog B) :
  Safe anyAnswer still p -> (forall x, releases env (k x)) -> releases env (bind p k).
Proof.
  intros Hp Hk w. destruct (still_sound p w Hp) as (Hs & Hc & Hr).
  rewrite trace_bind, outcome_bind, after_bind, !pick_app, Hs, Hc.
  destruct (outcome env p w) as [e|x].
  - cbn [pick List.app]. repeat split. exact Hr.
  - specialize (Hk x (after env p w)). rewrite Hr in Hk. exact Hk.
Qed.

Lemma releases_tryCatch {A} (p : Prog A) (h : JsError -> Prog A) :
  releases env p -> (forall e, releases env (h e)) -> releases env (tryCatch p h).
Proof.
  intros Hp Hh w. destruct (Hp w) as (Hs & Hrest).
  rewrite trace_tryCatch, outcome_tryCatch, after_tryCatch, !pick_app, Hs.
  destruct (outcome env p w) as [e|x].
  - destruct Hrest as (Hc & Hr). rewrite Hc.
    specialize (Hh e (after env p w)). rewrite Hr in Hh. exact Hh.
  - cbn [pick]. rewrite !app_nil_r. split; [reflexivity | exact Hrest].
Qed.

Lemma releases_Throw {A} (e : JsError) : releases env (@Throw A e).
Proof. intros w. repeat split. Qed.

Ltac stop_run L :=
  match goal with
  | w : World |- _ =>
      destruct (liveTimer (read gen_timerRef w)) eqn:L;
      cbn [bind run trace fst snd pick intervalSet intervalCleared List.app];
      unfold read in *; cbn [cells write record sameCell liveTimer];
      rewrite ?L; repeat split
  end.

Lemma finish_releases (u : string) : releases env (finish u).
Proof.
  intros w.
  unfold outcome, after, finish, stopGentleProgress, setProgress, setStatusMessage, running.
  safe_unfold. cbn [bind run trace]. stop_run L.
Qed.

Lemma show_error_releases (m : string) :
  releases env (stopGentleProgress ;; setGenerateError (Some m) ;; setIsGenerating false).
Proof.
  intros w.
  unfold outcome, after, stopGentleProgress, setGenerateError, setIsGenerating, running.
  safe_unfold. cbn [bind run trace]. stop_run L.
Qed.

Ltac releases_step :=
  match goal with
  | |- releases _ (finish _) => apply finish_releases
  | |- releases _ (Throw _) => apply releases_Throw
  | |- releases _ (bind stopGentleProgress _) => apply show_error_releases
  | |- releases _ (tryCatch _ _) => apply releases_tryCatch; [ | intro]
  | |- releases _ ?p => head_scrutinee p ltac:(fun x => destruct x)
  | |- releases _ (bind _ _) => apply releases_bind; [ | intro]
  | |- Safe _ still (VeoService.generateVideoWithReplicate _ _ _ _ _) =>
      apply generateVideoWithReplicate_still
  | |- Safe _ still (VeoService.generateVideoSimple _ _) =>
      apply generateVideoSimple_still
  | |- Safe _ still (GeminiService.generateVideoPromptFromImage _ _) =>
      apply generateVideoPromptFromImage_still
  | |- Safe _ still _ => solve [repeat still_step]
  end.

Lemma videoPhase_releases (url : string) : releases env (videoPhase url).
Proof.
  unfold videoPhase, VeoService.init, setStatusMessage. safe_unfold.
  repeat releases_step.
Qed.

Lemma onError_releases (url : string) (e : JsError) : releases env (onError url e).
Proof.
  unfold onError, setGenerateError, setIsGenerating. safe_unfold.
  repeat releases_step.
Qed.

Lemma promptPhase_still (url note : string) : Safe anyAnswer still (promptPhase url note).
Proof.
  unfold promptPhase, setStatusMessage. safe_unfold.
  pose proof (generateVideoPromptFromImage_still anyAnswer). repeat still_step.
Qed.

Lemma begin_interval (mp : string) (w : World) :
  exists id,
    pick intervalSet (trace env (begin mp) w) = [id] /\
    pick intervalCleared (trace env (begin mp) w) = running (read gen_timerRef w) /\
    read gen_timerRef (after env (begin mp) w) = Some id.
Proof.
  unfold after, begin, startGentleProgress, clearTimer, setIsGenerating, setGenerateError,
    setProgress, setStatusMessage, running.
  safe_unfold. cbn [bind run trace]. unfold read. cbn [cells write record sameCell].
  destruct (liveTimer (cells w (option Z) gen_timerRef)) eqn:L;
    cbn [bind run trace fst snd pick intervalSet intervalCleared List.app];
    unfold read; cbn [cells write record sameCell];
    eexists; repeat split.
Qed.

End GenerationInterval.

(** X29: one run of the generation step on an image starts exactly one
    repeating timer, the progress animation.  By the time the step ends,
    however it ends, it has stopped that timer unless its id is 0, before
    that the one [timerRef] named when the step began, if any, and no
    other; and [timerRef] names no timer any more. *)
Theorem progress_interval_released (env : Env) (url mp note : string) (w : World) :
  Js.nonEmpty url = true ->
  exists id,
    pick intervalSet (trace env (GenerateComponent.startGeneration (Some url) mp note) w)
      = [id] /\
    pick intervalCleared (trace env (GenerateComponent.startGeneration (Some url) mp note) w)
      = (running (read gen_timerRef w) ++ running (Some id))%list /\
    running (read gen_timerRef
               (after env (GenerateComponent.startGeneration (Some url) mp note) w)) = [].
Proof.
  intros Hurl.
  destruct (startGeneration_split env url mp note w Hurl) as [Hrun Htrace].
  destruct (begin_interval env mp w) as (id & Hset & Hclr & Href).
  destruct (still_sound env _ (after env (GenerateComponent.begin mp) w)
              (promptPhase_still url note)) as (Hs2 & Hc2 & Hr2).
  pose proof (releases_tryCatch env _ _ (videoPhase_releases env url)
                (onError_releases env url)
                (after env (GenerateComponent.promptPhase url note)
                   (after env (GenerateComponent.begin mp) w))) as (Hs3 & H3).
  pose proof (NoThrow_unit env _ (startGeneration_total (Some url) mp note) w) as Hout.
  unfold outcome in Hout. rewrite Hrun in Hout.
  unfold outcome in H3. rewrite Hout in H3. destruct H3 as (Hc3 & Hr3).
  exists id.
  rewrite Htrace, !pick_app, Hset, Hclr, Hs2, Hc2, Hs3, Hc3, Hr2, Href.
  unfold after at 1. rewrite Hrun.
  split; [reflexivity|]. split; [reflexivity|]. exact Hr3.
Qed.

(** X29 with nothing reachable: the animation gets the id 1 and is
    stopped. *)
Lemma progress_interval_released_witness :
  exists id,
    pick intervalSet
      (trace offline (GenerateComponent.startGeneration (Some "data:image/png;base64,AAAA")
                        "" "") freshWorld) = [id] /\
    pick intervalCleared
      (trace offline (GenerateComponent.startGeneration (Some "data:image/png;base64,AAAA")
                        "" "") freshWorld)
      = (running (read gen_timerRef freshWorld) ++ running (Some id))%list /\
    running (read gen_timerRef
               (after offline
                  (GenerateComponent.startGeneration (Some "data:image/png;base64,AAAA")
                     "" "") freshWorld)) = [].
Proof.
  apply (progress_interval_released offline "data:image/png;base64,AAAA" "" "" freshWorld).
  reflexivity.
Defined.

Section EnhancementInterval.

Import EnhanceComponent.

Variable env : Env.

Lemma enhance_still (url : string) : Safe anyAnswer still (enhance url).
Proof.
  unfold enhance, viaReplicate, enhanceWithGemini, ReplicateService.init. safe_unfold.
  pose proof (gemini_enhanceImage_still anyAnswer).
  pose proof (replicate_enhanceImage_still anyAnswer).
  repeat still_step.
Qed.

Lemma enhance_begin_interval (w : World) :
  exists id,
    outcome env begin w = inr id /\
    pick intervalSet (trace env begin w) = [id] /\
    pick intervalCleared (trace env begin w) = [] /\
    pick enhanceError (trace env begin w) = [].
Proof. eexists. repeat split. Qed.

Lemma settle_intervals (pi : Z) (img : option string) (caption : string) (w : World) :
  pick intervalSet (trace env (settle pi (img, caption)) w) = [] /\
  pick intervalCleared (trace env (settle pi (img, caption)) w) = [pi] /\
  pick enhanceError (trace env (settle pi (img, caption)) w) = [] /\
  outcome env (settle pi (img, caption)) w
    = if Js.truthy img then inr tt
      else inl (ErrorObj "No enhanced image was generated").
Proof.
  unfold outcome, settle, setEnhanceProgress, setImageLoaded. safe_unfold.
  destruct (Js.truthy img); cbn [bind run trace read cells write record sameCell];
    [destruct (liveTimer _)|];
    cbn [bind run trace fst snd pick intervalSet intervalCleared enhanceError];
    repeat split.
Qed.

Lemma onError_intervals (pi : Z) (e : JsError) (w : World) :
  pick intervalSet (trace env (onError pi e) w) = [] /\
  pick intervalCleared (trace env (onError pi e) w) = [pi] /\
  pick enhanceError (trace env (onError pi e) w)
    = [match e with ErrorObj m => m | Thrown _ => "Enhancement failed" end].
Proof. repeat split. Qed.

End EnhancementInterval.

(** X30: one run of the enhancement step on an image starts exactly one
    repeating timer, the progress animation, and stops it and no other
    before it ends, however it ends.  It stops it once, except when the
    provider returned no image: then it stops it twice, and the error shown
    is 'No enhanced image was generated'. *)
Theorem enhancement_interval_released (env : Env) (url : string) (w : World) :
  Js.nonEmpty url = true ->
  exists id,
    pick intervalSet (trace env (EnhanceComponent.startEnhancement (Some url)) w) = [id] /\
    (pick intervalCleared (trace env (EnhanceComponent.startEnhancement (Some url)) w)
       = [id] \/
     pick intervalCleared (trace env (EnhanceComponent.startEnhancement (Some url)) w)
       = [id; id] /\
     pick enhanceError (trace env (EnhanceComponent.startEnhancement (Some url)) w)
       = ["No enhanced image was generated"]).
Proof.
  intros Hurl.
  unfold EnhanceComponent.startEnhancement. cbn [Js.truthy]. rewrite Hurl. cbn [negb].
  rewrite (orElse_some url "" Hurl).
  destruct (enhance_begin_interval env w) as (id & Hout & Hset & Hclr & Herr).
  exists id.
  rewrite trace_bind, Hout.
  set (w1 := after env EnhanceComponent.begin w).
  rewrite trace_tryCatch, trace_bind, outcome_bind.
  destruct (still_sound env _ w1 (enhance_still url)) as (Hs & Hc & _).
  assert (He : pick enhanceError (trace env (EnhanceComponent.enhance url) w1) = []).
  { apply pick_nil.
    pose proof (Safe_sound anyAnswer quiet env (fun _ _ _ => I) _
                  (enhance_quiet anyAnswer url) w1) as H.
    revert H. apply Forall_impl. now intros ev (_ & _ & _ & H & _). }
  rewrite !pick_app, Hset, Hclr, Herr, Hs, Hc, He.
  destruct (outcome env (EnhanceComponent.enhance url) w1) as [e | [img caption]].
  - cbv beta iota.
    match goal with
    | |- context [trace env (EnhanceComponent.onError id ?e') ?w'] =>
        destruct (onError_intervals env id e' w') as (Hs2 & Hc2 & _);
        rewrite Hs2, Hc2
    end.
    split; [reflexivity | left; reflexivity].
  - cbv beta iota.
    destruct (settle_intervals env id img caption
                (after env (EnhanceComponent.enhance url) w1)) as (Hs' & Hc' & He' & Ho').
    rewrite Hs', Hc', He', Ho'.
    destruct (Js.truthy img); cbv beta iota.
    + split; [reflexivity | left; reflexivity].
    + match goal with
      | |- context [trace env (EnhanceComponent.onError id ?e) ?w'] =>
          destruct (onError_intervals env id e w') as (Hs2 & Hc2 & He2);
          rewrite Hs2, Hc2, He2
      end.
      split; [reflexivity | right; split; reflexivity].
Qed.

(** X30 with nothing reachable: the animation gets the id 1 and is stopped
    once. *)
Lemma enhancement_interval_released_witness :
  exists id,
    pick intervalSet
      (trace offline (EnhanceComponent.startEnhancement (Some "data:image/png;base64,AAAA"))
         freshWorld) = [id] /\
    (pick intervalCleared
       (trace offline (EnhanceComponent.startEnhancement (Some "data:image/png;base64,AAAA"))
          freshWorld) = [id] \/
     pick intervalCleared
       (trace offline (EnhanceComponent.startEnhancement (Some "data:image/png;base64,AAAA"))
          freshWorld) = [id; id] /\
     pick enhanceError
       (trace offline (EnhanceComponent.startEnhancement (Some "data:image/png;base64,AAAA"))
          freshWorld) = ["No enhanced image was generated"]).
Proof.
  apply (enhancement_interval_released offline "data:image/png;base64,AAAA" freshWorld).
  reflexivity.
Defined.
